(** * Optimistic-concurrency event editing (airmozilla/main/views/edit.py)

    A shallow embedding of the edit views of [airmozilla.main.views.edit]:
    [EventEditView.post] with its per-field diff and conflict loop,
    [EventRevisionView.get]'s lookup of the previous revision, and the
    chapter sub-editor [EventEditChaptersView].

    The database is an explicit value of type [DB]; view code is a function
    from a database to a result and a new database.  Python exceptions are
    the [Raise] branch of an error monad, and [transaction.atomic] commits
    the new database when the body returns and keeps the old one when the
    body raises. *)

From Stdlib Require Import Ascii.
From stdpp Require Import base numbers strings list gmap.

Local Open Scope Z_scope.

(** ** Exceptions and the error monad *)

Inductive exn :=
| DoesNotExist
| MultipleObjectsReturned
| KeyError (key : string)
| AttributeError (key : string)
| TypeError
| ValueError
| NameError
| Http404.

Inductive result (A : Type) : Type :=
| Ok (a : A)
| Raise (e : exn).
Arguments Ok {A} a.
Arguments Raise {A} e.

#[global] Instance result_ret : MRet result := λ A a, Ok a.
#[global] Instance result_bind : MBind result :=
  λ A B f m, match m with Ok a => f a | Raise e => Raise e end.

(** ** Rows of the tables the views touch *)

Record Tag := mkTag { tag_id : Z; tag_name : string }.
Record Channel := mkChannel { channel_pk : Z; channel_name : string }.
Record Picture := mkPicture { picture_id : Z; picture_file_url : string }.
(** A stored or uploaded image file; only its [url] is read. *)
Record ImageFile := mkImageFile { file_url : string }.
Record User := mkUser { user_id : Z; user_is_active : bool }.

Record Event := mkEvent {
  event_id : Z;
  title : string;
  description : string;
  short_description : string;
  call_info : string;
  additional_links : string;
  picture : option Picture;
  placeholder_img : option ImageFile;
}.

(** Modelled from the spec: the [EventRevision] model is declared outside
    edit.py.  The spec describes a revision as the entity reference, the
    creation timestamp, the author and the full field snapshot taken at
    that moment. *)
Record EventRevision := mkEventRevision {
  revision_pk : Z;
  revision_event : Z;
  revision_created : Z;
  revision_user : option Z;
  revision_fields : Event;
  revision_tags : list Z;
  revision_channels : list Z;
}.

Record Chapter := mkChapter {
  chapter_id : Z;
  chapter_event : Z;
  chapter_timestamp : Z;
  chapter_text : string;
  chapter_user : Z;
  chapter_is_active : bool;
}.

#[global] Instance Tag_eq_dec : EqDecision Tag.
Proof. solve_decision. Defined.
#[global] Instance Channel_eq_dec : EqDecision Channel.
Proof. solve_decision. Defined.
#[global] Instance Picture_eq_dec : EqDecision Picture.
Proof. solve_decision. Defined.
#[global] Instance ImageFile_eq_dec : EqDecision ImageFile.
Proof. solve_decision. Defined.
#[global] Instance Event_eq_dec : EqDecision Event.
Proof. solve_decision. Defined.
#[global] Instance EventRevision_eq_dec : EqDecision EventRevision.
Proof. solve_decision. Defined.
#[global] Instance Chapter_eq_dec : EqDecision Chapter.
Proof. solve_decision. Defined.

(** The database: one list of rows per table, in the order the database
    iterates them.  [event_tags] and [event_channels] are the through
    tables of the two many-to-many relations, rows (event id, member id). *)
Record DB := mkDB {
  events : list Event;
  tags : list Tag;
  channels : list Channel;
  event_tags : list (Z * Z);
  event_channels : list (Z * Z);
  revisions : list EventRevision;
  chapters : list Chapter;
}.

#[global] Instance DB_eq_dec : EqDecision DB.
Proof. solve_decision. Defined.

Definition set_events (db : DB) (l : list Event) : DB :=
  mkDB l (tags db) (channels db) (event_tags db) (event_channels db)
       (revisions db) (chapters db).
Definition set_tags (db : DB) (l : list Tag) : DB :=
  mkDB (events db) l (channels db) (event_tags db) (event_channels db)
       (revisions db) (chapters db).
Definition set_event_tags (db : DB) (l : list (Z * Z)) : DB :=
  mkDB (events db) (tags db) (channels db) l (event_channels db)
       (revisions db) (chapters db).
Definition set_event_channels (db : DB) (l : list (Z * Z)) : DB :=
  mkDB (events db) (tags db) (channels db) (event_tags db) l
       (revisions db) (chapters db).
Definition set_revisions (db : DB) (l : list EventRevision) : DB :=
  mkDB (events db) (tags db) (channels db) (event_tags db) (event_channels db)
       l (chapters db).
Definition set_chapters (db : DB) (l : list Chapter) : DB :=
  mkDB (events db) (tags db) (channels db) (event_tags db) (event_channels db)
       (revisions db) l.

(** ** Query helpers *)

(** [Model.objects.get(...)] over the rows that match the lookup. *)
Definition objects_get {A : Type} (matching : list A) : result A :=
  match matching with
  | [] => Raise DoesNotExist
  | [x] => Ok x
  | _ :: _ :: _ => Raise MultipleObjectsReturned
  end.

(** A new primary key: one more than the largest key in the table. *)
Definition fresh_pk (pks : list Z) : Z := 1 + foldr Z.max 0 pks.

(** Case folding for [name__iexact]; ASCII letters only. *)
Definition lower_ascii (c : ascii) : ascii :=
  let n := N_of_ascii c in
  if ((65 <=? n) && (n <=? 90))%N then ascii_of_N (n + 32) else c.

Fixpoint lower (s : string) : string :=
  match s with
  | EmptyString => EmptyString
  | String c r => String (lower_ascii c) (lower r)
  end.

Definition iexact (a b : string) : bool := String.eqb (lower a) (lower b).

(** ** Tags *)

Definition Tag_filter_id_in (db : DB) (ids : list Z) : list Tag :=
  filter (λ t, tag_id t ∈ ids) (tags db).

Definition Tag_filter_name (db : DB) (name : string) : list Tag :=
  filter (λ t, tag_name t = name) (tags db).

Definition Tag_filter_name_iexact (db : DB) (name : string) : list Tag :=
  filter (λ t, iexact (tag_name t) name = true) (tags db).

Definition Tag_create (db : DB) (name : string) : DB * Tag :=
  let t := mkTag (fresh_pk (tag_id <$> tags db)) name in
  (set_tags db (tags db ++ [t]), t).

(** [event.tags.all()]: the through rows of the event, joined with [Tag]. *)
Definition find_tag (db : DB) (id : Z) : option Tag :=
  head (filter (λ t, tag_id t = id) (tags db)).

Definition event_tags_all (db : DB) (event : Event) : list Tag :=
  omap (λ row : Z * Z,
          if bool_decide (row.1 = event_id event) then find_tag db row.2
          else None)
       (event_tags db).

Definition event_tags_add (event : Event) (db : DB) (t : Tag) : DB :=
  let row := (event_id event, tag_id t) in
  if bool_decide (row ∈ event_tags db) then db
  else set_event_tags db (event_tags db ++ [row]).

Definition event_tags_remove (event : Event) (db : DB) (t : Tag) : DB :=
  set_event_tags db
    (filter (λ row, row ≠ (event_id event, tag_id t)) (event_tags db)).

(** Lines 190-197: the tag object a submitted name is attached as.
    [Tag.objects.get(name__iexact=tag)], creating the tag when none matches
    and taking the first row of the filter when several do. *)
Definition tag_for_name (db : DB) (tag : string) : result (DB * Tag) :=
  match objects_get (Tag_filter_name_iexact db tag) with
  | Ok tag_obj => Ok (db, tag_obj)
  | Raise DoesNotExist => Ok (Tag_create db tag)
  | Raise MultipleObjectsReturned =>
      match take 1 (Tag_filter_name_iexact db tag) with
      | [tag_obj] => Ok (db, tag_obj)
      | _ => Raise ValueError
      end
  | Raise e => Raise e
  end.

Definition add_tag_by_name (event : Event) (db : DB) (tag : string)
  : result DB :=
  '(db1, tag_obj) ← tag_for_name db tag;
  mret (event_tags_add event db1 tag_obj).

(** ** Channels *)

Definition Channel_filter_pk (db : DB) (pk : Z) : list Channel :=
  filter (λ c, channel_pk c = pk) (channels db).

Definition find_channel (db : DB) (pk : Z) : option Channel :=
  head (filter (λ c, channel_pk c = pk) (channels db)).

Definition event_channels_all (db : DB) (event : Event) : list Channel :=
  omap (λ row : Z * Z,
          if bool_decide (row.1 = event_id event) then find_channel db row.2
          else None)
       (event_channels db).

Definition event_channels_add (event : Event) (db : DB) (c : Channel) : DB :=
  let row := (event_id event, channel_pk c) in
  if bool_decide (row ∈ event_channels db) then db
  else set_event_channels db (event_channels db ++ [row]).

Definition event_channels_remove (event : Event) (db : DB) (c : Channel)
  : DB :=
  set_event_channels db
    (filter (λ row, row ≠ (event_id event, channel_pk c)) (event_channels db)).

(** ** Python values *)

(** What [json.loads] yields for the posted baseline.  Arrays are arrays of
    integers, as [event_to_dict] writes them. *)
Inductive json :=
| JNull
| JInt (n : Z)
| JStr (s : string)
| JList (l : list Z).

(** Values of [form.cleaned_data], of event attributes and of the change
    set: the JSON shapes, and the objects the form layer hands over. *)
Inductive pyval :=
| VNone
| VInt (n : Z)
| VStr (s : string)
| VList (l : list Z)
| VPicture (p : Picture)
| VFile (f : ImageFile)
| VTags (ts : list Tag)
| VChannels (cs : list Channel).

#[global] Instance json_eq_dec : EqDecision json.
Proof. solve_decision. Defined.
#[global] Instance pyval_eq_dec : EqDecision pyval.
Proof. solve_decision. Defined.

Definition of_json (j : json) : pyval :=
  match j with
  | JNull => VNone
  | JInt n => VInt n
  | JStr s => VStr s
  | JList l => VList l
  end.

(** Python's [==].  Model instances compare by primary key and are equal to
    nothing that is not a model instance. *)
Definition py_eqb (a b : pyval) : bool :=
  match a, b with
  | VNone, VNone => true
  | VInt n, VInt m => bool_decide (n = m)
  | VStr s, VStr t => String.eqb s t
  | VList l, VList k => bool_decide (l = k)
  | VPicture p, VPicture q => bool_decide (picture_id p = picture_id q)
  | VFile f, VFile g => bool_decide (f = g)
  | VTags l, VTags k => bool_decide (tag_id <$> l = tag_id <$> k)
  | VChannels l, VChannels k =>
      bool_decide (channel_pk <$> l = channel_pk <$> k)
  | _, _ => false
  end.

(** Python's truth value. *)
Definition truthy (v : pyval) : bool :=
  match v with
  | VNone => false
  | VInt n => negb (bool_decide (n = 0))
  | VStr s => negb (String.eqb s "")
  | VList l => negb (bool_decide (l = []))
  | VPicture _ => true
  | VFile _ => true
  | VTags l => negb (bool_decide (l = []))
  | VChannels l => negb (bool_decide (l = []))
  end.

(** ** Python sets, as duplicate-free lists

    [same] is the equality the set hashes by: string equality for tag
    names, the primary key for channel objects.  Iteration follows the
    order of first occurrence. *)
Section PySet.
Context {A : Type} (same : A → A → bool).

Definition py_in (x : A) (s : list A) : bool := existsb (same x) s.

Fixpoint py_set (l : list A) : list A :=
  match l with
  | [] => []
  | x :: r => x :: filter (λ y, same x y = false) (py_set r)
  end.

Definition py_diff (s t : list A) : list A :=
  filter (λ x, py_in x t = false) s.

Definition py_set_eqb (s t : list A) : bool :=
  forallb (λ x, py_in x t) s && forallb (λ x, py_in x s) t.
End PySet.

Definition same_channel (c d : Channel) : bool :=
  bool_decide (channel_pk c = channel_pk d).

(** [sorted(...)] on strings and [', '.join(...)]. *)
Fixpoint insert_sorted (x : string) (l : list string) : list string :=
  match l with
  | [] => [x]
  | y :: r => if String.leb x y then x :: l else y :: insert_sorted x r
  end.

Definition sorted (l : list string) : list string := foldr insert_sorted [] l.

Definition join_names (l : list string) : pyval :=
  VStr (String.concat ", " (sorted l)).

(** Monadic loops: [for x in l: a = f(a, x)] and a list comprehension whose
    body may raise. *)
Fixpoint foldM {A B : Type} (f : A → B → result A) (a : A) (l : list B)
  : result A :=
  match l with
  | [] => Ok a
  | x :: r => a1 ← f a x; foldM f a1 r
  end.

Fixpoint mapR {A B : Type} (f : A → result B) (l : list A) : result (list B) :=
  match l with
  | [] => Ok []
  | x :: r => y ← f x; ys ← mapR f r; mret (y :: ys)
  end.

(** ** The event object *)

(** [getattr(event, key)] for the attributes the generic branch reaches. *)
Definition getattr (event : Event) (key : string) : result pyval :=
  if String.eqb key "title" then Ok (VStr (title event))
  else if String.eqb key "description" then Ok (VStr (description event))
  else if String.eqb key "short_description" then
    Ok (VStr (short_description event))
  else if String.eqb key "call_info" then Ok (VStr (call_info event))
  else if String.eqb key "additional_links" then
    Ok (VStr (additional_links event))
  else if String.eqb key "picture" then
    Ok (match picture event with Some p => VPicture p | None => VNone end)
  else Raise (AttributeError key).

(** [setattr(event, key, value)]: text attributes take strings, [picture]
    takes a picture object or [None]. *)
Definition setattr (event : Event) (key : string) (value : pyval)
  : result Event :=
  let '(mkEvent i t d s c a p ph) := event in
  if String.eqb key "picture" then
    match value with
    | VNone => Ok (mkEvent i t d s c a None ph)
    | VPicture q => Ok (mkEvent i t d s c a (Some q) ph)
    | _ => Raise ValueError
    end
  else
    match value with
    | VStr v =>
        if String.eqb key "title" then Ok (mkEvent i v d s c a p ph)
        else if String.eqb key "description" then Ok (mkEvent i t v s c a p ph)
        else if String.eqb key "short_description" then
          Ok (mkEvent i t d v c a p ph)
        else if String.eqb key "call_info" then Ok (mkEvent i t d s v a p ph)
        else if String.eqb key "additional_links" then
          Ok (mkEvent i t d s c v p ph)
        else Raise (AttributeError key)
    | _ => Raise TypeError
    end.

Definition set_placeholder_img (event : Event) (f : ImageFile) : Event :=
  let '(mkEvent i t d s c a p _) := event in mkEvent i t d s c a p (Some f).

(** [event.save()]: the row with the event's id is overwritten; an event
    without a row is inserted. *)
Definition event_save (db : DB) (event : Event) : DB :=
  if bool_decide (event_id event ∈ event_id <$> events db) then
    set_events db
      ((λ e, if bool_decide (event_id e = event_id event) then event else e)
         <$> events db)
  else set_events db (events db ++ [event]).

Definition find_event (db : DB) (id : Z) : option Event :=
  head (filter (λ e, event_id e = id) (events db)).

(** ** Revisions *)

Definition revisions_of (db : DB) (event : Event) : list EventRevision :=
  filter (λ r, revision_event r = event_id event) (revisions db).

(** Modelled from the spec: [EventRevision.objects.create_from_event] lives
    in the models module.  Per the spec it snapshots the entity now and
    persists the snapshot, without an author for the implicit baseline and
    with the acting user for a real edit. *)
Definition create_from_event (db : DB) (now : Z) (event : Event)
    (user : option User) : DB * EventRevision :=
  let r :=
    mkEventRevision (fresh_pk (revision_pk <$> revisions db)) (event_id event)
      now (user_id <$> user) event
      (tag_id <$> event_tags_all db event)
      (channel_pk <$> event_channels_all db event) in
  (set_revisions db (revisions db ++ [r]), r).

(** [revision.delete()] *)
Definition revision_delete (db : DB) (r : EventRevision) : DB :=
  set_revisions db
    (filter (λ x, revision_pk x ≠ revision_pk r) (revisions db)).

(** ** EventEditView *)

(** [event_to_dict], lines 37-64.  [thumbnail] stands for the URL of the
    121x68 thumbnail the templatetag helper makes of a file. *)
Definition event_to_dict (thumbnail : string → string) (db : DB)
    (event : Event) : gmap string json :=
  let picture_id :=
    match picture event with Some p => JInt (picture_id p) | None => JNull end
  in
  let data : gmap string json :=
    <["picture" := picture_id]>
    (<["additional_links" := JStr (additional_links event)]>
    (<["call_info" := JStr (call_info event)]>
    (<["tags" := JList (tag_id <$> event_tags_all db event)]>
    (<["channels" := JList (channel_pk <$> event_channels_all db event)]>
    (<["short_description" := JStr (short_description event)]>
    (<["description" := JStr (description event)]>
    (<["title" := JStr (title event)]>
    (<["event_id" := JInt (event_id event)]> ∅)))))))) in
  match placeholder_img event with
  | Some img =>
      let file :=
        match picture event with
        | Some p => picture_file_url p
        | None => file_url img
        end in
      <["thumbnail_url" := JStr (thumbnail file)]>
      (<["placeholder_img" := JStr (file_url img)]> data)
  | None => data
  end.

(** The variables of the loop of [post]: the event object in memory, the
    database, [changes], [conflict_errors] and [current_value], which is
    unbound until a key other than [event_id] has been seen. *)
Record EditState := mkEditState {
  st_event : Event;
  st_db : DB;
  st_changes : gmap string (pyval * pyval);
  st_conflict_errors : list string;
  st_current_value : option pyval;
}.

Section Post.
(** [previous] is the parsed baseline, [has_file] is
    ['placeholder_img' in request.FILES]. *)
Variable previous : gmap string json.
Variable has_file : bool.

(** [previous[key]] *)
Definition previous_item (key : string) : result json :=
  match previous !! key with
  | Some j => Ok j
  | None => Raise (KeyError key)
  end.

Definition previous_ids (key : string) : result (list Z) :=
  j ← previous_item key;
  match j with
  | JList ids => Ok ids
  | _ => Raise TypeError
  end.

(** Lines 138-160: the active current value in the database. *)
Definition resolve_current_value (db : DB) (event : Event) (key : string)
    (current_value : option pyval) : result (option pyval) :=
  if String.eqb key "placeholder_img" then
    match picture event, has_file with
    | Some p, false => Ok (Some (VStr (picture_file_url p)))
    | _, _ =>
        match placeholder_img event with
        | Some img => Ok (Some (VStr (file_url img)))
        | None => Ok (Some VNone)
        end
    end
  else if String.eqb key "tags" then
    Ok (Some (VList (tag_id <$> event_tags_all db event)))
  else if String.eqb key "channels" then
    Ok (Some (VList (channel_pk <$> event_channels_all db event)))
  else if String.eqb key "picture" then
    Ok (Some (match picture event with
              | Some p => VInt (picture_id p)
              | None => VNone
              end))
  else if String.eqb key "event_id" then Ok current_value
  else v ← getattr event key; mret (Some v).

(** Lines 162-180 *)
Definition diff_channels (value : pyval) (st : EditState)
  : result EditState :=
  let event := st_event st in
  let db := st_db st in
  ids ← previous_ids "channels";
  prev_objs ← mapR (λ x, objects_get (Channel_filter_pk db x)) ids;
  cs ← match value with VChannels cs => Ok cs | _ => Raise TypeError end;
  let prev := py_set same_channel prev_objs in
  let value := py_set same_channel cs in
  let db1 :=
    foldl (event_channels_remove event) db (py_diff same_channel prev value)
  in
  let db2 :=
    foldl (event_channels_add event) db1 (py_diff same_channel value prev)
  in
  let changes :=
    if negb (py_set_eqb same_channel prev value) then
      <["channels" := (join_names (channel_name <$> prev),
                       join_names (channel_name <$> value))]>
        (st_changes st)
    else st_changes st in
  mret (mkEditState event db2 changes (st_conflict_errors st)
          (st_current_value st)).

(** Lines 187-189 *)
Definition remove_tag_by_name (event : Event) (db : DB) (tag : string)
  : result DB :=
  tag_obj ← objects_get (Tag_filter_name db tag);
  mret (event_tags_remove event db tag_obj).

(** Lines 181-202 *)
Definition diff_tags (value : pyval) (st : EditState) : result EditState :=
  let event := st_event st in
  let db := st_db st in
  names ← match value with
          | VTags ts => Ok (tag_name <$> ts)
          | _ => Raise TypeError
          end;
  ids ← previous_ids "tags";
  let value := py_set String.eqb names in
  let prev := py_set String.eqb (tag_name <$> Tag_filter_id_in db ids) in
  db1 ← foldM (remove_tag_by_name event) db (py_diff String.eqb prev value);
  db2 ← foldM (add_tag_by_name event) db1 (py_diff String.eqb value prev);
  let changes :=
    if negb (py_set_eqb String.eqb prev value) then
      <["tags" := (join_names prev, join_names value)]> (st_changes st)
    else st_changes st in
  mret (mkEditState event db2 changes (st_conflict_errors st)
          (st_current_value st)).

(** Lines 203-213.  A truthy value of this field is an uploaded file. *)
Definition diff_placeholder_img (value : pyval) (st : EditState)
  : result EditState :=
  let event := st_event st in
  if truthy value then
    match value with
    | VFile f =>
        let from :=
          match placeholder_img event with
          | Some img => file_url img
          | None => ""
          end in
        mret (mkEditState (set_placeholder_img event f) (st_db st)
                (<["placeholder_img" :=
                     (VStr from, VStr "__saved__event_placeholder_img")]>
                   (st_changes st))
                (st_conflict_errors st) (st_current_value st))
    | _ => Raise TypeError
    end
  else mret st.

(** Lines 216-222 *)
Definition diff_attribute (key : string) (value : pyval) (st : EditState)
  : result EditState :=
  j ← previous_item key;
  if negb (py_eqb value (of_json j)) then
    event ← setattr (st_event st) key value;
    mret (mkEditState event (st_db st)
            (<[key := (of_json j, value)]> (st_changes st))
            (st_conflict_errors st) (st_current_value st))
  else mret st.

(** Lines 162-222: the diff of one field, with its side effects. *)
Definition compute_diff (key : string) (value : pyval) (st : EditState)
  : result EditState :=
  if String.eqb key "channels" then diff_channels value st
  else if String.eqb key "tags" then diff_tags value st
  else if String.eqb key "placeholder_img" then diff_placeholder_img value st
  else if String.eqb key "event_id" then mret st
  else diff_attribute key value st.

(** Lines 223-229: [previous.get(key)] against [current_value], only for
    a key that is in [changes]. *)
Definition detect_conflict (key : string) (st : EditState)
  : result EditState :=
  if bool_decide (key ∈ dom (st_changes st)) then
    let previous_value := from_option of_json VNone (previous !! key) in
    match st_current_value st with
    | None => Raise NameError
    | Some current_value =>
        if negb (py_eqb previous_value current_value) then
          mret (mkEditState (st_event st) (st_db st) (st_changes st)
                  (st_conflict_errors st ++ [key]) (st_current_value st))
        else mret st
    end
  else mret st.

(** One iteration of [for key, value in cleaned_data.items()]. *)
Definition process_field (st : EditState) (item : string * pyval)
  : result EditState :=
  let '(key, value) := item in
  current_value ←
    resolve_current_value (st_db st) (st_event st) key (st_current_value st);
  st1 ← compute_diff key value
          (mkEditState (st_event st) (st_db st) (st_changes st)
             (st_conflict_errors st) current_value);
  detect_conflict key st1.

Definition edit_fields (event : Event) (db : DB)
    (cleaned_data : list (string * pyval)) : result EditState :=
  foldM process_field (mkEditState event db ∅ [] None) cleaned_data.
End Post.

(** [cleaned_data[key] = v] on a dict kept as an association list. *)
Fixpoint dict_set (key : string) (v : pyval) (d : list (string * pyval))
  : list (string * pyval) :=
  match d with
  | [] => [(key, v)]
  | (k, x) :: r =>
      if String.eqb k key then (k, v) :: r else (k, x) :: dict_set key v r
  end.

(** What a valid submission comes to. *)
Inductive outcome :=
| CONFLICT (conflict_errors : list string)
| CHANGED (changes : gmap string (pyval * pyval))
| NOOP.

Inductive response :=
| RedirectToEvent
| CantViewEvent
| RenderEditForm (conflict_errors : option (list string)).

Record EditRequest := mkEditRequest {
  req_user : User;
  (** [self.can_view_event(event, request)], inherited from [EventView] *)
  req_can_view : bool;
  (** [request.POST.get('cancel')] *)
  req_cancel : bool;
  (** [json.loads(request.POST['previous'])] *)
  req_previous : gmap string json;
  (** [form.cleaned_data], or [None] when the form is not valid *)
  req_cleaned_data : option (list (string * pyval));
  (** ['placeholder_img' in request.FILES] *)
  req_has_file : bool;
  (** the clock reading revisions are stamped with *)
  req_now : Z;
}.

(** Lines 127-248, the branch of a valid form. *)
Definition submit_edit (request : EditRequest) (event : Event)
    (cleaned_data : list (string * pyval)) (db : DB)
  : result (outcome * DB) :=
  let '(db0, base_revision) :=
    if bool_decide (length (revisions_of db event) = 0%nat) then
      let '(db0, r) := create_from_event db (req_now request) event None in
      (db0, Some r)
    else (db, None) in
  let cleaned_data :=
    if req_has_file request then dict_set "picture" VNone cleaned_data
    else cleaned_data in
  st ← edit_fields (req_previous request) (req_has_file request) event db0
         cleaned_data;
  if negb (bool_decide (st_conflict_errors st = [])) then
    mret (CONFLICT (st_conflict_errors st), st_db st)
  else if negb (bool_decide (st_changes st = ∅)) then
    let db1 := event_save (st_db st) (st_event st) in
    let '(db2, _) :=
      create_from_event db1 (req_now request) (st_event st)
        (Some (req_user request)) in
    mret (CHANGED (st_changes st), db2)
  else
    match base_revision with
    | Some r => mret (NOOP, revision_delete (st_db st) r)
    | None => mret (NOOP, st_db st)
    end.

Definition can_edit_event (request : EditRequest) : bool :=
  user_is_active (req_user request).

Definition response_of (o : outcome) : response :=
  match o with
  | CONFLICT conflict_errors => RenderEditForm (Some conflict_errors)
  | CHANGED _ => RedirectToEvent
  | NOOP => RedirectToEvent
  end.

(** The body of [EventEditView.post], for the event [get_event] returned. *)
Definition post_body (request : EditRequest) (event : Event) (db : DB)
  : result (response * DB) :=
  if req_cancel request then mret (RedirectToEvent, db)
  else if negb (req_can_view request) then mret (CantViewEvent, db)
  else if negb (can_edit_event request) then mret (RedirectToEvent, db)
  else
    match req_cleaned_data request with
    | Some cleaned_data =>
        '(o, db1) ← submit_edit request event cleaned_data db;
        mret (response_of o, db1)
    | None => mret (RenderEditForm None, db)
    end.

(** [@transaction.atomic]: the writes of the body are committed when it
    returns and rolled back when it raises. *)
Definition atomic {A : Type} (body : DB → result (A * DB)) (db : DB)
  : result A * DB :=
  match body db with
  | Ok (a, db1) => (Ok a, db1)
  | Raise e => (Raise e, db)
  end.

Definition post (request : EditRequest) (event : Event) (db : DB)
  : result response * DB :=
  atomic (post_body request event) db.

(** ** EventRevisionView *)

(** [get_object_or_404]: a lookup without a match is a 404. *)
Definition get_object_or_404 {A : Type} (matching : list A) : result A :=
  match objects_get matching with
  | Raise DoesNotExist => Raise Http404
  | r => r
  end.

(** Creation order: by [created], and by primary key among equal stamps. *)
Definition revision_before (q r : EventRevision) : bool :=
  bool_decide (revision_created q < revision_created r)
  || (bool_decide (revision_created q = revision_created r)
      && bool_decide (revision_pk q < revision_pk r)).

(** First row of a query ordered by [-created, -pk]. *)
Definition latest_revision (l : list EventRevision) : option EventRevision :=
  foldr (λ q best,
           match best with
           | None => Some q
           | Some p => if revision_before p q then Some q else Some p
           end) None l.

(** Modelled from the spec: [revision.get_previous_by_created(event=event)]
    is the accessor Django generates for the [created] field of the
    [EventRevision] model, which is declared outside edit.py.  Per the spec
    it is the revision immediately before the given one in creation order,
    for the same entity, and a lookup failure when the given revision is
    the earliest: among the rows of the event that come before [revision],
    the latest one; [DoesNotExist] when there is none. *)
Definition get_previous_by_created (db : DB) (revision : EventRevision)
    (event : Event) : result EventRevision :=
  match
    latest_revision
      (filter (λ q, revision_event q = event_id event
                    ∧ revision_before q revision = true) (revisions db))
  with
  | Some p => Ok p
  | None => Raise DoesNotExist
  end.

(** Lines 272-282 of [EventRevisionView.get]: the object a revision is
    compared with, the event itself when [difference] is set. *)
Definition revision_view_previous (difference : bool) (db : DB)
    (event : Event) (id : Z) : result (Event + EventRevision) :=
  revision ←
    get_object_or_404
      (filter (λ r, revision_event r = event_id event ∧ revision_pk r = id)
         (revisions db));
  if difference then mret (inl event)
  else previous ← get_previous_by_created db revision event;
       mret (inr previous).

(** ** EventEditChaptersView

    A chapter row carries what the view writes: event, timestamp, text,
    user and [is_active].  The [modified] stamp the listing formats is left
    out. *)

Record ChapterRequest := mkChapterRequest {
  creq_user : User;
  creq_can_view : bool;
  (** [event.is_scheduled()] *)
  creq_is_scheduled : bool;
  (** [request.GET.get('all')] *)
  creq_all : bool;
  (** [request.POST.get('delete')] *)
  creq_delete : bool;
  (** [request.POST['timestamp']], when posted *)
  creq_timestamp : option Z;
  (** [(timestamp, text)] of [form.cleaned_data], when the form is valid *)
  creq_cleaned_data : option (Z * string);
}.

Definition can_edit_chapters (request : ChapterRequest) : bool :=
  user_is_active (creq_user request) && creq_is_scheduled request.

Record ChapterEntry := mkChapterEntry {
  entry_timestamp : Z;
  entry_text : string;
  entry_user : Z;
}.

Inductive chapter_response :=
| ChapterCantView
| ChapterCantEdit
| ChapterPage
| JsonChapters (chapters : list ChapterEntry)
| JsonOk
| JsonErrors.

Definition Chapter_filter (db : DB) (event : Event) (timestamp : Z)
  : list Chapter :=
  filter (λ c, chapter_event c = event_id event
               ∧ chapter_timestamp c = timestamp) (chapters db).

(** [chapter.save()] of a chapter that has a row. *)
Definition chapter_save (db : DB) (chapter : Chapter) : DB :=
  set_chapters db
    ((λ c, if bool_decide (chapter_id c = chapter_id chapter) then chapter
           else c) <$> chapters db).

(** Lines 339-365: the listing of [get]. *)
Definition chapters_get (request : ChapterRequest) (event : Event) (db : DB)
  : chapter_response :=
  if negb (creq_can_view request) then ChapterCantView
  else if negb (can_edit_chapters request) then ChapterCantEdit
  else if creq_all request then
    JsonChapters
      ((λ c, mkChapterEntry (chapter_timestamp c) (chapter_text c)
               (chapter_user c))
         <$> filter (λ c, chapter_event c = event_id event
                          ∧ chapter_is_active c = true) (chapters db))
  else ChapterPage.

Definition set_chapter_is_active (c : Chapter) (b : bool) : Chapter :=
  mkChapter (chapter_id c) (chapter_event c) (chapter_timestamp c)
    (chapter_text c) (chapter_user c) b.

Definition set_chapter_text_user (c : Chapter) (text : string) (user : User)
  : Chapter :=
  mkChapter (chapter_id c) (chapter_event c) (chapter_timestamp c) text
    (user_id user) (chapter_is_active c).

Section ChaptersPost.
(** The default of [Chapter.is_active], which the model declares outside
    edit.py. *)
Variable is_active_default : bool.

(** [Chapter.objects.create(...)]; [is_active] takes its default. *)
Definition Chapter_create (db : DB) (event : Event) (timestamp : Z)
    (text : string) (user : User) : DB * Chapter :=
  let c :=
    mkChapter (fresh_pk (chapter_id <$> chapters db)) (event_id event)
      timestamp text (user_id user) is_active_default in
  (set_chapters db (chapters db ++ [c]), c).

(** Lines 377-413.  The second component of the answer lists the chapter
    ids handed to [tasks.create_chapterimages.delay]. *)
Definition chapters_post_body (request : ChapterRequest) (event : Event)
    (db : DB) : result (chapter_response * list Z * DB) :=
  if negb (creq_can_view request) then mret (ChapterCantView, [], db)
  else if negb (can_edit_chapters request) then mret (ChapterCantEdit, [], db)
  else if creq_delete request then
    timestamp ← match creq_timestamp request with
                | Some t => Ok t
                | None => Raise (KeyError "timestamp")
                end;
    chapter ← get_object_or_404 (Chapter_filter db event timestamp);
    mret (JsonOk, [], chapter_save db (set_chapter_is_active chapter false))
  else
    match creq_cleaned_data request with
    | Some (timestamp, text) =>
        match objects_get (Chapter_filter db event timestamp) with
        | Ok chapter =>
            mret (JsonOk, [chapter_id chapter],
                  chapter_save db
                    (set_chapter_text_user chapter text (creq_user request)))
        | Raise DoesNotExist =>
            let '(db1, chapter) :=
              Chapter_create db event timestamp text (creq_user request) in
            mret (JsonOk, [chapter_id chapter], db1)
        | Raise e => Raise e
        end
    | None => mret (JsonErrors, [], db)
    end.

Definition chapters_post (request : ChapterRequest) (event : Event) (db : DB)
  : result (chapter_response * list Z) * DB :=
  atomic (chapters_post_body request event) db.
End ChaptersPost.

(** ** Vocabulary of the properties *)

(** The tables and attributes a step leaves alone, by the key it handles. *)
Record frame (key : string) (st st1 : EditState) : Prop := mkFrame {
  frame_conflict_errors : st_conflict_errors st1 = st_conflict_errors st;
  frame_current_value : st_current_value st1 = st_current_value st;
  frame_changes :
    st_changes st1 = st_changes st
    ∨ ∃ c, st_changes st1 = <[key := c]> (st_changes st);
  frame_event_id : event_id (st_event st1) = event_id (st_event st);
  frame_getattr :
    ∀ k, k ≠ key → getattr (st_event st1) k = getattr (st_event st) k;
  frame_picture :
    key ≠ "picture" → picture (st_event st1) = picture (st_event st);
  frame_placeholder_img :
    key ≠ "placeholder_img" →
    placeholder_img (st_event st1) = placeholder_img (st_event st);
  frame_tags :
    key ≠ "tags" →
    tags (st_db st1) = tags (st_db st)
    ∧ event_tags (st_db st1) = event_tags (st_db st);
  frame_event_channels :
    key ≠ "channels" →
    event_channels (st_db st1) = event_channels (st_db st);
  frame_channels : channels (st_db st1) = channels (st_db st);
  frame_events : events (st_db st1) = events (st_db st);
  frame_revisions : revisions (st_db st1) = revisions (st_db st);
  frame_chapters : chapters (st_db st1) = chapters (st_db st);
}.

(** Writes to one through table leave every other table as it was. *)
Definition only_event_channels (db db1 : DB) : Prop :=
  events db1 = events db ∧ tags db1 = tags db ∧ channels db1 = channels db
  ∧ event_tags db1 = event_tags db ∧ revisions db1 = revisions db
  ∧ chapters db1 = chapters db.

Definition only_tags (db db1 : DB) : Prop :=
  events db1 = events db ∧ channels db1 = channels db
  ∧ event_channels db1 = event_channels db ∧ revisions db1 = revisions db
  ∧ chapters db1 = chapters db.

(** Whether the baseline of [key] differs from a current value. *)
Definition baseline_differs (previous : gmap string json) (key : string)
    (current_value : pyval) : bool :=
  negb (py_eqb (from_option of_json VNone (previous !! key)) current_value).

(** The event with another title. *)
Definition set_title (event : Event) (v : string) : Event :=
  mkEvent (event_id event) v (description event) (short_description event)
    (call_info event) (additional_links event) (picture event)
    (placeholder_img event).



(** ** Names that are equal but for the case of their letters

    Case-insensitive equality as the spec means it, said without case
    folding: two names have the same length and hold, position by
    position, the same character or the capital and the small form of one
    of the 26 ASCII letters. *)
Definition capital_letters : string := "ABCDEFGHIJKLMNOPQRSTUVWXYZ".
Definition small_letters : string := "abcdefghijklmnopqrstuvwxyz".

Definition letter_pairs : list (ascii * ascii) :=
  zip (String.list_ascii_of_string capital_letters)
      (String.list_ascii_of_string small_letters).

Definition same_letter (c d : ascii) : bool :=
  bool_decide (c = d)
  || bool_decide ((c, d) ∈ letter_pairs)
  || bool_decide ((d, c) ∈ letter_pairs).

Fixpoint equal_ignoring_case (a b : string) : bool :=
  match a, b with
  | EmptyString, EmptyString => true
  | String c a, String d b => same_letter c d && equal_ignoring_case a b
  | _, _ => false
  end.

(** Every character, for properties that are checked character by
    character. *)
Definition all_ascii : list ascii := ascii_of_nat <$> seq 0 256.

(** ** Sample data

    A small database the properties below are run on: one event with two
    tags and a channel, no revisions yet, and one chapter. *)

Definition alice : User := mkUser 7 true.

Definition tag_foo : Tag := mkTag 1 "foo".
Definition tag_bar : Tag := mkTag 2 "bar".
Definition channel_main : Channel := mkChannel 1 "Main".

Definition talk : Event := mkEvent 1 "Old" "A talk" "talk" "" "" None None.

Definition intro_chapter : Chapter := mkChapter 1 1 30 "Intro" 7 true.

Definition sample_db : DB :=
  mkDB [talk] [tag_foo; tag_bar] [channel_main] [(1, 1); (1, 2)] [(1, 1)] []
       [intro_chapter].

(** The title is edited against a stale baseline while a tag is swapped. *)
Definition stale_previous : gmap string json :=
  <["tags" := JList [1; 2]]>
  (<["description" := JStr "An older talk"]> {[ "title" := JStr "Stale" ]}).

Definition stale_cleaned_data : list (string * pyval) :=
  [("title", VStr "New");
   ("description", VStr "An older talk");
   ("tags", VTags [tag_foo; mkTag 0 "baz"])].

Definition stale_request : EditRequest :=
  mkEditRequest alice true false stale_previous (Some stale_cleaned_data)
    false 100.

(** The same tags as the baseline lists, iterated in another order. *)
Definition reordered_db : DB :=
  mkDB [talk] [tag_foo; tag_bar] [channel_main] [(1, 2); (1, 1)] [(1, 1)] []
       [].

Definition add_tag_previous : gmap string json := {[ "tags" := JList [1; 2] ]}.

Definition add_tag_cleaned_data : list (string * pyval) :=
  [("tags", VTags [tag_foo; tag_bar; mkTag 0 "baz"])].

Definition add_tag_request : EditRequest :=
  mkEditRequest alice true false add_tag_previous (Some add_tag_cleaned_data)
    false 100.

(** The snapshot is posted back as it was shown. *)
Definition same_cleaned_data : list (string * pyval) :=
  [("event_id", VStr "1");
   ("title", VStr "Old");
   ("description", VStr "A talk");
   ("short_description", VStr "talk");
   ("channels", VChannels [channel_main]);
   ("tags", VTags [tag_bar; tag_foo]);
   ("call_info", VStr "");
   ("additional_links", VStr "");
   ("placeholder_img", VNone);
   ("picture", VNone)].

Definition same_request : EditRequest :=
  mkEditRequest alice true false (event_to_dict id sample_db talk)
    (Some same_cleaned_data) false 100.

(** The title alone is edited. *)
Definition title_request : EditRequest :=
  mkEditRequest alice true false {[ "title" := JStr "Old" ]}
    (Some [("title", VStr "New")]) false 100.

(** A placeholder image is uploaded for an event that has a picture, by a
    client whose baseline was taken before the picture was chosen. *)
Definition chosen_picture : Picture := mkPicture 5 "/media/5.png".
Definition other_picture : Picture := mkPicture 9 "/media/9.png".
Definition upload : ImageFile := mkImageFile "/media/upload.png".

Definition pictured_talk : Event :=
  mkEvent 1 "Old" "A talk" "talk" "" "" (Some chosen_picture) None.

Definition pictured_db : DB :=
  mkDB [pictured_talk] [tag_foo; tag_bar] [channel_main] [(1, 1); (1, 2)]
       [(1, 1)] [] [].

Definition upload_cleaned_data : list (string * pyval) :=
  [("placeholder_img", VFile upload); ("picture", VPicture other_picture)].

Definition upload_request : EditRequest :=
  mkEditRequest alice true false {[ "picture" := JNull ]}
    (Some upload_cleaned_data) true 100.

(** The same upload by a client whose baseline names the chosen picture. *)
Definition current_upload_request : EditRequest :=
  mkEditRequest alice true false {[ "picture" := JInt 5 ]}
    (Some upload_cleaned_data) true 100.



(** Chapter posts. *)
Definition chapter_update_request : ChapterRequest :=
  mkChapterRequest alice true true false false None (Some (30, "Welcome")).

Definition chapter_delete_request : ChapterRequest :=
  mkChapterRequest alice true true true true (Some 30) None.

(** ** Vocabulary of the further properties *)

(** What an edit of the event [eid] may do to the relation and lookup
    tables: the channel table and the chapters stay, the tag table only
    grows at its end and keeps its ids distinct, and the through rows of
    other events stay as they are. *)
Record edit_scope (eid : Z) (db db1 : DB) : Prop := mkEditScope {
  scope_channels : channels db1 = channels db;
  scope_chapters : chapters db1 = chapters db;
  scope_tags : ∃ new, tags db1 = tags db ++ new;
  scope_tag_ids :
    NoDup (tag_id <$> tags db) → NoDup (tag_id <$> tags db1);
  scope_event_tags :
    filter (λ row : Z * Z, row.1 ≠ eid) (event_tags db1)
    = filter (λ row : Z * Z, row.1 ≠ eid) (event_tags db);
  scope_event_channels :
    filter (λ row : Z * Z, row.1 ≠ eid) (event_channels db1)
    = filter (λ row : Z * Z, row.1 ≠ eid) (event_channels db);
}.

(** ** More sample data *)

(** The event is moved from one channel to another. *)
Definition channel_mozilla : Channel := mkChannel 2 "Mozilla".

Definition two_channel_db : DB :=
  mkDB [talk] [tag_foo; tag_bar] [channel_main; channel_mozilla]
       [(1, 1); (1, 2)] [(1, 1)] [] [].

Definition move_channel_previous : gmap string json :=
  {[ "channels" := JList [1] ]}.

Definition move_channel_cleaned_data : list (string * pyval) :=
  [("channels", VChannels [channel_mozilla])].

(** A submission with an empty baseline. *)
Definition no_baseline_request : EditRequest :=
  mkEditRequest alice true false ∅ (Some [("title", VStr "New")]) false 100.

(** An edit of the title and the tags against the snapshot just taken. *)
Definition fresh_cleaned_data : list (string * pyval) :=
  [("title", VStr "New"); ("tags", VTags [tag_foo])].

Definition fresh_request : EditRequest :=
  mkEditRequest alice true false (event_to_dict id sample_db talk)
    (Some fresh_cleaned_data) false 100.

(** The chapter at 0:30 after it was deleted. *)
Definition deleted_chapter : Chapter := mkChapter 1 1 30 "Intro" 7 false.

Definition deleted_db : DB :=
  mkDB [talk] [tag_foo; tag_bar] [channel_main] [(1, 1); (1, 2)] [(1, 1)] []
       [deleted_chapter].

(** ** EventRevisionView.get *)

Record RevisionRequest := mkRevisionRequest {
  rreq_user : User;
  (** [super().can_view_event(event, request)], inherited from [EventView] *)
  rreq_can_view : bool;
}.

(** Lines 258-262 *)
Definition can_view_event (request : RevisionRequest) : bool :=
  user_is_active (rreq_user request) && rreq_can_view request.

(** Lines 284-294 *)
Definition fields : list (string * string) :=
  [("title", "Title");
   ("placeholder_img", "Placeholder image");
   ("picture", "Picture");
   ("description", "Description");
   ("short_description", "Short description");
   ("channels", "Channels");
   ("tags", "Tags");
   ("call_info", "Call info");
   ("additional_links", "Additional links")].

(** [getattr(obj, key)] on the object a revision is compared with, for the
    plain attributes of [fields].  A revision carries the attributes of its
    snapshot; a file field without a file is [VNone]. *)
Definition object_getattr (obj : Event + EventRevision) (key : string)
  : result pyval :=
  let event := match obj with inl e => e | inr r => revision_fields r end in
  if String.eqb key "placeholder_img" then
    Ok (match placeholder_img event with Some f => VFile f | None => VNone end)
  else getattr event key.

(** [x.name for x in getattr(obj, key).all()] for the two relations: the
    through rows of an event, the ids a revision holds. *)
Definition object_related_names (db : DB) (obj : Event + EventRevision)
    (key : string) : list string :=
  match obj with
  | inl event =>
      if String.eqb key "tags" then tag_name <$> event_tags_all db event
      else channel_name <$> event_channels_all db event
  | inr revision =>
      if String.eqb key "tags" then
        tag_name <$> omap (find_tag db) (revision_tags revision)
      else channel_name <$> omap (find_channel db) (revision_channels revision)
  end.

(** Lines 297-302 *)
Definition getter (db : DB) (key : string) (obj : Event + EventRevision)
  : result pyval :=
  if String.eqb key "tags" || String.eqb key "channels" then
    Ok (join_names (object_related_names db obj key))
  else object_getattr obj key.

(** Lines 304-307 *)
Record _Difference := mk_Difference {
  difference_key : string;
  difference_label : string;
  difference_before : pyval;
  difference_after : pyval;
}.

(** Lines 310-318: one iteration of [for key, label in fields]. *)
Definition compare_field (db : DB) (previous : Event + EventRevision)
    (revision : EventRevision) (differences : list _Difference)
    (field : string * string) : result (list _Difference) :=
  let '(key, label) := field in
  before ← getter db key previous;
  after ← getter db key (inr revision);
  if negb (py_eqb before after) then
    mret (differences ++ [mk_Difference key label before after])
  else mret differences.

(** Lines 295 and 309-318 *)
Definition differences_of (db : DB) (previous : Event + EventRevision)
    (revision : EventRevision) (fields : list (string * string))
  : result (list _Difference) :=
  foldM (compare_field db previous revision) [] fields.

Inductive revision_response :=
| RevisionCantView
| RevisionPage (difference : bool) (event : Event) (revision : EventRevision)
    (differences : list _Difference).

(** Lines 264-325, for the event [get_event] returned; [difference] is the
    class attribute the URL configuration sets. *)
Definition revision_get (difference : bool) (request : RevisionRequest)
    (event : Event) (id : Z) (db : DB) : result revision_response :=
  if negb (can_view_event request) then mret RevisionCantView
  else
    revision ←
      get_object_or_404
        (filter (λ r, revision_event r = event_id event ∧ revision_pk r = id)
           (revisions db));
    previous ←
      (if difference then mret (inl event)
       else p ← get_previous_by_created db revision event; mret (inr p));
    differences ← differences_of db previous revision fields;
    mret (RevisionPage difference event revision differences).

Definition viewer_request : RevisionRequest := mkRevisionRequest alice true.

(** ** EventChaptersThumbnailsView.get

    The view reads the [Picture] rows of the event and a cache next to the
    database.  A cache entry holds [True] (a lock) or a number (a
    similarity); entries are taken not to expire during the requests that
    are modelled. *)

(** A [Picture] row with the columns this view filters and orders by. *)
Record PictureRow := mkPictureRow {
  row_picture : Picture;
  row_event : Z;
  row_timestamp : Z;
  row_modified : Z;
}.

(** [picture.file] *)
Definition row_file (p : PictureRow) : ImageFile :=
  mkImageFile (picture_file_url (row_picture p)).

Inductive cache_value :=
| CTrue
| CNumber (n : Z).

(** The truth value of [cache.get(key)]; a missing key gives [None]. *)
Definition cache_truthy (v : option cache_value) : bool :=
  match v with
  | Some CTrue => true
  | Some (CNumber n) => negb (bool_decide (n = 0))
  | None => false
  end.

(** [similarity == -1] *)
Definition is_minus_one (v : cache_value) : bool :=
  match v with
  | CNumber n => bool_decide (n = -1)
  | CTrue => false
  end.

(** [cache.set(key, value, timeout)]; the key is [None] when
    [make_similarity_cache_key] returned nothing, which does not happen
    where the view calls it. *)
Definition cache_set (key : option string) (value : cache_value)
    (cache : gmap string cache_value) : gmap string cache_value :=
  match key with
  | Some k => <[k := value]> cache
  | None => cache
  end.

Record Thumb := mkThumb {
  thumb_url : string;
  thumb_width : Z;
  thumb_height : Z;
}.

Record PictureEntry := mkPictureEntry {
  pentry_at : Z;
  pentry_thumbnail : Thumb;
  pentry_similarity : option cache_value;
}.

(** The variables of the loop over the timestamps. *)
Record ThumbnailsState := mkThumbnailsState {
  ts_pictures : list PictureEntry;
  ts_missing : list Z;
  ts_fetch : list Z;
  ts_prev : option PictureRow;
  ts_cache : gmap string cache_value;
}.

Inductive thumbnails_response :=
| ThumbnailsCantView
| ThumbnailsCantEdit
| JsonPictures (pictures : list PictureEntry) (missing : nat).

(** First row of [qs.order_by('-modified')]. *)
Definition latest_picture (l : list PictureRow) : option PictureRow :=
  foldr (λ q best,
           match best with
           | None => Some q
           | Some p =>
               if bool_decide (row_modified q < row_modified p) then Some p
               else Some q
           end) None l.

(** [range(start, stop, step)] and [l[i:j]] on natural numbers. *)
Definition py_range (start stop step : nat) : list nat :=
  (λ k, start + k * step)%nat
    <$> seq 0 ((stop - start + step - 1) / step)%nat.

Definition py_slice {A : Type} (l : list A) (i j : nat) : list A :=
  take (j - i) (drop i l).

(** Line 488 *)
Definition fetches_of (fetch : list Z) : list (list Z) :=
  (λ i, py_slice fetch i (i + 10)) <$> py_range 0 (length fetch) 10.

Section Thumbnails.
(** [thumbnail(file, '160x90', crop='center')] *)
Variable thumbnail : ImageFile → Thumb.
(** [FuzzyImageCompare(Image.open(a), Image.open(b)).similarity()] *)
Variable similarity_of : ImageFile → ImageFile → Z.
(** [modified.strftime('%f')] *)
Variable strftime_f : Z → string.
(** How [str.format] writes an integer. *)
Variable format_int : Z → string.

(** Lines 430-434 *)
Definition make_similarity_cache_key (picture1 : PictureRow)
    (picture2 : option PictureRow) : option string :=
  match picture2 with
  | Some picture2 =>
      let modify_times :=
        strftime_f (row_modified picture1)
        +:+ strftime_f (row_modified picture2) in
      Some ("similarity:" +:+ modify_times)
  | None => None
  end.

(** Line 481 *)
Definition lock_key (event : Event) (at_ : Z) : string :=
  "lock-" +:+ format_int (event_id event) +:+ "-" +:+ format_int at_.

(** Lines 438-484: one iteration of [for at in ...]. *)
Definition thumbnails_step (base_qs : list PictureRow) (event : Event)
    (st : ThumbnailsState) (at_ : Z) : ThumbnailsState :=
  match latest_picture (filter (λ p, row_timestamp p = at_) base_qs) with
  | Some picture =>
      let thumb := thumbnail (row_file picture) in
      let similarity_cache_key :=
        make_similarity_cache_key picture (ts_prev st) in
      let similarity :=
        match similarity_cache_key with
        | Some key => default (CNumber (-1)) (ts_cache st !! key)
        | None => CNumber (-1)
        end in
      let '(similarity, cache) :=
        if is_minus_one similarity then
          match ts_prev st with
          | Some prev =>
              let similarity :=
                CNumber (similarity_of (row_file prev) (row_file picture)) in
              (Some similarity,
               cache_set similarity_cache_key similarity (ts_cache st))
          | None => (None, ts_cache st)
          end
        else (Some similarity, ts_cache st) in
      mkThumbnailsState
        (ts_pictures st
         ++ [mkPictureEntry (row_timestamp picture) thumb similarity])
        (ts_missing st) (ts_fetch st) (Some picture) cache
  | None =>
      let lock := lock_key event at_ in
      if negb (cache_truthy (ts_cache st !! lock)) then
        mkThumbnailsState (ts_pictures st) (ts_missing st ++ [at_])
          (ts_fetch st ++ [at_]) (ts_prev st) (<[lock := CTrue]> (ts_cache st))
      else
        mkThumbnailsState (ts_pictures st) (ts_missing st ++ [at_])
          (ts_fetch st) (ts_prev st) (ts_cache st)
  end.

(** Lines 418-495.  [timestamps] is [get_timenail_timestamps(event)] and
    [pictures] the [Picture] table; the answer comes with the groups handed
    to [tasks.create_timestamp_pictures.delay] and with the cache as the
    request leaves it. *)
Definition thumbnails_get (request : ChapterRequest) (event : Event)
    (timestamps : list Z) (pictures : list PictureRow)
    (cache : gmap string cache_value)
  : thumbnails_response * list (list Z) * gmap string cache_value :=
  if negb (creq_can_view request) then (ThumbnailsCantView, [], cache)
  else if negb (can_edit_chapters request) then (ThumbnailsCantEdit, [], cache)
  else
    let base_qs := filter (λ p, row_event p = event_id event) pictures in
    let st :=
      foldl (thumbnails_step base_qs event)
        (mkThumbnailsState [] [] [] None cache) timestamps in
    let fetches :=
      if bool_decide (ts_fetch st = []) then [] else fetches_of (ts_fetch st)
    in
    (JsonPictures (ts_pictures st) (length (ts_missing st)), fetches,
     ts_cache st).
End Thumbnails.

(** The event has a picture at the timestamp. *)
Definition has_picture (event : Event) (pictures : list PictureRow)
    (at_ : Z) : Prop :=
  Exists (λ p, row_event p = event_id event ∧ row_timestamp p = at_) pictures.

#[global] Instance has_picture_dec (event : Event)
    (pictures : list PictureRow) (at_ : Z) :
  Decision (has_picture event pictures at_).
Proof. unfold has_picture. apply _. Defined.

(** Two pictures of the talk, at 0:10 and 0:30, and the helpers of the
    view on them. *)
Definition talk_pictures : list PictureRow :=
  [mkPictureRow (mkPicture 11 "/media/11.png") 1 10 1000;
   mkPictureRow (mkPicture 12 "/media/12.png") 1 30 2000].

Definition sample_thumbnail (f : ImageFile) : Thumb :=
  mkThumb (file_url f) 160 90.

Definition sample_similarity (a b : ImageFile) : Z := 50.

Definition sample_strftime_f (modified : Z) : string :=
  if bool_decide (modified = 1000) then "001000" else "002000".

Definition sample_format_int (n : Z) : string :=
  if bool_decide (n = 1) then "1"
  else if bool_decide (n = 10) then "10"
  else if bool_decide (n = 20) then "20"
  else if bool_decide (n = 30) then "30"
  else "40".

(** The tags are replaced by a name that differs from a stored tag in case
    only and by a new name. *)
Definition case_tag_cleaned_data : list (string * pyval) :=
  [("tags", VTags [mkTag 0 "FOO"; mkTag 0 "baz"])].

(** * Properties *)

(** ** The error monad and primary keys *)

Lemma bind_Ok {A B : Type} (m : result A) (f : A → result B) (b : B) :
  (x ← m; f x) = Ok b → ∃ a, m = Ok a ∧ f a = Ok b.
Proof. destruct m as [a|e]; [eauto | discriminate]. Qed.

Ltac inv_bind H :=
  let a := fresh "a" in
  let Ha := fresh "Ha" in
  apply bind_Ok in H; destruct H as (a & Ha & H);
  cbv [mret result_ret] in H.

Ltac inv_ret H := cbv [mret result_ret] in H; simplify_eq/=.

Lemma foldr_max_ge (pks : list Z) (x : Z) : x ∈ pks → x ≤ foldr Z.max 0 pks.
Proof.
  induction pks as [|y pks IH]; intros Hx.
  - by apply elem_of_nil in Hx.
  - apply elem_of_cons in Hx as [->|Hx]; simpl; [lia|].
    specialize (IH Hx). lia.
Qed.

Lemma fresh_pk_not_in (pks : list Z) : fresh_pk pks ∉ pks.
Proof.
  intros Hin. apply foldr_max_ge in Hin. unfold fresh_pk in Hin. lia.
Qed.

(** ** Tag matching *)

Example iexact_ignores_case : iexact "MozFest" "mozfest" = true.
Proof. reflexivity. Qed.

Lemma Tag_filter_name_iexact_elem (db : DB) (tag : string) (t : Tag) :
  t ∈ Tag_filter_name_iexact db tag ↔
  iexact (tag_name t) tag = true ∧ t ∈ tags db.
Proof. unfold Tag_filter_name_iexact. by rewrite list_elem_of_filter. Qed.

Lemma all_ascii_complete (c : ascii) : c ∈ all_ascii.
Proof.
  unfold all_ascii. rewrite <-(ascii_nat_embedding c).
  apply list_elem_of_fmap_2, elem_of_seq.
  pose proof (nat_ascii_bounded c). lia.
Qed.

Lemma forallb_elem {A : Type} (f : A → bool) (l : list A) (x : A) :
  forallb f l = true → x ∈ l → f x = true.
Proof.
  induction l as [|y l IH]; intros Hall Hx; [by apply elem_of_nil in Hx|].
  cbn [forallb] in Hall. apply andb_true_iff in Hall as [Hy Hall].
  apply elem_of_cons in Hx as [->|Hx]; [done|by apply IH].
Qed.

Lemma lower_ascii_same_letter_all :
  forallb (λ c,
             forallb (λ d,
                        Bool.eqb (Ascii.eqb (lower_ascii c) (lower_ascii d))
                          (same_letter c d)) all_ascii) all_ascii
  = true.
Proof. vm_compute. reflexivity. Qed.

(** Folding the case of two characters makes them equal exactly when they
    are the same letter. *)
Lemma lower_ascii_same_letter (c d : ascii) :
  Ascii.eqb (lower_ascii c) (lower_ascii d) = same_letter c d.
Proof.
  pose proof (forallb_elem _ _ c lower_ascii_same_letter_all
                (all_ascii_complete c)) as Hc.
  pose proof (forallb_elem _ _ d Hc (all_ascii_complete d)) as Hd.
  by apply Bool.eqb_prop in Hd.
Qed.

(** [name__iexact] is equality without regard to the case of the letters. *)
Lemma iexact_equal_ignoring_case (a b : string) :
  iexact a b = equal_ignoring_case a b.
Proof.
  unfold iexact. revert b. induction a as [|c a IH]; intros [|d b]; try done.
  cbn [lower equal_ignoring_case String.eqb].
  rewrite <-IH, <-lower_ascii_same_letter.
  by destruct (Ascii.eqb _ _).
Qed.

Lemma Tag_filter_name_iexact_spec (db : DB) (tag : string) :
  Tag_filter_name_iexact db tag
  = filter (λ u, equal_ignoring_case (tag_name u) tag = true) (tags db).
Proof.
  unfold Tag_filter_name_iexact. apply list_filter_iff. intros u.
  by rewrite iexact_equal_ignoring_case.
Qed.

(** C6.  Attaching a submitted tag name never raises.  The name is matched
    against the stored tags without regard to the case of the letters: a
    stored tag matches when its name and the submitted name are equal
    character by character, a capital letter counting as its small form.
    When no stored tag matches, a tag with the submitted name and an unused
    id is appended to the tag table and attached; when one or more stored
    tags match, the table is left as it is and the first match in table
    order is attached. *)
Theorem tag_for_name_matches (db : DB) (event : Event) (tag : string) :
  ∃ db1 t,
    tag_for_name db tag = Ok (db1, t)
    ∧ add_tag_by_name event db tag = Ok (event_tags_add event db1 t)
    ∧ (filter (λ u, equal_ignoring_case (tag_name u) tag = true) (tags db)
       = [] →
       t = mkTag (fresh_pk (tag_id <$> tags db)) tag
       ∧ (tag_id t ∉ tag_id <$> tags db)
       ∧ db1 = set_tags db (tags db ++ [t]))
    ∧ (filter (λ u, equal_ignoring_case (tag_name u) tag = true) (tags db)
       ≠ [] →
       head (filter (λ u, equal_ignoring_case (tag_name u) tag = true)
               (tags db))
       = Some t
       ∧ t ∈ tags db
       ∧ equal_ignoring_case (tag_name t) tag = true
       ∧ db1 = db).
Proof.
  rewrite <-Tag_filter_name_iexact_spec.
  unfold add_tag_by_name, tag_for_name.
  destruct (Tag_filter_name_iexact db tag) as [|m [|m' rest]] eqn:Hm; simpl.
  - eexists _, _. split; [reflexivity|]. split; [reflexivity|].
    split; [|done]. intros _. split; [done|]. split; [|done].
    apply fresh_pk_not_in.
  - assert (Hin : m ∈ Tag_filter_name_iexact db tag) by (rewrite Hm; left).
    apply Tag_filter_name_iexact_elem in Hin as [Hi Ht].
    rewrite iexact_equal_ignoring_case in Hi.
    exists db, m. repeat split; try done.
  - assert (Hin : m ∈ Tag_filter_name_iexact db tag) by (rewrite Hm; left).
    apply Tag_filter_name_iexact_elem in Hin as [Hi Ht].
    rewrite iexact_equal_ignoring_case in Hi.
    exists db, m. repeat split; try done.
Qed.

(** ** What one field's diff can touch *)

Ltac case_eqb :=
  match goal with
  | H : context [String.eqb ?a ?b] |- _ =>
      destruct (String.eqb_spec a b); simplify_eq/=
  | |- context [String.eqb ?a ?b] =>
      destruct (String.eqb_spec a b); simplify_eq/=
  end.

Lemma setattr_event_id (event event1 : Event) (key : string) (value : pyval) :
  setattr event key value = Ok event1 → event_id event1 = event_id event.
Proof.
  destruct event; unfold setattr; intros H.
  destruct value; repeat case_eqb; done.
Qed.

Lemma setattr_placeholder_img (event event1 : Event) (key : string)
    (value : pyval) :
  setattr event key value = Ok event1 →
  placeholder_img event1 = placeholder_img event.
Proof.
  destruct event; unfold setattr; intros H.
  destruct value; repeat case_eqb; done.
Qed.

Lemma setattr_picture_other (event event1 : Event) (key : string)
    (value : pyval) :
  setattr event key value = Ok event1 → key ≠ "picture" →
  picture event1 = picture event.
Proof.
  destruct event; unfold setattr; intros H Hne.
  destruct value; repeat case_eqb; done.
Qed.

Lemma setattr_getattr_other (event event1 : Event) (key k : string)
    (value : pyval) :
  setattr event key value = Ok event1 → k ≠ key →
  getattr event1 k = getattr event k.
Proof.
  destruct event; unfold setattr, getattr; intros H Hne.
  destruct value; repeat case_eqb; done.
Qed.

Lemma frame_refl (key : string) (st : EditState) : frame key st st.
Proof. split; auto. Qed.

Lemma only_event_channels_trans (db db1 db2 : DB) :
  only_event_channels db db1 → only_event_channels db1 db2 →
  only_event_channels db db2.
Proof.
  intros (?&?&?&?&?&?) (?&?&?&?&?&?). repeat split; congruence.
Qed.

Lemma foldl_only_event_channels (f : DB → Channel → DB) (l : list Channel)
    (db : DB) :
  (∀ d c, only_event_channels d (f d c)) →
  only_event_channels db (foldl f db l).
Proof.
  intros Hf. revert db. induction l as [|c l IH]; intros db; simpl.
  - by repeat split.
  - eapply only_event_channels_trans; [apply Hf | apply IH].
Qed.

Lemma event_channels_remove_only (event : Event) (db : DB) (c : Channel) :
  only_event_channels db (event_channels_remove event db c).
Proof. by repeat split. Qed.

Lemma event_channels_add_only (event : Event) (db : DB) (c : Channel) :
  only_event_channels db (event_channels_add event db c).
Proof. unfold event_channels_add. case_bool_decide; by repeat split. Qed.

Lemma only_tags_trans (db db1 db2 : DB) :
  only_tags db db1 → only_tags db1 db2 → only_tags db db2.
Proof.
  intros (?&?&?&?&?) (?&?&?&?&?). repeat split; congruence.
Qed.

Lemma remove_tag_by_name_only_tags (event : Event) (db db1 : DB)
    (tag : string) :
  remove_tag_by_name event db tag = Ok db1 → only_tags db db1.
Proof.
  unfold remove_tag_by_name. intros H. inv_bind H. simplify_eq/=.
  by repeat split.
Qed.

Lemma add_tag_by_name_only_tags (event : Event) (db db1 : DB) (tag : string) :
  add_tag_by_name event db tag = Ok db1 → only_tags db db1.
Proof.
  unfold add_tag_by_name. intros H. inv_bind H. destruct a as [db0 t].
  simplify_eq/=.
  assert (only_tags db db0) as (?&?&?&?&?).
  { unfold tag_for_name in Ha.
    destruct (objects_get _) as [?|[]]; simplify_eq/=; try by repeat split.
    destruct (take 1 _) as [|? []]; simplify_eq/=; by repeat split. }
  unfold event_tags_add. case_bool_decide; repeat split; simpl; congruence.
Qed.

Lemma foldM_only_tags (f : DB → string → result DB) (l : list string)
    (db db1 : DB) :
  (∀ d d1 x, f d x = Ok d1 → only_tags d d1) →
  foldM f db l = Ok db1 → only_tags db db1.
Proof.
  intros Hf. revert db. induction l as [|x l IH]; intros db H; simpl in H.
  - simplify_eq. by repeat split.
  - inv_bind H. eapply only_tags_trans; eauto.
Qed.

Section Frames.
Variable previous : gmap string json.
Variable has_file : bool.

Lemma diff_channels_frame (value : pyval) (st st1 : EditState) :
  diff_channels previous value st = Ok st1 → frame "channels" st st1.
Proof.
  unfold diff_channels. intros H.
  inv_bind H. inv_bind H. inv_bind H. inv_ret H.
  set (prev := py_set same_channel a0).
  set (new := py_set same_channel a1).
  set (db1 := foldl (event_channels_remove _) _ _).
  set (db2 := foldl (event_channels_add _) _ _).
  assert (only_event_channels (st_db st) db1) as (?&?&?&?&?&?)
    by apply foldl_only_event_channels, event_channels_remove_only.
  assert (only_event_channels db1 db2) as (?&?&?&?&?&?)
    by apply foldl_only_event_channels, event_channels_add_only.
  clearbody db1 db2.
  split; simpl; try done; try congruence.
  - destruct (negb _); eauto.
  - intros _. split; congruence.
Qed.

Lemma diff_tags_frame (value : pyval) (st st1 : EditState) :
  diff_tags previous value st = Ok st1 → frame "tags" st st1.
Proof.
  unfold diff_tags. intros H.
  inv_bind H. inv_bind H. inv_bind H. inv_bind H. inv_ret H.
  apply foldM_only_tags in Ha1 as (?&?&?&?&?);
    [|apply remove_tag_by_name_only_tags].
  apply foldM_only_tags in Ha2 as (?&?&?&?&?);
    [|apply add_tag_by_name_only_tags].
  split; simpl; try done; try congruence.
  destruct (negb _); eauto.
Qed.

Lemma diff_placeholder_img_frame (value : pyval) (st st1 : EditState) :
  diff_placeholder_img value st = Ok st1 → frame "placeholder_img" st st1.
Proof.
  unfold diff_placeholder_img. intros H.
  destruct (truthy value); [|inv_ret H; apply frame_refl].
  destruct value; inv_ret H.
  destruct st as [[] ? ? ? ?]; split; simpl; try done; eauto.
Qed.

Lemma diff_attribute_frame (key : string) (value : pyval)
    (st st1 : EditState) :
  diff_attribute previous key value st = Ok st1 → frame key st st1.
Proof.
  unfold diff_attribute. intros H. inv_bind H.
  destruct (negb _); [|inv_ret H; apply frame_refl].
  inv_bind H. inv_ret H.
  split; simpl; try done; eauto.
  - eapply setattr_event_id; eauto.
  - intros k Hk. eapply setattr_getattr_other; eauto.
  - intros Hk. eapply setattr_picture_other; eauto.
  - intros _. eapply setattr_placeholder_img; eauto.
Qed.

Lemma compute_diff_frame (key : string) (value : pyval)
    (st st1 : EditState) :
  compute_diff previous key value st = Ok st1 → frame key st st1.
Proof.
  unfold compute_diff. intros H.
  destruct (String.eqb_spec key "channels") as [->|?];
    [by apply diff_channels_frame in H|].
  destruct (String.eqb_spec key "tags") as [->|?];
    [by apply diff_tags_frame in H|].
  destruct (String.eqb_spec key "placeholder_img") as [->|?];
    [by apply diff_placeholder_img_frame in H|].
  destruct (String.eqb_spec key "event_id") as [->|?];
    [inv_ret H; apply frame_refl|].
  by apply diff_attribute_frame in H.
Qed.

(** One iteration: the current value is resolved on the state the
    iteration starts from, the diff touches what [frame] allows, and the
    key is appended to [conflict_errors] exactly when it is in [changes]
    and its baseline differs from the current value. *)
Lemma process_field_step (key : string) (value : pyval)
    (st st1 : EditState) :
  process_field previous has_file st (key, value) = Ok st1 →
  ∃ cur st',
    resolve_current_value has_file (st_db st) (st_event st) key
      (st_current_value st) = Ok cur
    ∧ frame key st st'
    ∧ st_event st1 = st_event st'
    ∧ st_db st1 = st_db st'
    ∧ st_changes st1 = st_changes st'
    ∧ st_current_value st1 = cur
    ∧ (key ∈ dom (st_changes st1) → is_Some cur)
    ∧ st_conflict_errors st1 =
        st_conflict_errors st
        ++ (if bool_decide (key ∈ dom (st_changes st1)) then
              match cur with
              | Some c => if baseline_differs previous key c then [key] else []
              | None => []
              end
            else []).
Proof.
  unfold process_field. intros H. inv_bind H. inv_bind H.
  rename a into cur, a0 into st0.
  apply compute_diff_frame in Ha0 as Hfr.
  destruct Hfr as [Hce Hcv Hch Hid Hga Hpic Hph Htags Hec Hc He Hr Hchap].
  simpl in *.
  exists cur, (mkEditState (st_event st0) (st_db st0) (st_changes st0)
                 (st_conflict_errors st) (st_current_value st)).
  split; [done|]. split; [by split|].
  unfold detect_conflict in H. cbv [mret result_ret] in H.
  case_bool_decide as Hin.
  - rewrite Hcv in H. destruct cur as [c|]; [|done].
    unfold baseline_differs.
    destruct (negb _); injection H as <-; simpl; rewrite ?Hce;
      repeat split; eauto; rewrite ?bool_decide_eq_true_2; eauto.
    by rewrite app_nil_r.
  - injection H as <-. rewrite Hce, Hcv. repeat split; eauto; try done.
    rewrite bool_decide_eq_false_2 by done. by rewrite app_nil_r.
Qed.
End Frames.

Lemma foldM_cons_Ok {A B : Type} (f : A → B → result A) (a b : A) (x : B)
    (l : list B) :
  foldM f a (x :: l) = Ok b → ∃ a1, f a x = Ok a1 ∧ foldM f a1 l = Ok b.
Proof. simpl. apply bind_Ok. Qed.

Section Loop.
Variable previous : gmap string json.
Variable has_file : bool.

Lemma frame_dom_changes (key : string) (st st1 : EditState) :
  frame key st st1 →
  dom (st_changes st) ⊆ dom (st_changes st1)
  ∧ ∀ k, k ≠ key → k ∈ dom (st_changes st1) → k ∈ dom (st_changes st).
Proof.
  intros Hfr. destruct (frame_changes _ _ _ Hfr) as [->|[c ->]].
  - split; [done|auto].
  - rewrite dom_insert_L. split; [apply union_subseteq_r|].
    intros k Hne [Hk%elem_of_singleton|Hk]%elem_of_union; done.
Qed.

Lemma process_field_dom_other (key k : string) (value : pyval)
    (st st1 : EditState) :
  process_field previous has_file st (key, value) = Ok st1 → k ≠ key →
  (k ∈ dom (st_changes st1) ↔ k ∈ dom (st_changes st))
  ∧ (k ∈ st_conflict_errors st1 ↔ k ∈ st_conflict_errors st).
Proof.
  intros H Hne.
  apply process_field_step in H
    as (cur & st' & _ & Hfr & _ & _ & Hch & _ & _ & Hce).
  apply frame_dom_changes in Hfr as [Hsub Hother].
  rewrite Hch, Hce. split.
  - split; [by apply Hother | apply Hsub].
  - rewrite elem_of_app. split; [|by left].
    intros [?|Hin]; [done|]. exfalso.
    case_bool_decide; [|by apply elem_of_nil in Hin].
    destruct cur as [c|]; [|by apply elem_of_nil in Hin].
    destruct (baseline_differs _ _ _); [|by apply elem_of_nil in Hin].
    by apply list_elem_of_singleton in Hin.
Qed.

Lemma process_field_dom_mono (item : string * pyval) (st st1 : EditState) :
  process_field previous has_file st item = Ok st1 →
  dom (st_changes st) ⊆ dom (st_changes st1).
Proof.
  destruct item as [key value]. intros H.
  apply process_field_step in H
    as (cur & st' & _ & Hfr & _ & _ & Hch & _).
  rewrite Hch. by apply frame_dom_changes in Hfr as [? _].
Qed.

(** Keys that the rest of the loop does not visit keep their entries. *)
Lemma loop_other_keys (l : list (string * pyval)) (k : string)
    (st0 st : EditState) :
  foldM (process_field previous has_file) st0 l = Ok st →
  k ∉ l.*1 →
  (k ∈ dom (st_changes st) ↔ k ∈ dom (st_changes st0))
  ∧ (k ∈ st_conflict_errors st ↔ k ∈ st_conflict_errors st0).
Proof.
  revert st0. induction l as [|[key value] l IH]; intros st0 H Hk.
  - by inv_ret H.
  - apply foldM_cons_Ok in H as (a & Ha & H).
    rewrite fmap_cons, not_elem_of_cons in Hk.
    destruct Hk as [Hne Hk]. simpl in Hne.
    destruct (IH _ H Hk) as [-> ->].
    by eapply process_field_dom_other.
Qed.

(** Conflicts are only ever recorded for keys that are in [changes]. *)
Lemma loop_conflicts_in_changes (l : list (string * pyval))
    (st0 st : EditState) :
  foldM (process_field previous has_file) st0 l = Ok st →
  (∀ k, k ∈ st_conflict_errors st0 → k ∈ dom (st_changes st0)) →
  ∀ k, k ∈ st_conflict_errors st → k ∈ dom (st_changes st).
Proof.
  revert st0. induction l as [|[key value] l IH]; intros st0 H Hinv.
  - by inv_ret H.
  - apply foldM_cons_Ok in H as (a & Ha & H). apply (IH _ H).
    intros k Hin.
    pose proof (process_field_dom_mono _ _ _ Ha) as Hmono.
    apply process_field_step in Ha
      as (cur & st' & _ & _ & _ & _ & _ & _ & _ & Hce).
    rewrite Hce, elem_of_app in Hin. destruct Hin as [Hin|Hin].
    + apply Hmono, Hinv, Hin.
    + case_bool_decide as Hd; [|by apply elem_of_nil in Hin].
      destruct cur as [c|]; [|by apply elem_of_nil in Hin].
      destruct (baseline_differs _ _ _); [|by apply elem_of_nil in Hin].
      by apply list_elem_of_singleton in Hin as ->.
Qed.
End Loop.

(** C3.  A field of the submission that the diff does not enter into
    [changes] is not in [conflict_errors] when the loop ends, whatever the
    database holds for it. *)
Theorem unchanged_field_never_conflicts (previous : gmap string json)
    (has_file : bool) (event : Event) (db : DB)
    (cleaned_data : list (string * pyval)) (st : EditState) (key : string) :
  edit_fields previous has_file event db cleaned_data = Ok st →
  key ∉ dom (st_changes st) →
  key ∉ st_conflict_errors st.
Proof.
  intros H Hkey Hin. apply Hkey.
  eapply loop_conflicts_in_changes; [exact H| |exact Hin].
  simpl. intros k Hk. by apply elem_of_nil in Hk.
Qed.

(** ** Conflicts against the value the request started from *)

Lemma resolve_current_value_unthreaded (has_file : bool) (db : DB)
    (event : Event) (key : string) (c c' : option pyval) :
  key ≠ "event_id" →
  resolve_current_value has_file db event key c
  = resolve_current_value has_file db event key c'.
Proof.
  intros Hne. unfold resolve_current_value.
  repeat (case String.eqb_spec; intros; try done).
Qed.

Lemma event_tags_all_ext (db db1 : DB) (event event1 : Event) :
  tags db1 = tags db → event_tags db1 = event_tags db →
  event_id event1 = event_id event →
  event_tags_all db1 event1 = event_tags_all db event.
Proof.
  intros Ht Het Hid. unfold event_tags_all, find_tag. by rewrite Ht, Het, Hid.
Qed.

Lemma event_channels_all_ext (db db1 : DB) (event event1 : Event) :
  channels db1 = channels db → event_channels db1 = event_channels db →
  event_id event1 = event_id event →
  event_channels_all db1 event1 = event_channels_all db event.
Proof.
  intros Ht Het Hid. unfold event_channels_all, find_channel.
  by rewrite Ht, Het, Hid.
Qed.

(** A step for one key does not move the current value of another key.
    The placeholder image is the exception when no file is uploaded: its
    current value is then read off the picture, which the [picture] key
    may just have replaced in memory. *)
Lemma resolve_current_value_frame (has_file : bool) (key k : string)
    (st st1 : EditState) (c : option pyval) :
  frame key st st1 → k ≠ key →
  (k = "placeholder_img" → has_file = true) →
  resolve_current_value has_file (st_db st1) (st_event st1) k c
  = resolve_current_value has_file (st_db st) (st_event st) k c.
Proof.
  intros Hfr Hne Hph. unfold resolve_current_value.
  destruct (String.eqb_spec k "placeholder_img") as [->|?].
  { rewrite (Hph eq_refl).
    rewrite (frame_placeholder_img _ _ _ Hfr) by done.
    by destruct (picture (st_event st1)), (picture (st_event st)). }
  destruct (String.eqb_spec k "tags") as [->|?].
  { destruct (frame_tags _ _ _ Hfr) as [? ?]; [done|].
    erewrite event_tags_all_ext; eauto using frame_event_id. }
  destruct (String.eqb_spec k "channels") as [->|?].
  { erewrite event_channels_all_ext;
      eauto using frame_event_id, frame_channels.
    by apply (frame_event_channels _ _ _ Hfr). }
  destruct (String.eqb_spec k "picture") as [->|?].
  { by rewrite (frame_picture _ _ _ Hfr). }
  destruct (String.eqb_spec k "event_id") as [->|?]; [done|].
  by rewrite (frame_getattr _ _ _ Hfr).
Qed.

Section Conflicts.
Variable previous : gmap string json.
Variable has_file : bool.

Lemma process_field_event_id (value : pyval) (st st1 : EditState) :
  process_field previous has_file st ("event_id", value) = Ok st1 →
  st_changes st1 = st_changes st.
Proof.
  unfold process_field. intros H. inv_bind H. inv_bind H.
  unfold compute_diff in Ha0. simpl in Ha0. inv_ret Ha0.
  unfold detect_conflict in H. simpl in H.
  case_bool_decide; [|by inv_ret H].
  destruct a as [c|]; [|done]. destruct (negb _); by inv_ret H.
Qed.

Lemma loop_event_id_not_changed (l : list (string * pyval))
    (st0 st : EditState) :
  foldM (process_field previous has_file) st0 l = Ok st →
  "event_id" ∈ dom (st_changes st) → "event_id" ∈ dom (st_changes st0).
Proof.
  revert st0. induction l as [|[key value] l IH]; intros st0 H Hin.
  - by inv_ret H.
  - apply foldM_cons_Ok in H as (st1 & Hst1 & H).
    specialize (IH _ H Hin).
    destruct (decide (key = "event_id")) as [->|Hne].
    + by rewrite <-(process_field_event_id _ _ _ Hst1).
    + destruct (process_field_dom_other previous has_file key "event_id"
                  value st0 st1 Hst1) as [Hd _]; [done|].
      by apply Hd.
Qed.

Lemma loop_conflict_iff (l : list (string * pyval)) (key : string)
    (st0 st : EditState) :
  foldM (process_field previous has_file) st0 l = Ok st →
  NoDup l.*1 →
  key ≠ "event_id" →
  (key = "placeholder_img" → has_file = true) →
  key ∉ dom (st_changes st0) →
  key ∉ st_conflict_errors st0 →
  key ∈ dom (st_changes st) →
  ∃ cur,
    resolve_current_value has_file (st_db st0) (st_event st0) key None
    = Ok (Some cur)
    ∧ (key ∈ st_conflict_errors st ↔ baseline_differs previous key cur = true).
Proof.
  revert st0.
  induction l as [|[k value] l IH]; intros st0 H Hnd Hid Hph Hch0 Hce0 Hin.
  - inv_ret H; done.
  - apply foldM_cons_Ok in H as (st1 & Hst1 & H).
    rewrite fmap_cons in Hnd. apply NoDup_cons in Hnd as [Hk Hnd].
    simpl in Hk.
    destruct (decide (key = k)) as [->|Hne].
    + destruct (loop_other_keys _ _ _ _ _ _ H Hk) as [Hdom Hconf].
      apply process_field_step in Hst1
        as (cur & st' & Hres & _ & _ & _ & _ & _ & Hsome & Hce).
      apply Hdom in Hin. destruct (Hsome Hin) as [c ->].
      exists c. split.
      { by rewrite (resolve_current_value_unthreaded _ _ _ _ None
                      (st_current_value st0)). }
      rewrite Hconf, Hce, bool_decide_eq_true_2 by done.
      rewrite elem_of_app. destruct (baseline_differs _ _ _).
      * split; [done|]. intros _. right. by left.
      * split; [|done]. intros [?|Hn]; [done|]. by apply elem_of_nil in Hn.
    + destruct (process_field_dom_other previous has_file k key value
                  st0 st1 Hst1 Hne) as [Hdom Hconf].
      destruct (IH st1 H Hnd Hid Hph) as (cur & Hres & Hiff); try done.
      { by rewrite Hdom. }
      { by rewrite Hconf. }
      exists cur. split; [|done].
      apply process_field_step in Hst1
        as (c & st' & _ & Hfr & Hev & Hdb & _).
      rewrite <-Hres, Hev, Hdb.
      symmetry. eapply resolve_current_value_frame; eauto.
Qed.
End Conflicts.

(** C2, as the code has it.  For a field that ends up in [changes], the
    field is in [conflict_errors] exactly when the baseline value the client
    posted differs from the current value of the field, resolved on the
    event as the request read it: a URL for the placeholder image, the list
    of ids in the order the relation iterates for tags and channels.  (For
    the placeholder image this covers the requests that upload a file.) *)
Theorem conflict_iff_baseline_differs (previous : gmap string json)
    (has_file : bool) (event : Event) (db : DB)
    (cleaned_data : list (string * pyval)) (st : EditState) (key : string) :
  edit_fields previous has_file event db cleaned_data = Ok st →
  NoDup cleaned_data.*1 →
  key ∈ dom (st_changes st) →
  (key = "placeholder_img" → has_file = true) →
  ∃ cur,
    resolve_current_value has_file db event key None = Ok (Some cur)
    ∧ (key ∈ st_conflict_errors st
       ↔ py_eqb (from_option of_json VNone (previous !! key)) cur = false).
Proof.
  intros H Hnd Hin Hph.
  assert (key ≠ "event_id") as Hid.
  { intros ->. apply loop_event_id_not_changed in H; [|done].
    cbn [st_changes] in H. by apply not_elem_of_dom in H. }
  destruct (loop_conflict_iff previous has_file cleaned_data key _ _ H)
    as (cur & Hres & Hiff); try done.
  { cbn [st_conflict_errors]. apply not_elem_of_nil. }
  exists cur. split; [done|]. rewrite Hiff. unfold baseline_differs.
  by destruct (py_eqb _ _).
Qed.

(** ** Saving and snapshotting *)

Lemma find_event_save (db : DB) (event : Event) :
  find_event (event_save db event) (event_id event) = Some event.
Proof.
  unfold find_event, event_save. case_bool_decide as Hin; simpl.
  - induction (events db) as [|e l IH]; [by apply elem_of_nil in Hin|].
    rewrite fmap_cons. case_bool_decide as He.
    + by rewrite filter_cons_True.
    + rewrite filter_cons_False by done. apply IH.
      rewrite fmap_cons, elem_of_cons in Hin. by destruct Hin.
  - rewrite filter_app, filter_cons_True, filter_nil by done.
    replace (filter _ (events db)) with (@nil Event); [done|].
    symmetry. induction (events db) as [|e l IH]; [done|].
    rewrite fmap_cons, not_elem_of_cons in Hin. destruct Hin as [? ?].
    rewrite filter_cons_False by done. by apply IH.
Qed.

Lemma edit_title_loop (event : Event) (db : DB) :
  title event = "Old" →
  edit_fields {[ "title" := JStr "Old" ]} false event db
    [("title", VStr "New")]
  = Ok (mkEditState (set_title event "New") db
          {[ "title" := (VStr "Old", VStr "New") ]} [] (Some (VStr "Old"))).
Proof.
  destruct event; simpl; intros ->. reflexivity.
Qed.

Lemma revisions_of_app (db : DB) (event : Event) (l : list EventRevision) :
  revisions_of (set_revisions db (revisions db ++ l)) event
  = revisions_of db event
    ++ filter (λ r, revision_event r = event_id event) l.
Proof. unfold revisions_of. simpl. apply filter_app. Qed.

(** C5.  An event titled "Old" without revisions, edited with the
    baseline {title: "Old"} and the new value {title: "New"}: the outcome
    is CHANGED with the change set {title: from "Old" to "New"}, the stored
    event carries the new title, and the event has exactly two revisions,
    the baseline without an author that holds the old fields and the
    revision of the acting user that holds the new ones. *)
Theorem edit_title_scenario (db : DB) (event : Event) (request : EditRequest) :
  title event = "Old" →
  revisions_of db event = [] →
  req_previous request = {[ "title" := JStr "Old" ]} →
  req_cleaned_data request = Some [("title", VStr "New")] →
  req_has_file request = false →
  req_cancel request = false →
  req_can_view request = true →
  user_is_active (req_user request) = true →
  ∃ db1 baseline new,
    submit_edit request event [("title", VStr "New")] db
    = Ok (CHANGED {[ "title" := (VStr "Old", VStr "New") ]}, db1)
    ∧ post request event db = (Ok RedirectToEvent, db1)
    ∧ find_event db1 (event_id event) = Some (set_title event "New")
    ∧ revisions_of db1 event = [baseline; new]
    ∧ revision_user baseline = None
    ∧ revision_fields baseline = event
    ∧ revision_user new = Some (user_id (req_user request))
    ∧ revision_fields new = set_title event "New".
Proof.
  intros Htitle Hrev Hprev Hcleaned Hfile Hcancel Hview Hactive.
  assert (∃ db1, submit_edit request event [("title", VStr "New")] db
                 = Ok (CHANGED {[ "title" := (VStr "Old", VStr "New") ]}, db1)
                 ∧ db1 = (create_from_event
                            (event_save
                               (create_from_event db (req_now request) event
                                  None).1
                               (set_title event "New"))
                            (req_now request) (set_title event "New")
                            (Some (req_user request))).1)
    as (db1 & Hsubmit & Hdb1).
  { unfold submit_edit. rewrite Hrev, Hprev, Hfile. simpl.
    rewrite edit_title_loop by done. simpl. eauto. }
  exists db1. eexists _, _. split; [exact Hsubmit|]. split.
  { unfold post, atomic, post_body, can_edit_event.
    rewrite Hcancel, Hview, Hactive, Hcleaned. simpl.
    by rewrite Hsubmit. }
  rewrite Hdb1. split.
  { unfold create_from_event at 1. cbn [fst].
    unfold find_event. cbn [events set_revisions].
    apply (find_event_save _ (set_title event "New")). }
  split.
  { unfold create_from_event. cbn [fst].
    rewrite revisions_of_app.
    unfold revisions_of at 1, event_save.
    case_bool_decide; cbn [revisions set_events set_revisions];
      rewrite filter_app; fold (revisions_of db event); rewrite Hrev;
      rewrite !filter_cons_True, filter_nil by done; reflexivity. }
  done.
Qed.

(** ** Python sets by key *)

Section PySetFacts.
Context {A K : Type} `{EqDecision K} (same : A → A → bool) (key : A → K).
Hypothesis same_key : ∀ x y, same x y = true ↔ key x = key y.

Lemma py_in_true (x : A) (s : list A) :
  py_in same x s = true ↔ key x ∈ key <$> s.
Proof.
  unfold py_in. induction s as [|y s IH]; cbn [existsb].
  - split; [done|]. intros H. by apply elem_of_nil in H.
  - rewrite fmap_cons, elem_of_cons, orb_true_iff, IH, same_key. done.
Qed.


Lemma py_set_keys (l : list A) (k : K) :
  k ∈ key <$> py_set same l ↔ k ∈ key <$> l.
Proof.
  induction l as [|y l IH]; cbn [py_set]; [done|].
  rewrite !fmap_cons, !elem_of_cons, <-IH, !list_elem_of_fmap.
  split.
  - intros [->|(x & -> & Hx)]; [by left|].
    apply list_elem_of_filter in Hx as [_ Hx]. right. eauto.
  - intros [->|(x & -> & Hx)]; [by left|].
    destruct (decide (key x = key y)) as [Heq|Hne]; [by left|].
    right. exists x. split; [done|]. apply list_elem_of_filter.
    split; [|done]. apply not_true_iff_false. rewrite same_key. congruence.
Qed.

Lemma py_diff_nil (s t : list A) :
  (∀ x, x ∈ s → key x ∈ key <$> t) → py_diff same s t = [].
Proof.
  intros H. unfold py_diff. induction s as [|x s IH]; [done|].
  rewrite filter_cons_False.
  - apply IH. intros y Hy. apply H. by right.
  - rewrite not_false_iff_true, py_in_true. apply H. by left.
Qed.

Lemma py_set_eqb_true (s t : list A) :
  py_set_eqb same s t = true ↔
  ∀ k, k ∈ key <$> s ↔ k ∈ key <$> t.
Proof.
  unfold py_set_eqb.
  rewrite andb_true_iff, !forallb_forall. split.
  - intros [Hs Ht] k. rewrite !list_elem_of_fmap. split.
    + intros (x & -> & Hx). apply list_elem_of_In, Hs in Hx.
      apply py_in_true in Hx. by apply list_elem_of_fmap in Hx.
    + intros (x & -> & Hx). apply list_elem_of_In, Ht in Hx.
      apply py_in_true in Hx. by apply list_elem_of_fmap in Hx.
  - intros H. split; intros x Hx%list_elem_of_In; apply py_in_true, H;
      by apply list_elem_of_fmap_2.
Qed.
End PySetFacts.

Lemma same_channel_key (c d : Channel) :
  same_channel c d = true ↔ channel_pk c = channel_pk d.
Proof. unfold same_channel. by rewrite bool_decide_eq_true. Qed.

Lemma string_eqb_key (s t : string) : String.eqb s t = true ↔ id s = id t.
Proof. apply String.eqb_eq. Qed.



(** ** Rows with unique primary keys *)

Lemma NoDup_fmap_elem_inj {A K : Type} (f : A → K) (l : list A) (x y : A) :
  NoDup (f <$> l) → x ∈ l → y ∈ l → f x = f y → x = y.
Proof.
  induction l as [|z l IH]; intros Hnd Hx Hy Heq.
  - by apply elem_of_nil in Hx.
  - rewrite fmap_cons in Hnd. apply NoDup_cons in Hnd as [Hz Hnd].
    apply elem_of_cons in Hx as [->|Hx]; apply elem_of_cons in Hy as [->|Hy];
      try done.
    + exfalso. apply Hz. rewrite Heq. by apply list_elem_of_fmap_2.
    + exfalso. apply Hz. rewrite <-Heq. by apply list_elem_of_fmap_2.
    + by apply IH.
Qed.

Lemma filter_key_none {A K : Type} `{EqDecision K} (f : A → K)
    (l : list A) (k : K) :
  k ∉ f <$> l → filter (λ y, f y = k) l = [].
Proof.
  induction l as [|z l IH]; intros Hk; [done|].
  rewrite fmap_cons, not_elem_of_cons in Hk. destruct Hk as [Hz Hk].
  rewrite filter_cons_False by congruence. by apply IH.
Qed.

Lemma filter_key_unique {A K : Type} `{EqDecision K} (f : A → K)
    (l : list A) (x : A) :
  NoDup (f <$> l) → x ∈ l → filter (λ y, f y = f x) l = [x].
Proof.
  induction l as [|z l IH]; intros Hnd Hx.
  - by apply elem_of_nil in Hx.
  - rewrite fmap_cons in Hnd. apply NoDup_cons in Hnd as [Hz Hnd].
    apply elem_of_cons in Hx as [->|Hx].
    + rewrite filter_cons_True by done. f_equal. by apply filter_key_none.
    + rewrite filter_cons_False; [by apply IH|].
      intros Heq. apply Hz. rewrite Heq. by apply list_elem_of_fmap_2.
Qed.

Lemma head_filter_elem {A : Type} (P : A → Prop) `{∀ x, Decision (P x)}
    (l : list A) (x : A) :
  head (filter P l) = Some x → P x ∧ x ∈ l.
Proof.
  intros Hh. apply (list_elem_of_filter P l x).
  destruct (filter P l) as [|y r]; [done|]. simplify_eq/=. by left.
Qed.


Lemma event_tags_all_elem (db : DB) (event : Event) (t : Tag) :
  t ∈ event_tags_all db event → t ∈ tags db.
Proof.
  unfold event_tags_all. rewrite list_elem_of_omap.
  intros ([e pk] & _ & Hc). case_bool_decide; [|done].
  by apply head_filter_elem in Hc as [_ ?].
Qed.



Lemma Tag_filter_id_in_event_tags (db : DB) (event : Event) (t : Tag) :
  NoDup (tag_id <$> tags db) →
  t ∈ Tag_filter_id_in db (tag_id <$> event_tags_all db event)
  ↔ t ∈ event_tags_all db event.
Proof.
  intros Hnd. unfold Tag_filter_id_in. rewrite list_elem_of_filter. split.
  - intros [(t' & Hid & Ht')%list_elem_of_fmap Ht].
    assert (t = t') as ->; [|done].
    eapply (NoDup_fmap_elem_inj tag_id); eauto using event_tags_all_elem.
  - intros Ht. split; [by apply list_elem_of_fmap_2|].
    by eapply event_tags_all_elem.
Qed.

(** ** Submitting the snapshot back *)

Lemma event_to_dict_channels (thumbnail : string → string) (db : DB)
    (event : Event) :
  event_to_dict thumbnail db event !! "channels"
  = Some (JList (channel_pk <$> event_channels_all db event)).
Proof. unfold event_to_dict. destruct (placeholder_img event); reflexivity. Qed.

Lemma event_to_dict_tags (thumbnail : string → string) (db : DB)
    (event : Event) :
  event_to_dict thumbnail db event !! "tags"
  = Some (JList (tag_id <$> event_tags_all db event)).
Proof. unfold event_to_dict. destruct (placeholder_img event); reflexivity. Qed.

Lemma event_to_dict_picture (thumbnail : string → string) (db : DB)
    (event : Event) :
  event_to_dict thumbnail db event !! "picture"
  = Some (match picture event with
          | Some p => JInt (picture_id p)
          | None => JNull
          end).
Proof. unfold event_to_dict. destruct (placeholder_img event); reflexivity. Qed.



Section Unchanged.
Variable thumbnail : string → string.
Variable db : DB.
Variable event : Event.
Hypothesis tag_ids_unique : NoDup (tag_id <$> tags db).
Hypothesis channel_pks_unique : NoDup (channel_pk <$> channels db).

Let names := tag_name <$> event_tags_all db event.





End Unchanged.

Lemma filter_all {A : Type} (P : A → Prop) `{∀ x, Decision (P x)}
    (l : list A) :
  (∀ x, x ∈ l → P x) → filter P l = l.
Proof.
  induction l as [|x l IH]; intros Hall; [done|].
  rewrite filter_cons_True by (apply Hall; by left).
  f_equal. apply IH. intros y Hy. apply Hall. by right.
Qed.

Lemma baseline_retracted (db : DB) (now : Z) (event : Event) :
  let '(db0, r) := create_from_event db now event None in
  revision_delete db0 r = db
  ∧ db0 = set_revisions db (revisions db ++ [r]).
Proof.
  unfold create_from_event, revision_delete. cbn [revisions set_revisions].
  split; [|done].
  rewrite filter_app, filter_cons_False, filter_nil, app_nil_r by (cbn; auto).
  rewrite filter_all; [by destruct db|].
  intros x Hx Heq. cbn [revision_pk] in Heq.
  apply (fresh_pk_not_in (revision_pk <$> revisions db)).
  rewrite <-Heq. by apply list_elem_of_fmap_2.
Qed.


(** ** Uploading a placeholder image *)

Lemma dict_set_dict_set (key : string) (v w : pyval)
    (d : list (string * pyval)) :
  dict_set key w (dict_set key v d) = dict_set key w d.
Proof.
  induction d as [|[k x] d IH]; simpl.
  - by rewrite String.eqb_refl.
  - destruct (String.eqb_spec k key) as [->|Hne]; simpl.
    + by rewrite String.eqb_refl.
    + rewrite (proj2 (String.eqb_neq _ _) Hne). by rewrite IH.
Qed.

Lemma dict_set_keys (key k : string) (v : pyval) (d : list (string * pyval)) :
  k ∈ (dict_set key v d).*1 ↔ k = key ∨ k ∈ d.*1.
Proof.
  induction d as [|[k' x] d IH]; simpl.
  - rewrite list_elem_of_singleton, elem_of_nil. tauto.
  - destruct (String.eqb_spec k' key) as [->|Hne];
      rewrite !fmap_cons, !elem_of_cons; simpl; [tauto|]. rewrite IH. tauto.
Qed.

Lemma dict_set_NoDup (key : string) (v : pyval) (d : list (string * pyval)) :
  NoDup d.*1 → NoDup (dict_set key v d).*1.
Proof.
  induction d as [|[k x] d IH]; cbn [dict_set]; intros Hnd.
  - apply NoDup_singleton.
  - rewrite fmap_cons in Hnd. apply NoDup_cons in Hnd as [Hk Hnd].
    cbn [fst] in Hk. destruct (String.eqb_spec k key) as [->|Hne];
      rewrite fmap_cons; apply NoDup_cons; cbn [fst]; [done|].
    split; [|by apply IH]. rewrite dict_set_keys. intros [?|?]; done.
Qed.

Lemma dict_set_elem (key : string) (v : pyval) (d : list (string * pyval)) :
  (key, v) ∈ dict_set key v d.
Proof.
  induction d as [|[k x] d IH]; simpl; [by left|].
  destruct (String.eqb_spec k key) as [->|Hne]; [by left|by right].
Qed.

Section Picture.
Variable previous : gmap string json.
Variable has_file : bool.

Lemma process_field_event (item : string * pyval) (st st1 : EditState) :
  process_field previous has_file st item = Ok st1 →
  event_id (st_event st1) = event_id (st_event st)
  ∧ (item.1 ≠ "picture" → picture (st_event st1) = picture (st_event st)).
Proof.
  destruct item as [key value]. intros H.
  apply process_field_step in H as (cur & st' & _ & Hfr & -> & _).
  split; [apply (frame_event_id _ _ _ Hfr)|apply (frame_picture _ _ _ Hfr)].
Qed.

Lemma loop_event_id (l : list (string * pyval)) (st0 st : EditState) :
  foldM (process_field previous has_file) st0 l = Ok st →
  event_id (st_event st) = event_id (st_event st0).
Proof.
  revert st0. induction l as [|item l IH]; intros st0 H.
  - by inv_ret H.
  - apply foldM_cons_Ok in H as (st1 & Hst1 & H).
    rewrite (IH _ H). by apply process_field_event in Hst1 as [? _].
Qed.

Lemma loop_picture_kept (l : list (string * pyval)) (st0 st : EditState) :
  foldM (process_field previous has_file) st0 l = Ok st →
  "picture" ∉ l.*1 →
  picture (st_event st) = picture (st_event st0).
Proof.
  revert st0. induction l as [|item l IH]; intros st0 H Hk.
  - by inv_ret H.
  - apply foldM_cons_Ok in H as (st1 & Hst1 & H).
    rewrite fmap_cons, not_elem_of_cons in Hk. destruct Hk as [Hne Hk].
    rewrite (IH _ H Hk). apply process_field_event in Hst1 as [_ Hp].
    apply Hp. congruence.
Qed.

Lemma process_picture_none (j : json) (st st1 : EditState) :
  process_field previous has_file st ("picture", VNone) = Ok st1 →
  previous !! "picture" = Some j → j ≠ JNull →
  picture (st_event st1) = None.
Proof.
  unfold process_field. intros H Hj Hnull. inv_bind H. inv_bind H.
  unfold compute_diff in Ha0. cbn [String.eqb Ascii.eqb Bool.eqb] in Ha0.
  unfold diff_attribute, previous_item in Ha0. rewrite Hj in Ha0.
  cbn [mbind result_bind st_event st_db st_changes] in Ha0.
  assert (py_eqb VNone (of_json j) = false) as Hne by (by destruct j).
  rewrite Hne in Ha0. cbn [negb] in Ha0. inv_bind Ha0.
  assert (picture a1 = None) as Hpic.
  { destruct (st_event st). cbn in Ha1. by inv_ret Ha1. }
  inv_ret Ha0. unfold detect_conflict in H. cbn in H.
  case_bool_decide; [|by inv_ret H].
  destruct a as [c|]; [|done]. destruct (negb _); by inv_ret H.
Qed.

Lemma loop_picture_cleared (l : list (string * pyval)) (j : json)
    (st0 st : EditState) :
  foldM (process_field previous has_file) st0 l = Ok st →
  NoDup l.*1 → ("picture", VNone) ∈ l →
  previous !! "picture" = Some j → j ≠ JNull →
  picture (st_event st) = None.
Proof.
  revert st0. induction l as [|item l IH]; intros st0 H Hnd Hin Hj Hnull.
  - by apply elem_of_nil in Hin.
  - apply foldM_cons_Ok in H as (st1 & Hst1 & H).
    rewrite fmap_cons in Hnd. apply NoDup_cons in Hnd as [Hk Hnd].
    apply elem_of_cons in Hin as [<-|Hin].
    + rewrite (loop_picture_kept _ _ _ H Hk).
      by eapply process_picture_none.
    + by eapply IH.
Qed.
End Picture.

(** C8, as the code has it.  When the request uploads a placeholder image
    the submitted picture value is replaced by [None] before the loop, so
    the answer is the same whatever picture value was submitted; and when
    the baseline names a picture and the edit is saved (outcome CHANGED),
    the stored event has no picture. *)
Theorem placeholder_upload_overrides_picture (request : EditRequest)
    (event : Event) (cleaned_data : list (string * pyval)) (db : DB) :
  req_has_file request = true →
  (∀ v, submit_edit request event (dict_set "picture" v cleaned_data) db
        = submit_edit request event (dict_set "picture" VNone cleaned_data) db)
  ∧ (∀ j changes db1,
       NoDup cleaned_data.*1 →
       req_previous request !! "picture" = Some j → j ≠ JNull →
       submit_edit request event cleaned_data db = Ok (CHANGED changes, db1) →
       ∃ saved,
         find_event db1 (event_id event) = Some saved ∧ picture saved = None).
Proof.
  intros Hfile. split.
  - intros v. unfold submit_edit. rewrite Hfile.
    by rewrite !dict_set_dict_set.
  - intros j changes db1 Hnd Hj Hnull. unfold submit_edit. rewrite Hfile.
    destruct (if bool_decide _ then _ else _) as [db0 base].
    intros H. inv_bind H. rename a into st.
    pose proof (loop_event_id _ _ _ _ _ Ha) as Hid.
    eapply loop_picture_cleared in Ha;
      eauto using dict_set_NoDup, dict_set_elem.
    destruct (negb (bool_decide (st_conflict_errors st = [])));
      [by inv_ret H|].
    destruct (negb (bool_decide (st_changes st = ∅)));
      [|destruct base; by inv_ret H].
    inv_ret H. exists (st_event st). split; [|done].
    cbn in Hid. rewrite <-Hid. unfold find_event. cbn [events set_revisions].
    apply find_event_save.
Qed.

(** ** The previous revision *)

Lemma revision_before_spec (q r : EventRevision) :
  revision_before q r = true ↔
  revision_created q < revision_created r
  ∨ (revision_created q = revision_created r ∧ revision_pk q < revision_pk r).
Proof.
  unfold revision_before.
  rewrite orb_true_iff, andb_true_iff, !bool_decide_eq_true. done.
Qed.

Lemma revision_before_irrefl (r : EventRevision) :
  revision_before r r = false.
Proof.
  apply not_true_iff_false. rewrite revision_before_spec. lia.
Qed.

Lemma revision_before_trans (p q r : EventRevision) :
  revision_before p q = true → revision_before q r = true →
  revision_before p r = true.
Proof. rewrite !revision_before_spec. lia. Qed.

Lemma latest_revision_None (l : list EventRevision) :
  latest_revision l = None ↔ l = [].
Proof.
  destruct l as [|q l]; [done|]. simpl. split; [|done].
  destruct (latest_revision l) as [p|]; [|done].
  by destruct (revision_before p q).
Qed.

Lemma latest_revision_Some (l : list EventRevision) (p : EventRevision) :
  latest_revision l = Some p →
  p ∈ l ∧ ∀ q, q ∈ l → revision_before p q = false.
Proof.
  revert p. induction l as [|x l IH]; intros p; [done|]. simpl.
  destruct (latest_revision l) as [best|] eqn:Hbest.
  - destruct (IH best eq_refl) as [Hin Hmax].
    destruct (revision_before best x) eqn:Hbx; intros [= <-].
    + split; [by left|]. intros q [->|Hq]%elem_of_cons.
      * apply revision_before_irrefl.
      * apply not_true_iff_false. intros Hxq.
        pose proof (revision_before_trans _ _ _ Hbx Hxq) as Hbq.
        by rewrite (Hmax q Hq) in Hbq.
    + split; [by right|]. intros q [->|Hq]%elem_of_cons; [done|by apply Hmax].
  - apply latest_revision_None in Hbest as ->. intros [= <-].
    split; [by left|]. intros q [->|Hq]%elem_of_cons.
    + apply revision_before_irrefl.
    + by apply elem_of_nil in Hq.
Qed.

(** C7.  [get_previous_by_created] raises [DoesNotExist] when no revision
    of the event comes before the given one in creation order, which is
    the case of the earliest revision.  When some revision of the event
    comes before it, the lookup returns one of them with no revision of
    the event between the two: the immediately preceding revision. *)
Theorem previous_revision_lookup (db : DB) (revision : EventRevision)
    (event : Event) :
  ((∀ q, q ∈ revisions db → revision_event q = event_id event →
         revision_before q revision = false) →
   get_previous_by_created db revision event = Raise DoesNotExist)
  ∧ (∀ q0, q0 ∈ revisions db → revision_event q0 = event_id event →
           revision_before q0 revision = true →
     ∃ p, get_previous_by_created db revision event = Ok p
          ∧ p ∈ revisions db
          ∧ revision_event p = event_id event
          ∧ revision_before p revision = true
          ∧ ∀ q, q ∈ revisions db → revision_event q = event_id event →
                 revision_before q revision = true →
                 revision_before p q = false).
Proof.
  unfold get_previous_by_created.
  set (earlier := filter _ (revisions db)).
  assert (∀ q, q ∈ earlier ↔
               (revision_event q = event_id event
                ∧ revision_before q revision = true) ∧ q ∈ revisions db)
    as Hearlier.
  { intros q. unfold earlier. by rewrite list_elem_of_filter. }
  split.
  - intros Hnone. replace earlier with (@nil EventRevision); [done|].
    symmetry. apply elem_of_nil_inv. intros q [[He Hb] Hq]%Hearlier.
    by rewrite (Hnone q Hq He) in Hb.
  - intros q0 Hq0 He0 Hb0.
    destruct (latest_revision earlier) as [p|] eqn:Hlatest.
    + apply latest_revision_Some in Hlatest as [Hp Hmax].
      apply Hearlier in Hp as [[He Hb] Hp].
      exists p. repeat split; try done.
      intros q Hq He' Hb'. apply Hmax, Hearlier. done.
    + apply latest_revision_None in Hlatest.
      assert (q0 ∈ earlier) as Hin by (by apply Hearlier).
      rewrite Hlatest in Hin. by apply elem_of_nil in Hin.
Qed.

(** The revision page of the earliest revision: the lookup error is not
    caught by the view. *)
Lemma revision_view_previous_lookup (db : DB) (event : Event)
    (revision : EventRevision) :
  filter (λ r, revision_event r = event_id event
               ∧ revision_pk r = revision_pk revision) (revisions db)
  = [revision] →
  revision_view_previous false db event (revision_pk revision)
  = match get_previous_by_created db revision event with
    | Ok p => Ok (inr p)
    | Raise e => Raise e
    end
  ∧ revision_view_previous true db event (revision_pk revision)
    = Ok (inl event).
Proof.
  intros Hget. unfold revision_view_previous, get_object_or_404.
  rewrite Hget. simpl. by destruct (get_previous_by_created _ _ _).
Qed.

(** ** Chapters *)

Lemma filter_fmap_preserving {A : Type} (P : A → Prop)
    `{∀ x, Decision (P x)} (f : A → A) (l : list A) :
  (∀ x, x ∈ l → P (f x) ↔ P x) →
  filter P (f <$> l) = f <$> filter P l.
Proof.
  induction l as [|x l IH]; intros Hf; [done|].
  assert (filter P (f <$> l) = f <$> filter P l) as IHl.
  { apply IH. intros y Hy. apply Hf. by right. }
  rewrite fmap_cons. destruct (decide (P x)) as [Hx|Hx].
  - rewrite !filter_cons_True, fmap_cons, IHl; try done.
    apply Hf; [by left|done].
  - rewrite !filter_cons_False, IHl; try done.
    intros Hfx. apply Hx. apply Hf; [by left|done].
Qed.

(** Saving a chapter that keeps its event and timestamp leaves every
    (event, timestamp) lookup with the rows it had, the saved row updated
    in place. *)
Lemma Chapter_filter_save (db : DB) (old new : Chapter) (event : Event)
    (timestamp : Z) :
  NoDup (chapter_id <$> chapters db) →
  old ∈ chapters db →
  chapter_id new = chapter_id old →
  chapter_event new = chapter_event old →
  chapter_timestamp new = chapter_timestamp old →
  Chapter_filter (chapter_save db new) event timestamp
  = (λ c, if bool_decide (chapter_id c = chapter_id new) then new else c)
      <$> Chapter_filter db event timestamp.
Proof.
  intros Hnd Hold Hid Hev Hts. unfold Chapter_filter, chapter_save.
  cbn [chapters set_chapters].
  apply (filter_fmap_preserving
           (λ c, chapter_event c = event_id event
                 ∧ chapter_timestamp c = timestamp)).
  intros x Hx. case_bool_decide as Hx_id; [|done].
  assert (x = old) as ->.
  { eapply (NoDup_fmap_elem_inj chapter_id); eauto. congruence. }
  by rewrite Hev, Hts.
Qed.

Lemma Chapter_filter_elem (db : DB) (event : Event) (timestamp : Z)
    (c : Chapter) :
  c ∈ Chapter_filter db event timestamp ↔
  (chapter_event c = event_id event ∧ chapter_timestamp c = timestamp)
  ∧ c ∈ chapters db.
Proof. unfold Chapter_filter. by rewrite list_elem_of_filter. Qed.

(** C9.  A valid chapter post is an upsert on (event, timestamp).  With at
    most one chapter stored for the pair, the post answers ok and exactly
    one chapter is stored for the pair afterwards, carrying the posted text
    and the posting user: the stored chapter updated in place when there
    was one, a new row otherwise.  No (event, timestamp) pair that had at
    most one chapter gets a second one. *)
Theorem chapter_post_is_upsert (is_active_default : bool)
    (request : ChapterRequest) (event : Event) (db : DB) (timestamp : Z)
    (text : string) :
  NoDup (chapter_id <$> chapters db) →
  creq_can_view request = true →
  can_edit_chapters request = true →
  creq_delete request = false →
  creq_cleaned_data request = Some (timestamp, text) →
  (length (Chapter_filter db event timestamp) ≤ 1)%nat →
  ∃ chapter db1,
    chapters_post is_active_default request event db
    = (Ok (JsonOk, [chapter_id chapter]), db1)
    ∧ Chapter_filter db1 event timestamp = [chapter]
    ∧ chapter_text chapter = text
    ∧ chapter_user chapter = user_id (creq_user request)
    ∧ (∀ old, Chapter_filter db event timestamp = [old] →
              chapter = set_chapter_text_user old text (creq_user request)
              ∧ chapters db1
                = (λ c, if bool_decide (c = old) then chapter else c)
                    <$> chapters db)
    ∧ (Chapter_filter db event timestamp = [] →
       chapters db1 = chapters db ++ [chapter])
    ∧ (∀ e ts, (length (Chapter_filter db e ts) ≤ 1)%nat →
               (length (Chapter_filter db1 e ts) ≤ 1)%nat).
Proof.
  intros Hnd Hview Hedit Hdelete Hcleaned Hone.
  unfold chapters_post, atomic, chapters_post_body.
  rewrite Hview, Hedit, Hdelete, Hcleaned. cbn [negb].
  destruct (Chapter_filter db event timestamp) as [|old [|? ?]] eqn:Hfilter;
    [| |simpl in Hone; lia]; cbn [objects_get].
  - (* no chapter yet: a new row *)
    set (new := mkChapter (fresh_pk (chapter_id <$> chapters db))
                  (event_id event) timestamp text
                  (user_id (creq_user request)) is_active_default).
    exists new, (set_chapters db (chapters db ++ [new])).
    assert (∀ e ts,
              Chapter_filter (set_chapters db (chapters db ++ [new])) e ts
              = Chapter_filter db e ts
                ++ filter (λ c, chapter_event c = event_id e
                                ∧ chapter_timestamp c = ts) [new]) as Happ.
    { intros e ts. unfold Chapter_filter. cbn [chapters set_chapters].
      apply filter_app. }
    split; [done|]. split.
    { rewrite Happ, Hfilter. by rewrite filter_cons_True. }
    split; [done|]. split; [done|]. split; [done|]. split; [done|].
    intros e ts Hle. rewrite Happ, length_app.
    destruct (decide (chapter_event new = event_id e
                      ∧ chapter_timestamp new = ts)) as [[He Hts]|Hne].
    + cbn in He, Hts. subst ts.
      assert (Chapter_filter db e timestamp
              = Chapter_filter db event timestamp) as ->.
      { unfold Chapter_filter. by rewrite He. }
      rewrite Hfilter. by rewrite filter_cons_True.
    + rewrite filter_cons_False by done. simpl. lia.
  - (* one chapter: updated in place *)
    assert (old ∈ Chapter_filter db event timestamp) as Hold
      by (rewrite Hfilter; by left).
    apply Chapter_filter_elem in Hold as [[Hev Hts] Hold].
    set (new := set_chapter_text_user old text (creq_user request)).
    assert (∀ e ts,
              Chapter_filter (chapter_save db new) e ts
              = (λ c, if bool_decide (chapter_id c = chapter_id new) then new
                      else c) <$> Chapter_filter db e ts) as Hsave.
    { intros e ts. by apply Chapter_filter_save with (old := old). }
    exists new, (chapter_save db new).
    split; [done|]. split.
    { rewrite Hsave, Hfilter. cbn [fmap list_fmap].
      by rewrite bool_decide_eq_true_2. }
    split; [done|]. split; [done|]. split.
    { intros ? [= <-]. split; [done|].
      unfold chapter_save. cbn [chapters set_chapters].
      apply list_fmap_ext. intros i c Hc%list_elem_of_lookup_2.
      case_bool_decide as Hid; case_bool_decide as Heq; try done.
      - exfalso. apply Heq.
        by eapply (NoDup_fmap_elem_inj chapter_id); eauto.
      - by subst. }
    split; [done|].
    intros e ts Hle. by rewrite Hsave, length_fmap.
Qed.

(** The listing shows chapters of the event that are active, and only
    those. *)
Lemma chapters_get_lists_active (request : ChapterRequest) (event : Event)
    (db : DB) (l : list ChapterEntry) (entry : ChapterEntry) :
  chapters_get request event db = JsonChapters l →
  entry ∈ l →
  ∃ c, c ∈ chapters db
       ∧ chapter_event c = event_id event
       ∧ chapter_is_active c = true
       ∧ entry = mkChapterEntry (chapter_timestamp c) (chapter_text c)
                   (chapter_user c).
Proof.
  unfold chapters_get.
  destruct (negb (creq_can_view request)); [done|].
  destruct (negb (can_edit_chapters request)); [done|].
  destruct (creq_all request); [|done].
  intros [= <-] (c & -> & Hc)%list_elem_of_fmap.
  apply list_elem_of_filter in Hc as [[He Ha] Hc]. by exists c.
Qed.

(** C10.  Deleting the chapter stored for (event, timestamp) answers ok and
    rewrites that one row with [is_active] off: its id, event, timestamp,
    text and user stay as they were, every other row is untouched and no
    row is removed.  The listing afterwards shows active chapters only, so
    the deleted chapter is not in it. *)
Theorem chapter_delete_is_soft (is_active_default : bool)
    (request : ChapterRequest) (event : Event) (db : DB) (timestamp : Z)
    (chapter : Chapter) :
  NoDup (chapter_id <$> chapters db) →
  creq_can_view request = true →
  can_edit_chapters request = true →
  creq_delete request = true →
  creq_timestamp request = Some timestamp →
  Chapter_filter db event timestamp = [chapter] →
  ∃ db1,
    chapters_post is_active_default request event db = (Ok (JsonOk, []), db1)
    ∧ chapters db1
      = (λ c, if bool_decide (c = chapter) then
                mkChapter (chapter_id chapter) (chapter_event chapter)
                  (chapter_timestamp chapter) (chapter_text chapter)
                  (chapter_user chapter) false
              else c) <$> chapters db
    ∧ length (chapters db1) = length (chapters db)
    ∧ (∀ l entry,
         chapters_get request event db1 = JsonChapters l → entry ∈ l →
         entry_timestamp entry ≠ timestamp
         ∧ ∃ c, c ∈ chapters db1 ∧ chapter_is_active c = true
                ∧ entry = mkChapterEntry (chapter_timestamp c)
                            (chapter_text c) (chapter_user c)).
Proof.
  intros Hnd Hview Hedit Hdelete Hts Hfilter.
  assert (chapter ∈ Chapter_filter db event timestamp) as Hin
    by (rewrite Hfilter; by left).
  apply Chapter_filter_elem in Hin as [[Hev Htime] Hin].
  set (deleted := set_chapter_is_active chapter false).
  assert (chapters (chapter_save db deleted)
          = (λ c, if bool_decide (c = chapter) then deleted else c)
              <$> chapters db) as Hrows.
  { unfold chapter_save. cbn [chapters set_chapters].
    apply list_fmap_ext. intros i c Hc%list_elem_of_lookup_2.
    cbn. case_bool_decide as Hid; case_bool_decide as Heq; try done.
    - exfalso. apply Heq.
      by eapply (NoDup_fmap_elem_inj chapter_id); eauto.
    - by subst. }
  exists (chapter_save db deleted).
  split.
  { unfold chapters_post, atomic, chapters_post_body, get_object_or_404.
    rewrite Hview, Hedit, Hdelete, Hts. cbn [negb mbind result_bind].
    by rewrite Hfilter. }
  split; [done|]. split; [by rewrite Hrows, length_fmap|].
  intros l entry Hget Hentry.
  destruct (chapters_get_lists_active _ _ _ _ _ Hget Hentry)
    as (c & Hc & Hce & Hactive & ->).
  split; [|by exists c].
  cbn. intros Hct.
  assert (c ∈ Chapter_filter (chapter_save db deleted) event timestamp)
    as Hcf by (by apply Chapter_filter_elem).
  rewrite (Chapter_filter_save db chapter deleted) in Hcf by done.
  rewrite Hfilter in Hcf. cbn [fmap list_fmap] in Hcf.
  rewrite bool_decide_eq_true_2 in Hcf by done.
  apply list_elem_of_singleton in Hcf. by subst c.
Qed.

(** ** What a conflict leaves behind *)

Lemma loop_event_and_revision_rows (previous : gmap string json)
    (has_file : bool) (l : list (string * pyval)) (st0 st : EditState) :
  foldM (process_field previous has_file) st0 l = Ok st →
  events (st_db st) = events (st_db st0)
  ∧ revisions (st_db st) = revisions (st_db st0).
Proof.
  revert st0. induction l as [|[key value] l IH]; intros st0 H.
  - by inv_ret H.
  - apply foldM_cons_Ok in H as (st1 & Hst1 & H).
    destruct (IH _ H) as [-> ->].
    apply process_field_step in Hst1 as (cur & st' & _ & Hfr & _ & -> & _).
    split; [apply (frame_events _ _ _ Hfr)|apply (frame_revisions _ _ _ Hfr)].
Qed.

(** X3.  Whenever the outcome is CONFLICT, the event row is as it was, and
    a baseline revision synthesized by the request stays in the table. *)
Lemma conflict_leaves_baseline (request : EditRequest) (event : Event)
    (cleaned_data : list (string * pyval)) (db db1 : DB)
    (conflict_errors : list string) :
  submit_edit request event cleaned_data db
  = Ok (CONFLICT conflict_errors, db1) →
  events db1 = events db
  ∧ (revisions_of db event = [] →
     revisions db1
     = revisions db
       ++ [(create_from_event db (req_now request) event None).2]).
Proof.
  unfold submit_edit, edit_fields. intros H.
  destruct (bool_decide (length (revisions_of db event) = 0%nat)) eqn:Hlen.
  - cbn [create_from_event] in H. inv_bind H.
    apply loop_event_and_revision_rows in Ha as [He Hr]. cbn in He, Hr.
    destruct (negb (bool_decide (st_conflict_errors a = []))).
    + inv_ret H. by rewrite He, Hr.
    + destruct (negb (bool_decide (st_changes a = ∅))); by inv_ret H.
  - apply bool_decide_eq_false in Hlen. inv_bind H.
    apply loop_event_and_revision_rows in Ha as [He Hr]. cbn in He, Hr.
    destruct (negb (bool_decide (st_conflict_errors a = []))).
    + inv_ret H. split; [done|]. intros Hnil. by rewrite Hnil in Hlen.
    + destruct (negb (bool_decide (st_changes a = ∅))); by inv_ret H.
Qed.

(** ** The properties on the sample data *)

(** C1.  A submission whose outcome is CONFLICT returns from [post] without
    raising, so [transaction.atomic] commits what the request wrote before
    the conflict was known: here the title conflicts with a stale baseline,
    and the committed database has the tag "bar" detached, a tag "baz"
    created and attached, and the synthesized baseline revision.  Only the
    event row is as it was. *)
Theorem conflict_outcome_is_committed :
  ∃ db1,
    post stale_request talk sample_db
    = (Ok (RenderEditForm (Some ["title"])), db1)
    ∧ events db1 = events sample_db
    ∧ tags sample_db = [tag_foo; tag_bar]
    ∧ tags db1 = [tag_foo; tag_bar; mkTag 3 "baz"]
    ∧ event_tags sample_db = [(1, 1); (1, 2)]
    ∧ event_tags db1 = [(1, 1); (1, 3)]
    ∧ revisions sample_db = []
    ∧ revisions db1
      = [mkEventRevision 1 1 100 None talk [1; 2] [1]].
Proof. eexists. repeat split; vm_compute; reflexivity. Qed.

(** Against C2 as stated: the baseline and the database hold the same tag
    ids, the relation iterates them in another order, and adding a tag is
    answered with a conflict on [tags]. *)
Lemma reordered_relation_conflicts :
  resolve_current_value false reordered_db talk "tags" None
  = Ok (Some (VList [2; 1]))
  ∧ add_tag_previous !! "tags" = Some (JList [1; 2])
  ∧ (list_to_set [2; 1] : gset Z) = list_to_set [1; 2]
  ∧ ∃ db1,
      submit_edit add_tag_request talk add_tag_cleaned_data reordered_db
      = Ok (CONFLICT ["tags"], db1).
Proof.
  split; [reflexivity|]. split; [reflexivity|]. split; [by vm_compute|].
  eexists. vm_compute. reflexivity.
Qed.

Lemma conflict_iff_baseline_differs_witness :
  ∃ st,
    edit_fields stale_previous false talk sample_db stale_cleaned_data = Ok st
    ∧ ∃ cur,
        resolve_current_value false sample_db talk "title" None
        = Ok (Some cur)
        ∧ ("title" ∈ st_conflict_errors st
           ↔ py_eqb (from_option of_json VNone (stale_previous !! "title"))
               cur = false).
Proof.
  eexists. split; [vm_compute; reflexivity|].
  apply (conflict_iff_baseline_differs stale_previous false talk sample_db
           stale_cleaned_data).
  - vm_compute. reflexivity.
  - apply (bool_decide_unpack _). vm_compute. exact I.
  - apply elem_of_dom. eexists. vm_compute. reflexivity.
  - discriminate.
Defined.

Lemma unchanged_field_never_conflicts_witness :
  ∃ st,
    edit_fields stale_previous false talk sample_db stale_cleaned_data = Ok st
    ∧ getattr talk "description" = Ok (VStr "A talk")
    ∧ stale_previous !! "description" = Some (JStr "An older talk")
    ∧ "description" ∉ st_conflict_errors st.
Proof.
  eexists. split; [vm_compute; reflexivity|].
  split; [reflexivity|]. split; [reflexivity|].
  apply (unchanged_field_never_conflicts stale_previous false talk sample_db
           stale_cleaned_data).
  - vm_compute. reflexivity.
  - apply not_elem_of_dom. vm_compute. reflexivity.
Defined.



(** A picture object is equal to no picture id, so posting back the
    event's own picture as an object, and nothing else, is recorded as a
    change of [picture] and saved with a new revision. *)
Example picture_object_is_a_change :
  ∃ changes db1,
    submit_edit
      (mkEditRequest alice true false (event_to_dict id pictured_db pictured_talk)
         (Some [("picture", VPicture chosen_picture)]) false 100)
      pictured_talk [("picture", VPicture chosen_picture)] pictured_db
    = Ok (CHANGED changes, db1)
    ∧ changes !! "picture" = Some (VInt 5, VPicture chosen_picture)
    ∧ length (revisions db1) = 2%nat.
Proof. eexists _, _. repeat split; vm_compute; reflexivity. Qed.

Lemma edit_title_scenario_witness :
  ∃ db1 baseline new,
    submit_edit title_request talk [("title", VStr "New")] sample_db
    = Ok (CHANGED {[ "title" := (VStr "Old", VStr "New") ]}, db1)
    ∧ post title_request talk sample_db = (Ok RedirectToEvent, db1)
    ∧ find_event db1 (event_id talk) = Some (set_title talk "New")
    ∧ revisions_of db1 talk = [baseline; new]
    ∧ revision_user baseline = None
    ∧ revision_fields baseline = talk
    ∧ revision_user new = Some (user_id (req_user title_request))
    ∧ revision_fields new = set_title talk "New".
Proof.
  apply (edit_title_scenario sample_db talk title_request); reflexivity.
Defined.

(** Against C8 as stated: a placeholder image is uploaded, the edit is
    saved, and the stored event still has its picture, because the client's
    baseline has no picture and so the override to [None] is no change. *)
Lemma upload_keeps_picture_of_stale_baseline :
  req_has_file upload_request = true
  ∧ picture pictured_talk = Some chosen_picture
  ∧ ∃ changes db1,
      submit_edit upload_request pictured_talk upload_cleaned_data pictured_db
      = Ok (CHANGED changes, db1)
      ∧ picture <$> find_event db1 (event_id pictured_talk)
        = Some (Some chosen_picture).
Proof.
  split; [reflexivity|]. split; [reflexivity|].
  eexists _, _. split; vm_compute; reflexivity.
Qed.

Lemma placeholder_upload_overrides_picture_witness :
  picture pictured_talk = Some chosen_picture
  ∧ req_previous current_upload_request !! "picture" = Some (JInt 5)
  ∧ ∃ changes db1,
      submit_edit current_upload_request pictured_talk upload_cleaned_data
        pictured_db
      = Ok (CHANGED changes, db1)
      ∧ (∀ v,
           submit_edit current_upload_request pictured_talk
             (dict_set "picture" v upload_cleaned_data) pictured_db
           = submit_edit current_upload_request pictured_talk
               (dict_set "picture" VNone upload_cleaned_data) pictured_db)
      ∧ ∃ saved,
          find_event db1 (event_id pictured_talk) = Some saved
          ∧ picture saved = None.
Proof.
  split; [reflexivity|]. split; [reflexivity|].
  eexists _, _. split; [vm_compute; reflexivity|].
  destruct (placeholder_upload_overrides_picture current_upload_request
              pictured_talk upload_cleaned_data pictured_db eq_refl)
    as [Hany Hcleared].
  split; [exact Hany|].
  eapply (Hcleared (JInt 5)).
  - apply (bool_decide_unpack _). vm_compute. exact I.
  - reflexivity.
  - discriminate.
  - vm_compute. reflexivity.
Defined.

Lemma tag_for_name_matches_witness :
  tag_name tag_foo = "foo"
  ∧ tag_for_name sample_db "FOO" = Ok (sample_db, tag_foo)
  ∧ ∃ db1 t,
      tag_for_name sample_db "FOO" = Ok (db1, t)
      ∧ add_tag_by_name talk sample_db "FOO"
        = Ok (event_tags_add talk db1 t)
      ∧ (filter (λ u, equal_ignoring_case (tag_name u) "FOO" = true)
           (tags sample_db)
         = [] →
         t = mkTag (fresh_pk (tag_id <$> tags sample_db)) "FOO"
         ∧ (tag_id t ∉ tag_id <$> tags sample_db)
         ∧ db1 = set_tags sample_db (tags sample_db ++ [t]))
      ∧ (filter (λ u, equal_ignoring_case (tag_name u) "FOO" = true)
           (tags sample_db)
         ≠ [] →
         head (filter (λ u, equal_ignoring_case (tag_name u) "FOO" = true)
                 (tags sample_db))
         = Some t
         ∧ t ∈ tags sample_db
         ∧ equal_ignoring_case (tag_name t) "FOO" = true
         ∧ db1 = sample_db).
Proof.
  split; [reflexivity|]. split; [reflexivity|].
  apply (tag_for_name_matches sample_db talk "FOO").
Defined.

Lemma chapter_post_is_upsert_witness :
  ∃ chapter db1,
    chapters_post true chapter_update_request talk sample_db
    = (Ok (JsonOk, [chapter_id chapter]), db1)
    ∧ Chapter_filter db1 talk 30 = [chapter]
    ∧ chapter_text chapter = "Welcome"
    ∧ chapter_user chapter = user_id (creq_user chapter_update_request)
    ∧ (∀ old, Chapter_filter sample_db talk 30 = [old] →
              chapter
              = set_chapter_text_user old "Welcome"
                  (creq_user chapter_update_request)
              ∧ chapters db1
                = (λ c, if bool_decide (c = old) then chapter else c)
                    <$> chapters sample_db)
    ∧ (Chapter_filter sample_db talk 30 = [] →
       chapters db1 = chapters sample_db ++ [chapter])
    ∧ (∀ e ts, (length (Chapter_filter sample_db e ts) ≤ 1)%nat →
               (length (Chapter_filter db1 e ts) ≤ 1)%nat).
Proof.
  apply (chapter_post_is_upsert true chapter_update_request talk sample_db 30
           "Welcome").
  - apply (bool_decide_unpack _). vm_compute. exact I.
  - reflexivity.
  - reflexivity.
  - reflexivity.
  - reflexivity.
  - vm_compute. lia.
Defined.

Lemma chapter_delete_is_soft_witness :
  ∃ db1,
    chapters_post true chapter_delete_request talk sample_db
    = (Ok (JsonOk, []), db1)
    ∧ chapters db1
      = (λ c, if bool_decide (c = intro_chapter) then
                mkChapter (chapter_id intro_chapter)
                  (chapter_event intro_chapter)
                  (chapter_timestamp intro_chapter)
                  (chapter_text intro_chapter) (chapter_user intro_chapter)
                  false
              else c) <$> chapters sample_db
    ∧ length (chapters db1) = length (chapters sample_db)
    ∧ (∀ l entry,
         chapters_get chapter_delete_request talk db1 = JsonChapters l →
         entry ∈ l →
         entry_timestamp entry ≠ 30
         ∧ ∃ c, c ∈ chapters db1 ∧ chapter_is_active c = true
                ∧ entry = mkChapterEntry (chapter_timestamp c)
                            (chapter_text c) (chapter_user c)).
Proof.
  apply (chapter_delete_is_soft true chapter_delete_request talk sample_db 30
           intro_chapter).
  - apply (bool_decide_unpack _). vm_compute. exact I.
  - reflexivity.
  - reflexivity.
  - reflexivity.
  - reflexivity.
  - reflexivity.
Defined.

(** * Further properties *)

(** ** Outcomes of a valid submission *)

Lemma py_set_eqb_diff_nil {A K : Type} `{EqDecision K} (same : A → A → bool)
    (key : A → K) (s t : list A) :
  (∀ x y, same x y = true ↔ key x = key y) →
  py_set_eqb same s t = true →
  py_diff same s t = [] ∧ py_diff same t s = [].
Proof.
  intros Hkey Heq. rewrite (py_set_eqb_true same key Hkey) in Heq.
  split; apply (py_diff_nil same key Hkey); intros x Hx; apply Heq;
    by apply list_elem_of_fmap_2.
Qed.

Lemma insert_not_empty (key : string) (c : pyval * pyval)
    (m : gmap string (pyval * pyval)) :
  <[key := c]> m ≠ ∅.
Proof. apply insert_non_empty. Qed.

Section NoChange.
Variable previous : gmap string json.
Variable has_file : bool.

Lemma compute_diff_no_change (key : string) (value : pyval)
    (st st1 : EditState) :
  compute_diff previous key value st = Ok st1 →
  st_changes st1 = ∅ →
  st_db st1 = st_db st.
Proof.
  unfold compute_diff. intros H Hempty.
  destruct (String.eqb key "channels").
  { unfold diff_channels in H. inv_bind H. inv_bind H. inv_bind H.
    inv_ret H. cbn [st_changes] in Hempty.
    destruct (py_set_eqb same_channel _ _) eqn:Heq;
      [|by apply insert_not_empty in Hempty].
    apply (py_set_eqb_diff_nil _ channel_pk) in Heq as [-> ->];
      [done|apply same_channel_key]. }
  destruct (String.eqb key "tags").
  { unfold diff_tags in H. inv_bind H. inv_bind H. inv_bind H. inv_bind H.
    inv_ret H. cbn [st_changes] in Hempty.
    destruct (py_set_eqb String.eqb _ _) eqn:Heq;
      [|by apply insert_not_empty in Hempty].
    apply (py_set_eqb_diff_nil _ id) in Heq as [Hd1 Hd2];
      [|apply string_eqb_key].
    rewrite Hd1 in Ha1. rewrite Hd2 in Ha2. cbn in Ha1, Ha2. congruence. }
  destruct (String.eqb key "placeholder_img").
  { unfold diff_placeholder_img in H.
    destruct (truthy value); [|by inv_ret H]. by destruct value; inv_ret H. }
  destruct (String.eqb key "event_id"); [by inv_ret H|].
  unfold diff_attribute in H. inv_bind H.
  destruct (negb _); [|by inv_ret H]. inv_bind H. by inv_ret H.
Qed.

Lemma process_field_no_change (item : string * pyval) (st st1 : EditState) :
  process_field previous has_file st item = Ok st1 →
  st_changes st1 = ∅ →
  st_db st1 = st_db st.
Proof.
  destruct item as [key value]. unfold process_field. intros H Hempty.
  inv_bind H. inv_bind H.
  assert (st_changes st1 = st_changes a0 ∧ st_db st1 = st_db a0) as [Hc Hd].
  { unfold detect_conflict in H. case_bool_decide; [|by inv_ret H].
    destruct (st_current_value a0); [|done].
    destruct (negb _); by inv_ret H. }
  rewrite Hd, (compute_diff_no_change _ _ _ _ Ha0) by congruence. done.
Qed.

Lemma loop_no_change (l : list (string * pyval)) (st0 st : EditState) :
  foldM (process_field previous has_file) st0 l = Ok st →
  st_changes st = ∅ →
  st_db st = st_db st0.
Proof.
  revert st0. induction l as [|item l IH]; intros st0 H Hempty.
  - by inv_ret H.
  - apply foldM_cons_Ok in H as (st1 & Hst1 & H).
    rewrite (IH _ H Hempty). apply (process_field_no_change _ _ _ Hst1).
    assert (dom (st_changes st1) ⊆ dom (st_changes st)) as Hsub.
    { clear -H. revert st1 H. induction l as [|i l IHl]; intros st1 H.
      - by inv_ret H.
      - apply foldM_cons_Ok in H as (st2 & Hst2 & H).
        etrans; [by eapply process_field_dom_mono|by apply IHl]. }
    rewrite Hempty, dom_empty_L in Hsub.
    apply dom_empty_iff_L. set_solver.
Qed.
End NoChange.

(** X1.  Whenever the outcome of a valid submission is NOOP the database
    is what it was before the request: no relation row, tag, event row or
    revision is written, and a baseline synthesized by the request is gone
    again. *)
Theorem noop_leaves_database (request : EditRequest) (event : Event)
    (cleaned_data : list (string * pyval)) (db db1 : DB) :
  submit_edit request event cleaned_data db = Ok (NOOP, db1) →
  db1 = db.
Proof.
  unfold submit_edit, edit_fields. intros H.
  pose proof (baseline_retracted db (req_now request) event) as Hbase.
  destruct (create_from_event db (req_now request) event None) as [db0 r].
  destruct Hbase as [Hdel _].
  case_bool_decide; inv_bind H; rename a into st;
    (destruct (negb (bool_decide (st_conflict_errors st = [])));
       [by inv_ret H|]);
    (destruct (bool_decide (st_changes st = ∅)) eqn:Hch;
       [apply bool_decide_eq_true in Hch|by inv_ret H]);
    apply (loop_no_change _ _ _ _ _ Ha) in Hch; cbn in Hch, H;
    cbv [mret result_ret] in H; injection H as <-; by rewrite Hch.
Qed.

Lemma noop_leaves_database_witness :
  ∃ db1,
    submit_edit same_request talk same_cleaned_data sample_db = Ok (NOOP, db1)
    ∧ db1 = sample_db.
Proof.
  eexists. split; [vm_compute; reflexivity|].
  apply (noop_leaves_database same_request talk same_cleaned_data sample_db).
  vm_compute. reflexivity.
Defined.

Lemma find_event_save_other (db : DB) (event : Event) (id : Z) :
  id ≠ event_id event →
  find_event (event_save db event) id = find_event db id.
Proof.
  intros Hne. unfold find_event, event_save. f_equal.
  case_bool_decide as Hin; cbn [events set_events].
  - clear Hin. induction (events db) as [|e l IH]; [done|].
    rewrite fmap_cons. case_bool_decide as He.
    + rewrite filter_cons_False by congruence.
      rewrite (filter_cons_False _ e) by congruence. apply IH.
    + destruct (decide (event_id e = id)).
      * by rewrite !filter_cons_True, IH.
      * by rewrite !filter_cons_False, IH.
  - rewrite filter_app, filter_cons_False, filter_nil, app_nil_r by congruence.
    done.
Qed.

Lemma revisions_event_save (db : DB) (event : Event) :
  revisions (event_save db event) = revisions db.
Proof. unfold event_save. by case_bool_decide. Qed.

(** X2.  Whenever the outcome is CHANGED, the change set is not empty, the
    event's row holds the edited event and no other event row moved, and
    the revision table grew by the baseline (only for an event without
    history) and by exactly one revision of the acting user, which
    snapshots the event as stored: its fields, tags and channels. *)
Theorem changed_adds_one_revision (request : EditRequest) (event : Event)
    (cleaned_data : list (string * pyval)) (db db1 : DB)
    (changes : gmap string (pyval * pyval)) :
  submit_edit request event cleaned_data db = Ok (CHANGED changes, db1) →
  changes ≠ ∅
  ∧ ∃ saved new,
      event_id saved = event_id event
      ∧ find_event db1 (event_id event) = Some saved
      ∧ (∀ id, id ≠ event_id event → find_event db1 id = find_event db id)
      ∧ revisions db1
        = revisions db
          ++ (if bool_decide (revisions_of db event = []) then
                [(create_from_event db (req_now request) event None).2]
              else [])
          ++ [new]
      ∧ revision_event new = event_id event
      ∧ revision_user new = Some (user_id (req_user request))
      ∧ revision_fields new = saved
      ∧ revision_tags new = tag_id <$> event_tags_all db1 saved
      ∧ revision_channels new = channel_pk <$> event_channels_all db1 saved.
Proof.
  unfold submit_edit, edit_fields. intros H.
  set (start := if bool_decide (length (revisions_of db event) = 0%nat)
                then _ else _) in H.
  assert (events start.1 = events db
          ∧ revisions start.1
            = revisions db
              ++ (if bool_decide (revisions_of db event = []) then
                    [(create_from_event db (req_now request) event None).2]
                  else [])) as [Hev0 Hrev0].
  { unfold start.
    destruct (revisions_of db event) as [|r l] eqn:Hrevs; cbn; [done|].
    by rewrite app_nil_r. }
  destruct start as [db0 base]. cbn [fst] in Hev0, Hrev0.
  inv_bind H. rename a into st.
  destruct (loop_event_and_revision_rows _ _ _ _ _ Ha) as [Hev Hrev].
  pose proof (loop_event_id _ _ _ _ _ Ha) as Hid. cbn in Hev, Hrev, Hid.
  destruct (negb (bool_decide (st_conflict_errors st = [])));
    [by inv_ret H|].
  destruct (bool_decide (st_changes st = ∅)) eqn:Hch;
    [destruct base; by inv_ret H|].
  apply bool_decide_eq_false in Hch. cbn in H.
  cbv [mret result_ret] in H. injection H as <- <-.
  split; [done|].
  eexists (st_event st), _. split; [done|].
  split.
  { rewrite <-Hid. apply (find_event_save (st_db st)). }
  split.
  { intros id Hne.
    transitivity (find_event (event_save (st_db st) (st_event st)) id);
      [reflexivity|].
    rewrite find_event_save_other by congruence.
    unfold find_event. by rewrite Hev, Hev0. }
  split.
  { transitivity (revisions (event_save (st_db st) (st_event st))
                  ++ [(create_from_event
                         (event_save (st_db st) (st_event st))
                         (req_now request) (st_event st)
                         (Some (req_user request))).2]); [reflexivity|].
    rewrite revisions_event_save, Hrev, Hrev0, <-app_assoc. reflexivity. }
  done.
Qed.

Lemma changed_adds_one_revision_witness :
  ∃ changes db1,
    submit_edit title_request talk [("title", VStr "New")] sample_db
    = Ok (CHANGED changes, db1)
    ∧ changes ≠ ∅
    ∧ ∃ saved new,
        event_id saved = event_id talk
        ∧ find_event db1 (event_id talk) = Some saved
        ∧ (∀ id, id ≠ event_id talk →
                 find_event db1 id = find_event sample_db id)
        ∧ revisions db1
          = revisions sample_db
            ++ (if bool_decide (revisions_of sample_db talk = []) then
                  [(create_from_event sample_db (req_now title_request) talk
                      None).2]
                else [])
            ++ [new]
        ∧ revision_event new = event_id talk
        ∧ revision_user new = Some (user_id (req_user title_request))
        ∧ revision_fields new = saved
        ∧ revision_tags new = tag_id <$> event_tags_all db1 saved
        ∧ revision_channels new
          = channel_pk <$> event_channels_all db1 saved.
Proof.
  eexists _, _. split; [vm_compute; reflexivity|].
  apply (changed_adds_one_revision title_request talk
           [("title", VStr "New")] sample_db).
  vm_compute. reflexivity.
Defined.

Lemma conflict_leaves_baseline_witness :
  ∃ db1,
    submit_edit stale_request talk stale_cleaned_data sample_db
    = Ok (CONFLICT ["title"], db1)
    ∧ events db1 = events sample_db
    ∧ (revisions_of sample_db talk = [] →
       revisions db1
       = revisions sample_db
         ++ [(create_from_event sample_db (req_now stale_request) talk
                None).2]).
Proof.
  eexists. split; [vm_compute; reflexivity|].
  apply (conflict_leaves_baseline stale_request talk stale_cleaned_data
           sample_db _ ["title"]).
  vm_compute. reflexivity.
Defined.

(** ** The keys of [changes] and [conflict_errors] *)

Section Keys.
Variable previous : gmap string json.
Variable has_file : bool.

Lemma loop_keys (l : list (string * pyval)) (st0 st : EditState) :
  foldM (process_field previous has_file) st0 l = Ok st →
  (∃ cs, st_conflict_errors st = st_conflict_errors st0 ++ cs
         ∧ cs `sublist_of` l.*1)
  ∧ ∀ k, k ∈ dom (st_changes st) → k ∈ dom (st_changes st0) ∨ k ∈ l.*1.
Proof.
  revert st0. induction l as [|[key value] l IH]; intros st0 H.
  - inv_ret H. split; [|by left]. exists []. by rewrite app_nil_r.
  - apply foldM_cons_Ok in H as (st1 & Hst1 & H).
    destruct (IH _ H) as [(cs & Hcs & Hsub) Hdom].
    pose proof (process_field_dom_other previous has_file key) as Hother.
    apply process_field_step in Hst1 as Hstep.
    destruct Hstep as (cur & st' & _ & _ & _ & _ & _ & _ & _ & Hce).
    rewrite fmap_cons. cbn [fst]. split.
    + rewrite Hcs, Hce, <-app_assoc. eexists. split; [reflexivity|].
      case_bool_decide; [|by apply sublist_cons].
      destruct cur as [c|]; [|by apply sublist_cons].
      destruct (baseline_differs _ _ _);
        [by apply sublist_skip|by apply sublist_cons].
    + intros k Hk. destruct (decide (k = key)) as [->|Hne];
        [right; by left|].
      destruct (Hdom k Hk) as [Hk1|Hk1]; [|right; by right].
      left. by apply (Hother k value st0 st1 Hst1 Hne).
Qed.
End Keys.

(** X4.  When the loop ends, [conflict_errors] lists submitted keys in the
    order they were processed, each at most once for a dict, and every key
    of [changes] is a submitted key; [event_id] is in neither. *)
Theorem edit_fields_keys (previous : gmap string json) (has_file : bool)
    (event : Event) (db : DB) (cleaned_data : list (string * pyval))
    (st : EditState) :
  edit_fields previous has_file event db cleaned_data = Ok st →
  st_conflict_errors st `sublist_of` cleaned_data.*1
  ∧ (NoDup cleaned_data.*1 → NoDup (st_conflict_errors st))
  ∧ (∀ k, k ∈ dom (st_changes st) → k ∈ cleaned_data.*1 ∧ k ≠ "event_id")
  ∧ "event_id" ∉ st_conflict_errors st.
Proof.
  intros H.
  destruct (loop_keys previous has_file _ _ _ H) as [(cs & Hcs & Hsub) Hdom].
  cbn in Hcs, Hdom. rewrite Hcs.
  assert ("event_id" ∉ dom (st_changes st)) as Hid.
  { intros Hin. apply loop_event_id_not_changed in H; [|done].
    cbn in H. by apply not_elem_of_dom in H. }
  split; [done|]. split; [intros Hnd; by eapply sublist_NoDup|]. split.
  - intros k Hk. split; [|by intros ->].
    destruct (Hdom k Hk) as [Hk0|?]; [|done]. by apply not_elem_of_dom in Hk0.
  - rewrite <-Hcs. intros Hin. apply Hid.
    eapply loop_conflicts_in_changes; [exact H| |exact Hin].
    cbn. intros k Hk. by apply elem_of_nil in Hk.
Qed.

Lemma edit_fields_keys_witness :
  ∃ st,
    edit_fields stale_previous false talk sample_db stale_cleaned_data = Ok st
    ∧ st_conflict_errors st `sublist_of` stale_cleaned_data.*1
    ∧ (NoDup stale_cleaned_data.*1 → NoDup (st_conflict_errors st))
    ∧ (∀ k, k ∈ dom (st_changes st) →
            k ∈ stale_cleaned_data.*1 ∧ k ≠ "event_id")
    ∧ "event_id" ∉ st_conflict_errors st.
Proof.
  eexists. split; [vm_compute; reflexivity|].
  apply (edit_fields_keys stale_previous false talk sample_db
           stale_cleaned_data).
  vm_compute. reflexivity.
Defined.

(** ** What an edit leaves alone *)

Lemma edit_scope_refl (eid : Z) (db : DB) : edit_scope eid db db.
Proof. split; try done. exists []. by rewrite app_nil_r. Qed.

Lemma edit_scope_trans (eid : Z) (db db1 db2 : DB) :
  edit_scope eid db db1 → edit_scope eid db1 db2 → edit_scope eid db db2.
Proof.
  intros [Hc Hch [n Ht] Hid Het Hec] [Hc' Hch' [n' Ht'] Hid' Het' Hec'].
  split; try congruence.
  - exists (n ++ n'). by rewrite Ht', Ht, app_assoc.
  - auto.
Qed.

Lemma filter_others_remove (eid x : Z) (rows : list (Z * Z)) :
  filter (λ row : Z * Z, row.1 ≠ eid)
    (filter (λ row, row ≠ (eid, x)) rows)
  = filter (λ row : Z * Z, row.1 ≠ eid) rows.
Proof.
  induction rows as [|row rows IH]; [done|].
  destruct (decide (row.1 ≠ eid)) as [Hne|He].
  - rewrite (filter_cons_True (λ row, row ≠ (eid, x)))
      by (intros ->; by apply Hne).
    by rewrite !filter_cons_True, IH.
  - rewrite (filter_cons_False (λ row : Z * Z, row.1 ≠ eid) row) by done.
    destruct (decide (row ≠ (eid, x))).
    + rewrite filter_cons_True, filter_cons_False; done.
    + by rewrite filter_cons_False.
Qed.

Lemma filter_others_add (eid x : Z) (rows : list (Z * Z)) :
  filter (λ row : Z * Z, row.1 ≠ eid) (rows ++ [(eid, x)])
  = filter (λ row : Z * Z, row.1 ≠ eid) rows.
Proof.
  rewrite filter_app, filter_cons_False, filter_nil, app_nil_r; [done|].
  cbn. auto.
Qed.

Lemma event_channels_remove_scope (event : Event) (db : DB) (c : Channel) :
  edit_scope (event_id event) db (event_channels_remove event db c).
Proof.
  split; try done.
  - exists []. by rewrite app_nil_r.
  - apply filter_others_remove.
Qed.

Lemma event_channels_add_scope (event : Event) (db : DB) (c : Channel) :
  edit_scope (event_id event) db (event_channels_add event db c).
Proof.
  unfold event_channels_add. case_bool_decide; [apply edit_scope_refl|].
  split; try done.
  - exists []. by rewrite app_nil_r.
  - apply filter_others_add.
Qed.

Lemma event_tags_remove_scope (event : Event) (db : DB) (t : Tag) :
  edit_scope (event_id event) db (event_tags_remove event db t).
Proof.
  split; try done.
  - exists []. by rewrite app_nil_r.
  - apply filter_others_remove.
Qed.

Lemma event_tags_add_scope (event : Event) (db : DB) (t : Tag) :
  edit_scope (event_id event) db (event_tags_add event db t).
Proof.
  unfold event_tags_add. case_bool_decide; [apply edit_scope_refl|].
  split; try done.
  - exists []. by rewrite app_nil_r.
  - apply filter_others_add.
Qed.

Lemma Tag_create_scope (eid : Z) (db : DB) (name : string) :
  edit_scope eid db (Tag_create db name).1.
Proof.
  split; try done.
  - by eexists.
  - cbn. intros Hnd. rewrite fmap_app. apply NoDup_app.
    split; [done|]. split; [|apply NoDup_singleton].
    intros x Hx [->|[]%elem_of_nil]%elem_of_cons.
    by apply fresh_pk_not_in in Hx.
Qed.

Lemma foldl_scope {B : Type} (eid : Z) (f : DB → B → DB) (l : list B)
    (db : DB) :
  (∀ d x, edit_scope eid d (f d x)) → edit_scope eid db (foldl f db l).
Proof.
  intros Hf. revert db. induction l as [|x l IH]; intros db; cbn.
  - apply edit_scope_refl.
  - eapply edit_scope_trans; [apply Hf|apply IH].
Qed.

Lemma foldM_scope {B : Type} (eid : Z) (f : DB → B → result DB) (l : list B)
    (db db1 : DB) :
  (∀ d d1 x, f d x = Ok d1 → edit_scope eid d d1) →
  foldM f db l = Ok db1 → edit_scope eid db db1.
Proof.
  intros Hf. revert db. induction l as [|x l IH]; intros db H.
  - inv_ret H. apply edit_scope_refl.
  - apply foldM_cons_Ok in H as (d & Hd & H).
    eapply edit_scope_trans; [by eapply Hf|by apply IH].
Qed.

Lemma add_tag_by_name_scope (event : Event) (db db1 : DB) (tag : string) :
  add_tag_by_name event db tag = Ok db1 →
  edit_scope (event_id event) db db1.
Proof.
  unfold add_tag_by_name. intros H. inv_bind H. destruct a as [db0 t].
  inv_ret H.
  eapply edit_scope_trans; [|apply event_tags_add_scope].
  unfold tag_for_name in Ha.
  destruct (objects_get _) as [?|[]]; simplify_eq/=;
    try apply edit_scope_refl.
  - apply (Tag_create_scope _ db tag).
  - destruct (take 1 _) as [|? []]; simplify_eq/=. apply edit_scope_refl.
Qed.

Lemma remove_tag_by_name_scope (event : Event) (db db1 : DB) (tag : string) :
  remove_tag_by_name event db tag = Ok db1 →
  edit_scope (event_id event) db db1.
Proof.
  unfold remove_tag_by_name. intros H. inv_bind H. inv_ret H.
  apply event_tags_remove_scope.
Qed.

Lemma compute_diff_scope (previous : gmap string json) (key : string)
    (value : pyval) (st st1 : EditState) :
  compute_diff previous key value st = Ok st1 →
  edit_scope (event_id (st_event st)) (st_db st) (st_db st1).
Proof.
  unfold compute_diff. intros H.
  destruct (String.eqb key "channels").
  { unfold diff_channels in H. inv_bind H. inv_bind H. inv_bind H.
    inv_ret H.
    eapply edit_scope_trans.
    - apply (foldl_scope _ (event_channels_remove (st_event st))).
      apply event_channels_remove_scope.
    - apply (foldl_scope _ (event_channels_add (st_event st))).
      apply event_channels_add_scope. }
  destruct (String.eqb key "tags").
  { unfold diff_tags in H. inv_bind H. inv_bind H. inv_bind H. inv_bind H.
    inv_ret H.
    eapply edit_scope_trans.
    - eapply (foldM_scope _ (remove_tag_by_name (st_event st)));
        [|exact Ha1].
      intros ???. apply remove_tag_by_name_scope.
    - eapply (foldM_scope _ (add_tag_by_name (st_event st))); [|exact Ha2].
      intros ???. apply add_tag_by_name_scope. }
  destruct (String.eqb key "placeholder_img").
  { unfold diff_placeholder_img in H.
    destruct (truthy value); [|inv_ret H; apply edit_scope_refl].
    destruct value; inv_ret H. apply edit_scope_refl. }
  destruct (String.eqb key "event_id"); [inv_ret H; apply edit_scope_refl|].
  unfold diff_attribute in H. inv_bind H.
  destruct (negb _); [|inv_ret H; apply edit_scope_refl].
  inv_bind H. inv_ret H. apply edit_scope_refl.
Qed.

Lemma loop_scope (previous : gmap string json) (has_file : bool)
    (l : list (string * pyval)) (st0 st : EditState) :
  foldM (process_field previous has_file) st0 l = Ok st →
  edit_scope (event_id (st_event st0)) (st_db st0) (st_db st).
Proof.
  revert st0. induction l as [|[key value] l IH]; intros st0 H.
  - inv_ret H. apply edit_scope_refl.
  - apply foldM_cons_Ok in H as (st1 & Hst1 & H).
    pose proof (process_field_event _ _ _ _ _ Hst1) as [Hid _].
    specialize (IH _ H). rewrite Hid in IH.
    eapply edit_scope_trans; [|exact IH].
    unfold process_field in Hst1. inv_bind Hst1. inv_bind Hst1.
    apply compute_diff_scope in Ha0. cbn in Ha0.
    replace (st_db st1) with (st_db a0); [done|].
    unfold detect_conflict in Hst1. case_bool_decide; [|by inv_ret Hst1].
    destruct (st_current_value a0); [|done].
    destruct (negb _); by inv_ret Hst1.
Qed.

Lemma event_save_scope (eid : Z) (db : DB) (event : Event) :
  edit_scope eid db (event_save db event).
Proof.
  unfold event_save. case_bool_decide; split; try done;
    exists []; by rewrite app_nil_r.
Qed.

Lemma set_revisions_scope (eid : Z) (db : DB) (l : list EventRevision) :
  edit_scope eid db (set_revisions db l).
Proof. split; try done. exists []. by rewrite app_nil_r. Qed.

(** X5.  A valid submission for one event, whatever its outcome, leaves
    the channel table and the chapters as they are, only appends to the tag
    table (keeping tag ids distinct), does not touch the tag and channel
    rows of any other event, and only appends to the revision table. *)
Theorem submit_edit_scope (request : EditRequest) (event : Event)
    (cleaned_data : list (string * pyval)) (db db1 : DB) (o : outcome) :
  submit_edit request event cleaned_data db = Ok (o, db1) →
  edit_scope (event_id event) db db1
  ∧ revisions db `prefix_of` revisions db1.
Proof.
  unfold submit_edit, edit_fields. intros H.
  pose proof (baseline_retracted db (req_now request) event) as Hbase.
  set (start := if bool_decide (length (revisions_of db event) = 0%nat)
                then _ else _) in H.
  assert (edit_scope (event_id event) db start.1
          ∧ revisions db `prefix_of` revisions start.1
          ∧ ∀ r, start.2 = Some r → revision_delete start.1 r = db)
    as (Hsc0 & Hrev0 & Hdel).
  { unfold start. destruct (create_from_event _ _ _ _) as [d r].
    destruct Hbase as [Hdel ->]. case_bool_decide; cbn.
    - split; [|split; [by eexists|by intros ? [= <-]]].
      split; try done. exists []. by rewrite app_nil_r.
    - split; [apply edit_scope_refl|]. split; [done|]. intros ? [=]. }
  destruct start as [db0 base]. cbn [fst snd] in *.
  inv_bind H. rename a into st.
  destruct (loop_event_and_revision_rows _ _ _ _ _ Ha) as [Hev Hrev].
  pose proof (loop_event_id _ _ _ _ _ Ha) as Hid.
  pose proof (loop_no_change _ _ _ _ _ Ha) as Hnc.
  apply loop_scope in Ha. cbn in Hev, Hrev, Hid, Hnc, Ha.
  assert (edit_scope (event_id event) db (st_db st)) as Hsc
    by (by eapply edit_scope_trans).
  destruct (negb (bool_decide (st_conflict_errors st = []))).
  { inv_ret H. split; [done|]. by rewrite Hrev. }
  destruct (bool_decide (st_changes st = ∅)) eqn:Hch; cbn in H.
  - apply bool_decide_eq_true in Hch. specialize (Hnc Hch).
    destruct base as [r|]; cbv [mret result_ret] in H; injection H as <- <-.
    + rewrite Hnc, (Hdel r eq_refl). split; [apply edit_scope_refl|done].
    + split; [done|by rewrite Hrev].
  - cbv [mret result_ret] in H. injection H as <- <-. split.
    + eapply edit_scope_trans; [exact Hsc|].
      eapply edit_scope_trans; [apply (event_save_scope _ _ (st_event st))|].
      apply set_revisions_scope.
    + cbn [revisions create_from_event set_revisions].
      rewrite revisions_event_save, Hrev. by apply prefix_app_r.
Qed.

Lemma submit_edit_scope_witness :
  ∃ db1,
    submit_edit stale_request talk stale_cleaned_data sample_db
    = Ok (CONFLICT ["title"], db1)
    ∧ edit_scope (event_id talk) sample_db db1
    ∧ revisions sample_db `prefix_of` revisions db1.
Proof.
  eexists. split; [vm_compute; reflexivity|].
  apply (submit_edit_scope stale_request talk stale_cleaned_data sample_db _
           (CONFLICT ["title"])).
  vm_compute. reflexivity.
Defined.

(** ** Applying the channel diff *)

Lemma head_filter_Some {A : Type} (P : A → Prop) `{∀ x, Decision (P x)}
    (l : list A) (x : A) :
  x ∈ l → P x → ∃ y, head (filter P l) = Some y.
Proof.
  intros Hx HP. assert (x ∈ filter P l) as Hin by (by apply list_elem_of_filter).
  destruct (filter P l) as [|y r]; [by apply elem_of_nil in Hin|by exists y].
Qed.

Lemma event_channels_all_pks (db : DB) (event : Event) (pk : Z) :
  pk ∈ channel_pk <$> event_channels_all db event ↔
  (event_id event, pk) ∈ event_channels db
  ∧ pk ∈ channel_pk <$> channels db.
Proof.
  unfold event_channels_all. rewrite list_elem_of_fmap. split.
  - intros (c & -> & ([e x] & Hrow & Hc)%list_elem_of_omap).
    cbn in Hc. case_bool_decide as He; [|done]. subst e.
    apply head_filter_elem in Hc as [<- Hin].
    split; [done|by apply list_elem_of_fmap_2].
  - intros [Hrow (c & -> & Hc)%list_elem_of_fmap].
    destruct (head_filter_Some (λ d, channel_pk d = channel_pk c)
                (channels db) c Hc eq_refl) as [d Hd].
    exists d. split.
    + by apply head_filter_elem in Hd as [? _].
    + apply list_elem_of_omap. eexists. split; [exact Hrow|].
      cbn. by rewrite bool_decide_eq_true_2.
Qed.

Lemma foldl_remove_rows (event : Event) (l : list Channel) (db : DB)
    (row : Z * Z) :
  row ∈ event_channels (foldl (event_channels_remove event) db l) ↔
  row ∈ event_channels db
  ∧ ∀ c, c ∈ l → row ≠ (event_id event, channel_pk c).
Proof.
  revert db. induction l as [|c l IH]; intros db; cbn [foldl].
  - split; [|by intros [? _]]. intros ?. split; [done|].
    intros c Hc. by apply elem_of_nil in Hc.
  - rewrite IH. cbn [event_channels event_channels_remove
                     set_event_channels]. rewrite list_elem_of_filter.
    split.
    + intros [[Hne Hin] Hl]. split; [done|].
      intros d [->|Hd]%elem_of_cons; auto.
    + intros [Hin Hl]. split; [split; [|done]|].
      * apply Hl. by left.
      * intros d Hd. apply Hl. by right.
Qed.

Lemma foldl_add_rows (event : Event) (l : list Channel) (db : DB)
    (row : Z * Z) :
  row ∈ event_channels (foldl (event_channels_add event) db l) ↔
  row ∈ event_channels db
  ∨ ∃ c, c ∈ l ∧ row = (event_id event, channel_pk c).
Proof.
  revert db. induction l as [|c l IH]; intros db; cbn [foldl].
  - split; [by left|]. intros [?|(c & Hc & _)]; [done|].
    by apply elem_of_nil in Hc.
  - rewrite IH.
    assert (row ∈ event_channels (event_channels_add event db c) ↔
            row ∈ event_channels db ∨ row = (event_id event, channel_pk c))
      as ->.
    { unfold event_channels_add. case_bool_decide as Hin; cbn.
      - split; [by left|]. intros [?|Heq]; [done|by subst].
      - rewrite elem_of_app, list_elem_of_singleton. done. }
    split.
    + intros [[?|Heq]|(d & Hd & Heq)]; subst; [by left| |].
      * right. exists c. split; [by left|done].
      * right. exists d. split; [by right|done].
    + intros [?|(d & [->|Hd]%elem_of_cons & ->)].
      * by left; left.
      * by left; right.
      * right. by exists d.
Qed.

Lemma py_diff_elem {A K : Type} `{EqDecision K} (same : A → A → bool)
    (key : A → K) (s t : list A) (x : A) :
  (∀ x y, same x y = true ↔ key x = key y) →
  x ∈ py_diff same s t ↔ x ∈ s ∧ key x ∉ key <$> t.
Proof.
  intros Hkey. unfold py_diff. rewrite list_elem_of_filter.
  rewrite <-(py_in_true same key Hkey), not_true_iff_false. tauto.
Qed.

Lemma mapR_get_channels (db : DB) (ids : list Z) (objs : list Channel) :
  mapR (λ x, objects_get (Channel_filter_pk db x)) ids = Ok objs →
  channel_pk <$> objs = ids.
Proof.
  revert objs. induction ids as [|x ids IH]; intros objs H.
  - by inv_ret H.
  - cbn [mapR] in H. inv_bind H. inv_bind H. injection H as <-.
    rewrite fmap_cons, (IH _ Ha0). f_equal.
    unfold objects_get, Channel_filter_pk in Ha.
    destruct (filter _ _) as [|c [|? ?]] eqn:Hf; try done.
    inv_ret Ha.
    assert (a ∈ filter (λ c, channel_pk c = x) (channels db)) as Hin
      by (rewrite Hf; by left).
    by apply list_elem_of_filter in Hin as [? _].
Qed.

(** Lines 162-171 on a baseline that lists the channels the event has: the
    event's channels become the submitted ones. *)
Lemma diff_channels_applies (previous : gmap string json)
    (cs : list Channel) (st st1 : EditState) :
  diff_channels previous (VChannels cs) st = Ok st1 →
  previous !! "channels"
  = Some (JList (channel_pk
                   <$> event_channels_all (st_db st) (st_event st))) →
  (∀ c, c ∈ cs → channel_pk c ∈ channel_pk <$> channels (st_db st)) →
  ∀ pk,
    pk ∈ channel_pk <$> event_channels_all (st_db st1) (st_event st1)
    ↔ pk ∈ channel_pk <$> cs.
Proof.
  unfold diff_channels, previous_ids, previous_item. intros H Hprev Hcs pk.
  rewrite Hprev in H. cbn [mbind result_bind] in H.
  inv_bind H. rename a into prev_objs. cbn [mbind result_bind] in H.
  inv_ret H. cbn [st_db st_event].
  apply mapR_get_channels in Ha.
  set (prev := py_set same_channel prev_objs).
  set (new := py_set same_channel cs).
  set (db1 := foldl (event_channels_remove _) _ _).
  set (db2 := foldl (event_channels_add _) _ _).
  assert (channels db2 = channels (st_db st)) as Hchan.
  { destruct (foldl_only_event_channels
                (event_channels_remove (st_event st))
                (py_diff same_channel prev new) (st_db st)
                (event_channels_remove_only _)) as (_ & _ & Hc1 & _).
    destruct (foldl_only_event_channels
                (event_channels_add (st_event st))
                (py_diff same_channel new prev) db1
                (event_channels_add_only _)) as (_ & _ & Hc2 & _).
    unfold db2. by rewrite Hc2, <-Hc1. }
  assert (∀ k, k ∈ channel_pk <$> prev
               ↔ (event_id (st_event st), k) ∈ event_channels (st_db st)
                 ∧ k ∈ channel_pk <$> channels (st_db st)) as Hprevk.
  { intros k. unfold prev.
    rewrite (py_set_keys same_channel channel_pk same_channel_key), Ha.
    apply event_channels_all_pks. }
  assert (∀ k, k ∈ channel_pk <$> new ↔ k ∈ channel_pk <$> cs) as Hnewk.
  { intros k. unfold new.
    apply (py_set_keys same_channel channel_pk same_channel_key). }
  rewrite event_channels_all_pks, Hchan. unfold db2.
  rewrite foldl_add_rows. unfold db1. rewrite foldl_remove_rows.
  split.
  - intros [[[Hrow Hkeep]|(c & Hc & [= ->])] Htable].
    + destruct (decide (pk ∈ channel_pk <$> new)) as [Hin|Hout];
        [by apply Hnewk|].
      exfalso.
      assert (pk ∈ channel_pk <$> prev) as (c & -> & Hc)%list_elem_of_fmap
        by (by apply Hprevk).
      apply (Hkeep c); [|done].
      by apply (py_diff_elem same_channel channel_pk _ _ _ same_channel_key).
    + apply (py_diff_elem same_channel channel_pk _ _ _ same_channel_key)
        in Hc as [Hc _].
      apply Hnewk. by apply list_elem_of_fmap_2.
  - intros Hpk.
    assert (pk ∈ channel_pk <$> channels (st_db st)) as Htable.
    { apply list_elem_of_fmap in Hpk as (c & -> & Hc). by apply Hcs. }
    split; [|done].
    destruct (decide (pk ∈ channel_pk <$> prev)) as [Hin|Hout].
    + left. split; [by apply Hprevk in Hin as [? _]|].
      intros c Hc [= ->].
      apply (py_diff_elem same_channel channel_pk _ _ _ same_channel_key)
        in Hc as [_ Hc].
      apply Hc. by apply Hnewk.
    + right. apply Hnewk, list_elem_of_fmap in Hpk as (c & -> & Hc).
      exists c. split; [|done].
      by apply (py_diff_elem same_channel channel_pk _ _ _ same_channel_key).
Qed.

Section ChannelsLoop.
Variable previous : gmap string json.
Variable has_file : bool.

Lemma process_field_channels_kept (key : string) (value : pyval)
    (st st1 : EditState) :
  process_field previous has_file st (key, value) = Ok st1 →
  channels (st_db st1) = channels (st_db st)
  ∧ (key ≠ "channels" →
     event_channels_all (st_db st1) (st_event st1)
     = event_channels_all (st_db st) (st_event st)).
Proof.
  intros H.
  apply process_field_step in H as (cur & st' & _ & Hfr & -> & -> & _).
  split; [apply (frame_channels _ _ _ Hfr)|].
  intros Hne. apply event_channels_all_ext.
  - apply (frame_channels _ _ _ Hfr).
  - by apply (frame_event_channels _ _ _ Hfr).
  - apply (frame_event_id _ _ _ Hfr).
Qed.

Lemma loop_channels_kept (l : list (string * pyval)) (st0 st : EditState) :
  foldM (process_field previous has_file) st0 l = Ok st →
  channels (st_db st) = channels (st_db st0)
  ∧ ("channels" ∉ l.*1 →
     event_channels_all (st_db st) (st_event st)
     = event_channels_all (st_db st0) (st_event st0)).
Proof.
  revert st0. induction l as [|[key value] l IH]; intros st0 H.
  - by inv_ret H.
  - apply foldM_cons_Ok in H as (st1 & Hst1 & H).
    destruct (IH _ H) as [Hc Hall].
    destruct (process_field_channels_kept _ _ _ _ Hst1) as [Hc1 Hall1].
    split; [congruence|].
    rewrite fmap_cons, not_elem_of_cons. cbn [fst]. intros [Hne Hl].
    rewrite Hall, Hall1; done.
Qed.

Lemma loop_channels_applied (l : list (string * pyval)) (cs : list Channel)
    (st0 st : EditState) :
  foldM (process_field previous has_file) st0 l = Ok st →
  NoDup l.*1 →
  ("channels", VChannels cs) ∈ l →
  previous !! "channels"
  = Some (JList (channel_pk
                   <$> event_channels_all (st_db st0) (st_event st0))) →
  (∀ c, c ∈ cs → channel_pk c ∈ channel_pk <$> channels (st_db st0)) →
  ∀ pk,
    pk ∈ channel_pk <$> event_channels_all (st_db st) (st_event st)
    ↔ pk ∈ channel_pk <$> cs.
Proof.
  revert st0.
  induction l as [|[key value] l IH]; intros st0 H Hnd Hin Hprev Hcs pk.
  - by apply elem_of_nil in Hin.
  - apply foldM_cons_Ok in H as (st1 & Hst1 & H).
    rewrite fmap_cons in Hnd. apply NoDup_cons in Hnd as [Hk Hnd].
    cbn [fst] in Hk.
    apply elem_of_cons in Hin as [[= <- <-]|Hin].
    + destruct (loop_channels_kept _ _ _ H) as [_ Hkept].
      rewrite (Hkept Hk).
      unfold process_field in Hst1. inv_bind Hst1. inv_bind Hst1.
      unfold compute_diff in Ha0. cbn [String.eqb Ascii.eqb Bool.eqb] in Ha0.
      assert (st_db st1 = st_db a0 ∧ st_event st1 = st_event a0) as [-> ->].
      { unfold detect_conflict in Hst1.
        case_bool_decide; [|by inv_ret Hst1].
        destruct (st_current_value a0); [|done].
        destruct (negb _); by inv_ret Hst1. }
      by apply (diff_channels_applies previous cs _ _ Ha0).
    + assert (key ≠ "channels") as Hne.
      { intros ->. apply Hk.
        by apply (list_elem_of_fmap_2 fst) in Hin. }
      destruct (process_field_channels_kept _ _ _ _ Hst1) as [Hc1 Hall1].
      apply (IH st1); try done.
      * by rewrite Hall1.
      * by rewrite Hc1.
Qed.
End ChannelsLoop.

(** X6.  When the baseline lists the channels the event has and the
    submitted channels are rows of the channel table, the per-field loop
    leaves the event with exactly the submitted channels. *)
Theorem channels_are_submitted (previous : gmap string json)
    (has_file : bool) (event : Event) (db : DB)
    (cleaned_data : list (string * pyval)) (cs : list Channel)
    (st : EditState) :
  edit_fields previous has_file event db cleaned_data = Ok st →
  NoDup cleaned_data.*1 →
  ("channels", VChannels cs) ∈ cleaned_data →
  previous !! "channels"
  = Some (JList (channel_pk <$> event_channels_all db event)) →
  (∀ c, c ∈ cs → channel_pk c ∈ channel_pk <$> channels db) →
  ∀ pk,
    pk ∈ channel_pk <$> event_channels_all (st_db st) (st_event st)
    ↔ pk ∈ channel_pk <$> cs.
Proof.
  intros H Hnd Hin Hprev Hcs.
  by apply (loop_channels_applied previous has_file cleaned_data cs _ _ H).
Qed.

Lemma channels_are_submitted_witness :
  ∃ st,
    edit_fields move_channel_previous false talk two_channel_db
      move_channel_cleaned_data = Ok st
    ∧ channel_pk <$> event_channels_all (st_db st) (st_event st) = [2]
    ∧ ∀ pk,
        pk ∈ channel_pk <$> event_channels_all (st_db st) (st_event st)
        ↔ pk ∈ channel_pk <$> [channel_mozilla].
Proof.
  eexists. split; [vm_compute; reflexivity|]. split; [reflexivity|].
  apply (channels_are_submitted move_channel_previous false talk
           two_channel_db move_channel_cleaned_data [channel_mozilla]).
  - vm_compute. reflexivity.
  - apply (bool_decide_unpack _). vm_compute. exact I.
  - by left.
  - reflexivity.
  - intros c ->%list_elem_of_singleton. by right; left.
Defined.

(** ** Requests that write nothing *)

(** X7.  [post] answers without touching the database when the request is
    a cancel, when the user may not view or edit the event, and when the
    form is not valid; a cancel is answered with the redirect even for a
    user who may not view the event.  When [post] raises, the database is
    the one the request started from. *)
Theorem post_guards (request : EditRequest) (event : Event) (db : DB) :
  (req_cancel request = true → post request event db = (Ok RedirectToEvent, db))
  ∧ (req_cancel request = false → req_can_view request = false →
     post request event db = (Ok CantViewEvent, db))
  ∧ (req_cancel request = false → req_can_view request = true →
     user_is_active (req_user request) = false →
     post request event db = (Ok RedirectToEvent, db))
  ∧ (req_cancel request = false → req_can_view request = true →
     user_is_active (req_user request) = true →
     req_cleaned_data request = None →
     post request event db = (Ok (RenderEditForm None), db))
  ∧ (∀ e, (post request event db).1 = Raise e →
          (post request event db).2 = db).
Proof.
  unfold post, atomic, post_body, can_edit_event.
  repeat split.
  - by intros ->.
  - by intros -> ->.
  - by intros -> -> ->.
  - by intros -> -> -> ->.
  - intros e. destruct (req_cancel request); [done|].
    destruct (req_can_view request); [|done].
    destruct (user_is_active (req_user request)); [|done].
    destruct (req_cleaned_data request) as [cleaned_data|]; [|done]. cbn.
    destruct (submit_edit request event cleaned_data db) as [[o db1]|e1];
      done.
Qed.

(** ** A baseline that lacks a submitted field *)

Section MissingKey.
Variable previous : gmap string json.
Variable has_file : bool.

Lemma loop_item_processed (l : list (string * pyval))
    (item : string * pyval) (st0 st : EditState) :
  foldM (process_field previous has_file) st0 l = Ok st →
  item ∈ l →
  ∃ sa sb, process_field previous has_file sa item = Ok sb.
Proof.
  revert st0. induction l as [|i l IH]; intros st0 H Hin.
  - by apply elem_of_nil in Hin.
  - apply foldM_cons_Ok in H as (st1 & Hst1 & H).
    apply elem_of_cons in Hin as [->|Hin]; [by eauto|by eapply IH].
Qed.

Lemma process_field_needs_baseline (key : string) (value : pyval)
    (sa sb : EditState) :
  process_field previous has_file sa (key, value) = Ok sb →
  key ≠ "placeholder_img" → key ≠ "event_id" →
  is_Some (previous !! key).
Proof.
  unfold process_field. intros H Hp Hi. inv_bind H. inv_bind H.
  unfold compute_diff in Ha0.
  destruct (String.eqb_spec key "channels") as [->|?].
  { unfold diff_channels, previous_ids, previous_item in Ha0.
    destruct (previous !! "channels"); [by eauto|done]. }
  destruct (String.eqb_spec key "tags") as [->|?].
  { unfold diff_tags, previous_ids, previous_item in Ha0.
    inv_bind Ha0. destruct (previous !! "tags"); [by eauto|done]. }
  rewrite (proj2 (String.eqb_neq _ _) Hp), (proj2 (String.eqb_neq _ _) Hi)
    in Ha0.
  unfold diff_attribute, previous_item in Ha0.
  destruct (previous !! key); [by eauto|done].
Qed.
End MissingKey.

(** X8.  A submitted field other than the placeholder image and the event
    id needs an entry in the baseline: when the baseline has none, [post]
    raises and the database is the one the request started from, whatever
    the other fields wrote before.  With an uploaded placeholder image the
    [picture] field counts as submitted. *)
Theorem missing_baseline_key_raises (request : EditRequest) (event : Event)
    (db : DB) (cleaned_data : list (string * pyval)) (key : string)
    (value : pyval) :
  req_cancel request = false →
  req_can_view request = true →
  user_is_active (req_user request) = true →
  req_cleaned_data request = Some cleaned_data →
  (key, value)
    ∈ (if req_has_file request then dict_set "picture" VNone cleaned_data
       else cleaned_data) →
  key ≠ "placeholder_img" → key ≠ "event_id" →
  req_previous request !! key = None →
  ∃ e, post request event db = (Raise e, db).
Proof.
  intros Hcancel Hview Hactive Hcleaned Hin Hp Hi Hnone.
  unfold post, atomic, post_body, can_edit_event.
  rewrite Hcancel, Hview, Hactive, Hcleaned. cbn.
  destruct (submit_edit request event cleaned_data db) as [[o db1]|e] eqn:Hs;
    [|by eauto].
  exfalso. unfold submit_edit, edit_fields in Hs.
  destruct (if bool_decide _ then _ else _) as [db0 base].
  inv_bind Hs.
  destruct (loop_item_processed _ _ _ _ _ _ Ha Hin) as (sa & sb & Hstep).
  apply process_field_needs_baseline in Hstep; try done.
  rewrite Hnone in Hstep. by destruct Hstep.
Qed.

Lemma missing_baseline_key_raises_witness :
  ∃ e, post no_baseline_request talk sample_db = (Raise e, sample_db).
Proof.
  apply (missing_baseline_key_raises no_baseline_request talk sample_db
           [("title", VStr "New")] "title" (VStr "New")).
  - reflexivity.
  - reflexivity.
  - reflexivity.
  - reflexivity.
  - cbn. by left.
  - done.
  - done.
  - reflexivity.
Defined.

(** ** A baseline taken from the current state *)

Section FreshBaseline.
Variable previous : gmap string json.
Variable has_file : bool.

Lemma process_placeholder_changed (value : pyval) (st st1 : EditState) :
  process_field previous has_file st ("placeholder_img", value) = Ok st1 →
  "placeholder_img" ∈ dom (st_changes st1) →
  "placeholder_img" ∈ dom (st_changes st) ∨ truthy value = true.
Proof.
  unfold process_field. intros H Hin. inv_bind H. inv_bind H.
  unfold compute_diff in Ha0. cbn [String.eqb Ascii.eqb Bool.eqb] in Ha0.
  unfold diff_placeholder_img in Ha0.
  destruct (truthy value); [by right|]. left.
  cbv [mret result_ret] in Ha0. injection Ha0 as <-.
  unfold detect_conflict in H. cbn [st_changes st_current_value] in H.
  case_bool_decide; [done|].
  cbv [mret result_ret] in H. by injection H as <-.
Qed.

Lemma loop_placeholder_changed (l : list (string * pyval))
    (st0 st : EditState) :
  foldM (process_field previous has_file) st0 l = Ok st →
  "placeholder_img" ∈ dom (st_changes st) →
  "placeholder_img" ∈ dom (st_changes st0)
  ∨ ∃ v, ("placeholder_img", v) ∈ l ∧ truthy v = true.
Proof.
  revert st0. induction l as [|[key value] l IH]; intros st0 H Hin.
  - cbv [foldM] in H. injection H as <-. by left.
  - apply foldM_cons_Ok in H as (st1 & Hst1 & H).
    destruct (IH _ H Hin) as [Hin1|(v & Hv & Ht)].
    + destruct (decide (key = "placeholder_img")) as [->|Hne].
      * destruct (process_placeholder_changed _ _ _ Hst1 Hin1) as [?|Ht];
          [by left|].
        right. exists value. split; [by left|done].
      * left.
        by apply (process_field_dom_other previous has_file key
                    "placeholder_img" value st0 st1 Hst1).
    + right. exists v. split; [by right|done].
Qed.
End FreshBaseline.

Lemma event_to_dict_placeholder_img (thumbnail : string → string) (db : DB)
    (event : Event) :
  event_to_dict thumbnail db event !! "placeholder_img"
  = (λ img, JStr (file_url img)) <$> placeholder_img event.
Proof. unfold event_to_dict. destruct (placeholder_img event); reflexivity. Qed.

Lemma event_to_dict_getattr (thumbnail : string → string) (db : DB)
    (event : Event) (key : string) (v : pyval) :
  key ≠ "picture" → getattr event key = Ok v →
  of_json <$> event_to_dict thumbnail db event !! key = Some v.
Proof.
  intros Hp. unfold getattr.
  repeat (case String.eqb_spec; [
    intros ->; try done; intros [= <-]; unfold event_to_dict;
    destruct (placeholder_img event); reflexivity|intros ?]).
  done.
Qed.

Lemma py_eqb_refl_json (j : json) : py_eqb (of_json j) (of_json j) = true.
Proof.
  destruct j; cbn; rewrite ?bool_decide_eq_true_2, ?String.eqb_refl; done.
Qed.

(** The snapshot [event_to_dict] takes holds, for every key of the loop,
    the current value the loop resolves on the same event. *)
Lemma snapshot_is_current (thumbnail : string → string) (db db0 : DB)
    (event : Event) (has_file : bool) (key : string) (cur : pyval) :
  event_tags_all db0 event = event_tags_all db event →
  event_channels_all db0 event = event_channels_all db event →
  (key = "placeholder_img" → has_file = true) →
  key ≠ "event_id" →
  resolve_current_value has_file db0 event key None = Ok (Some cur) →
  baseline_differs (event_to_dict thumbnail db event) key cur = false.
Proof.
  intros Htags Hchannels Hph Hid. unfold resolve_current_value, baseline_differs.
  destruct (String.eqb_spec key "placeholder_img") as [->|?].
  { rewrite (Hph eq_refl), event_to_dict_placeholder_img.
    destruct (picture event), (placeholder_img event) as [img|];
      intros [= <-]; cbn; by rewrite ?String.eqb_refl. }
  destruct (String.eqb_spec key "tags") as [->|?].
  { intros [= <-]. rewrite event_to_dict_tags, Htags. cbn.
    by rewrite bool_decide_eq_true_2. }
  destruct (String.eqb_spec key "channels") as [->|?].
  { intros [= <-]. rewrite event_to_dict_channels, Hchannels. cbn.
    by rewrite bool_decide_eq_true_2. }
  destruct (String.eqb_spec key "picture") as [->|?].
  { intros [= <-]. rewrite event_to_dict_picture.
    destruct (picture event); cbn; by rewrite ?bool_decide_eq_true_2. }
  destruct (String.eqb_spec key "event_id") as [->|?]; [done|].
  destruct (getattr event key) as [v|] eqn:Hget; [|done].
  intros [= <-].
  apply (event_to_dict_getattr thumbnail db) in Hget; [|done].
  destruct (event_to_dict thumbnail db event !! key) as [j|]; [|done].
  injection Hget as <-. cbn. by rewrite py_eqb_refl_json.
Qed.

(** X9.  A submission whose baseline is the snapshot [event_to_dict] takes
    of the event as the request finds it never ends in a conflict, whatever
    it changes: the outcome is NOOP or CHANGED.  (A new placeholder file is
    taken to be in [request.FILES].) *)
Theorem fresh_baseline_never_conflicts (thumbnail : string → string)
    (request : EditRequest) (event : Event) (db db1 : DB)
    (cleaned_data : list (string * pyval)) (o : outcome) :
  NoDup cleaned_data.*1 →
  req_previous request = event_to_dict thumbnail db event →
  (∀ v, ("placeholder_img", v) ∈ cleaned_data → truthy v = true →
        req_has_file request = true) →
  submit_edit request event cleaned_data db = Ok (o, db1) →
  o = NOOP ∨ ∃ changes, o = CHANGED changes.
Proof.
  intros Hnd Hprev Hfile H. unfold submit_edit, edit_fields in H.
  set (cleaned := if req_has_file request
                  then dict_set "picture" VNone cleaned_data
                  else cleaned_data) in H.
  assert (NoDup cleaned.*1) as Hnd1.
  { unfold cleaned. destruct (req_has_file request); [|done].
    by apply dict_set_NoDup. }
  assert (∀ v, ("placeholder_img", v) ∈ cleaned → truthy v = true →
               req_has_file request = true) as Hfile1.
  { unfold cleaned. destruct (req_has_file request); [done|]. exact Hfile. }
  clearbody cleaned.
  destruct (if bool_decide _ then _ else _) as [db0 base] eqn:Hbase.
  assert (event_tags_all db0 event = event_tags_all db event
          ∧ event_channels_all db0 event = event_channels_all db event)
    as [Htags Hchannels].
  { case_bool_decide; injection Hbase as <- <-; done. }
  inv_bind H. rename a into st.
  destruct (st_conflict_errors st) as [|key errs] eqn:Herrs.
  - cbn [bool_decide negb] in H. rewrite bool_decide_eq_true_2 in H by done.
    cbn [negb] in H.
    destruct (negb (bool_decide (st_changes st = ∅))).
    + destruct (create_from_event _ _ _ _). injection H as <- <-. eauto.
    + destruct base; injection H as <- <-; eauto.
  - exfalso.
    assert (key ∈ st_conflict_errors st) as Hkey by (rewrite Herrs; by left).
    assert (key ∈ dom (st_changes st)) as Hin.
    { eapply loop_conflicts_in_changes; [exact Ha| |exact Hkey].
      cbn. intros k Hk. by apply elem_of_nil in Hk. }
    assert (key ≠ "event_id") as Hid.
    { intros ->. apply loop_event_id_not_changed in Ha; [|done].
      cbn [st_changes] in Ha. by apply not_elem_of_dom in Ha. }
    assert (key = "placeholder_img" → req_has_file request = true) as Hph.
    { intros ->.
      destruct (loop_placeholder_changed _ _ _ _ _ Ha Hin)
        as [Hin0|(v & Hv & Ht)]; [|by eauto].
      cbn [st_changes] in Hin0. by apply not_elem_of_dom in Hin0. }
    destruct (loop_conflict_iff _ _ cleaned key _ _ Ha)
      as (cur & Hres & Hiff); try done.
    { cbn [st_conflict_errors]. apply not_elem_of_nil. }
    cbn [st_db st_event] in Hres.
    apply Hiff in Hkey. rewrite Hprev in Hkey.
    by rewrite (snapshot_is_current thumbnail db db0 event _ key cur
                  Htags Hchannels Hph Hid Hres) in Hkey.
Qed.

Lemma fresh_baseline_never_conflicts_witness :
  ∃ o db1,
    submit_edit fresh_request talk fresh_cleaned_data sample_db = Ok (o, db1)
    ∧ (o = NOOP ∨ ∃ changes, o = CHANGED changes).
Proof.
  eexists _, _. split; [vm_compute; reflexivity|].
  eapply (fresh_baseline_never_conflicts id fresh_request talk sample_db _
            fresh_cleaned_data).
  - apply (bool_decide_unpack _). vm_compute. exact I.
  - reflexivity.
  - intros v Hv. unfold fresh_cleaned_data in Hv.
    rewrite !elem_of_cons in Hv.
    destruct Hv as [[=]|[[=]|Hv]]. by apply elem_of_nil in Hv.
  - vm_compute. reflexivity.
Defined.

(** ** Chapter posts that write nothing *)

(** X10.  A chapter post writes nothing and schedules no thumbnail task
    when the user may not view the event, when the user is not active or
    the event is not scheduled, when the form is not valid, when a delete
    comes without a timestamp (a [KeyError]) and when a delete names a
    timestamp without a chapter (a 404).  Whenever the post raises, the
    database is the one the request started from. *)
Theorem chapters_post_refusals (is_active_default : bool)
    (request : ChapterRequest) (event : Event) (db : DB) :
  (creq_can_view request = false →
   chapters_post is_active_default request event db
   = (Ok (ChapterCantView, []), db))
  ∧ (creq_can_view request = true →
     user_is_active (creq_user request) && creq_is_scheduled request = false →
     chapters_post is_active_default request event db
     = (Ok (ChapterCantEdit, []), db))
  ∧ (creq_can_view request = true → can_edit_chapters request = true →
     creq_delete request = false → creq_cleaned_data request = None →
     chapters_post is_active_default request event db
     = (Ok (JsonErrors, []), db))
  ∧ (creq_can_view request = true → can_edit_chapters request = true →
     creq_delete request = true → creq_timestamp request = None →
     chapters_post is_active_default request event db
     = (Raise (KeyError "timestamp"), db))
  ∧ (∀ timestamp,
       creq_can_view request = true → can_edit_chapters request = true →
       creq_delete request = true →
       creq_timestamp request = Some timestamp →
       Chapter_filter db event timestamp = [] →
       chapters_post is_active_default request event db = (Raise Http404, db))
  ∧ (∀ e, (chapters_post is_active_default request event db).1 = Raise e →
          (chapters_post is_active_default request event db).2 = db).
Proof.
  unfold chapters_post, atomic.
  destruct (chapters_post_body is_active_default request event db)
    as [[[r ids] db1]|e1] eqn:Hbody;
    unfold chapters_post_body, can_edit_chapters in *.
  - split; [intros Hv; rewrite Hv in Hbody; by injection Hbody as <- <- <-|].
    split.
    { intros Hv He. rewrite Hv, He in Hbody. by injection Hbody as <- <- <-. }
    split.
    { intros Hv He Hd Hc. rewrite Hv, He, Hd, Hc in Hbody.
      by injection Hbody as <- <- <-. }
    split; [intros Hv He Hd Ht; by rewrite Hv, He, Hd, Ht in Hbody|].
    split; [|done].
    intros timestamp Hv He Hd Ht Hnone. exfalso.
    rewrite Hv, He, Hd, Ht in Hbody. cbn in Hbody.
    unfold get_object_or_404 in Hbody. by rewrite Hnone in Hbody.
  - split; [intros Hv; by rewrite Hv in Hbody|].
    split; [intros Hv He; by rewrite Hv, He in Hbody|].
    split.
    { intros Hv He Hd Hc. by rewrite Hv, He, Hd, Hc in Hbody. }
    split.
    { intros Hv He Hd Ht. rewrite Hv, He, Hd, Ht in Hbody.
      by injection Hbody as <-. }
    split; [|done].
    intros timestamp Hv He Hd Ht Hnone.
    rewrite Hv, He, Hd, Ht in Hbody. cbn in Hbody.
    unfold get_object_or_404 in Hbody. rewrite Hnone in Hbody.
    by injection Hbody as <-.
Qed.

(** ** Posting to a deleted chapter *)

Lemma chapter_save_rows (db : DB) (old new : Chapter) :
  NoDup (chapter_id <$> chapters db) →
  old ∈ chapters db →
  chapter_id new = chapter_id old →
  chapters (chapter_save db new)
  = (λ c, if bool_decide (c = old) then new else c) <$> chapters db.
Proof.
  intros Hnd Hold Hid. unfold chapter_save. cbn [chapters set_chapters].
  apply list_fmap_ext. intros i c Hc%list_elem_of_lookup_2.
  case_bool_decide as Hc_id; case_bool_decide as Heq; try done.
  - exfalso. apply Heq.
    eapply (NoDup_fmap_elem_inj chapter_id); eauto. congruence.
  - subst c. congruence.
Qed.

Lemma chapter_save_same (db : DB) (chapter : Chapter) :
  NoDup (chapter_id <$> chapters db) →
  chapter ∈ chapters db →
  chapter_save db chapter = db.
Proof.
  intros Hnd Hin.
  assert (chapters (chapter_save db chapter) = chapters db) as Hrows.
  { rewrite (chapter_save_rows db chapter chapter) by done.
    rewrite <-(list_fmap_id (chapters db)) at 2.
    apply list_fmap_ext. intros i c _. by case_bool_decide; subst. }
  unfold chapter_save in *. cbn [chapters set_chapters] in Hrows.
  rewrite Hrows. by destruct db.
Qed.

(** X11.  The post of a text never switches a chapter back on.  For a
    timestamp whose chapter was deleted, a valid post answers ok and stores
    the new text and user on the deleted row, which stays inactive: the
    listing of chapters is the same before and after the post. *)
Theorem repost_of_deleted_chapter_stays_hidden (is_active_default : bool)
    (request : ChapterRequest) (event : Event) (db : DB) (timestamp : Z)
    (text : string) (old : Chapter) :
  NoDup (chapter_id <$> chapters db) →
  creq_can_view request = true →
  can_edit_chapters request = true →
  creq_delete request = false →
  creq_cleaned_data request = Some (timestamp, text) →
  Chapter_filter db event timestamp = [old] →
  chapter_is_active old = false →
  ∃ db1 new,
    chapters_post is_active_default request event db
    = (Ok (JsonOk, [chapter_id old]), db1)
    ∧ Chapter_filter db1 event timestamp = [new]
    ∧ chapter_text new = text
    ∧ chapter_is_active new = false
    ∧ ∀ viewer, chapters_get viewer event db1 = chapters_get viewer event db.
Proof.
  intros Hnd Hview Hedit Hdelete Hcleaned Hfilter Hoff.
  assert (old ∈ Chapter_filter db event timestamp) as Hold
    by (rewrite Hfilter; by left).
  apply Chapter_filter_elem in Hold as [[Hev Hts] Hold].
  set (new := set_chapter_text_user old text (creq_user request)).
  exists (chapter_save db new), new.
  split.
  { unfold chapters_post, atomic, chapters_post_body.
    rewrite Hview, Hedit, Hdelete, Hcleaned, Hfilter. reflexivity. }
  split.
  { rewrite (Chapter_filter_save db old new) by done.
    rewrite Hfilter. cbn [fmap list_fmap].
    by rewrite bool_decide_eq_true_2. }
  split; [done|]. split; [done|].
  intros viewer. unfold chapters_get.
  destruct (negb (creq_can_view viewer)); [done|].
  destruct (negb (can_edit_chapters viewer)); [done|].
  destruct (creq_all viewer); [|done].
  do 2 f_equal.
  rewrite (chapter_save_rows db old new) by done.
  rewrite (filter_fmap_preserving
             (λ c, chapter_event c = event_id event
                   ∧ chapter_is_active c = true)).
  - rewrite <-(list_fmap_id (filter _ (chapters db))) at 2.
    apply list_fmap_ext. intros i c Hc%list_elem_of_lookup_2.
    apply list_elem_of_filter in Hc as [[_ Hactive] _].
    case_bool_decide; [|done]. subst c. congruence.
  - intros c Hc. case_bool_decide; [|done]. subst c. cbn.
    rewrite Hoff. split; intros [? ?]; done.
Qed.

Lemma repost_of_deleted_chapter_stays_hidden_witness :
  ∃ db1 new,
    chapters_post true chapter_update_request talk deleted_db
    = (Ok (JsonOk, [chapter_id deleted_chapter]), db1)
    ∧ Chapter_filter db1 talk 30 = [new]
    ∧ chapter_text new = "Welcome"
    ∧ chapter_is_active new = false
    ∧ ∀ viewer,
        chapters_get viewer talk db1 = chapters_get viewer talk deleted_db.
Proof.
  apply (repost_of_deleted_chapter_stays_hidden true chapter_update_request
           talk deleted_db 30 "Welcome" deleted_chapter).
  - apply (bool_decide_unpack _). vm_compute. exact I.
  - reflexivity.
  - reflexivity.
  - reflexivity.
  - reflexivity.
  - reflexivity.
  - reflexivity.
Defined.

(** ** Deleting twice *)

(** X12.  Deleting is idempotent: a delete that was answered is answered
    the same way when it is posted again, and the second post leaves the
    database as the first one left it.  The chapter deleted before is
    found again, since the lookup does not look at [is_active]. *)
Theorem chapter_delete_twice (is_active_default : bool)
    (request : ChapterRequest) (event : Event) (db db1 : DB)
    (r : chapter_response * list Z) :
  NoDup (chapter_id <$> chapters db) →
  creq_delete request = true →
  chapters_post is_active_default request event db = (Ok r, db1) →
  chapters_post is_active_default request event db1 = (Ok r, db1).
Proof.
  intros Hnd Hdelete. unfold chapters_post, atomic, chapters_post_body.
  destruct (negb (creq_can_view request)); [by intros [= <- <-]|].
  destruct (negb (can_edit_chapters request)); [by intros [= <- <-]|].
  rewrite Hdelete.
  destruct (creq_timestamp request) as [timestamp|]; [|done].
  cbn [mbind result_bind]. unfold get_object_or_404.
  destruct (Chapter_filter db event timestamp) as [|old [|? ?]] eqn:Hfilter;
    [done| |done].
  cbn [objects_get mbind result_bind]. intros [= <- <-].
  assert (old ∈ Chapter_filter db event timestamp) as Hold
    by (rewrite Hfilter; by left).
  apply Chapter_filter_elem in Hold as [[Hev Hts] Hold].
  set (deleted := set_chapter_is_active old false).
  rewrite (Chapter_filter_save db old deleted) by done.
  rewrite Hfilter. cbn [fmap list_fmap objects_get].
  rewrite bool_decide_eq_true_2 by done. cbn [mbind result_bind].
  assert (set_chapter_is_active deleted false = deleted) as -> by done.
  rewrite (chapter_save_same (chapter_save db deleted)); [done| |].
  - unfold chapter_save. cbn [chapters set_chapters].
    rewrite <-list_fmap_compose.
    erewrite list_fmap_ext; [exact Hnd|].
    intros i c _. cbn. by case_bool_decide.
  - rewrite (chapter_save_rows db old deleted) by done.
    apply list_elem_of_fmap. exists old. by rewrite bool_decide_eq_true_2.
Qed.

Lemma chapter_delete_twice_witness :
  ∃ r db1,
    chapters_post true chapter_delete_request talk sample_db = (Ok r, db1)
    ∧ chapters_post true chapter_delete_request talk db1 = (Ok r, db1).
Proof.
  eexists _, _. split; [vm_compute; reflexivity|].
  apply (chapter_delete_twice true chapter_delete_request talk sample_db).
  - apply (bool_decide_unpack _). vm_compute. exact I.
  - reflexivity.
  - vm_compute. reflexivity.
Defined.

(** ** What a chapter post may touch *)

(** X13.  Whatever a chapter post answers, it writes to the chapters table
    only.  There it keeps every row in its place with its id, leaves the
    chapters of other events as they are, adds at most one row, and keeps
    the ids unique. *)
Theorem chapters_post_scope (is_active_default : bool)
    (request : ChapterRequest) (event : Event) (db db1 : DB)
    (r : result (chapter_response * list Z)) :
  NoDup (chapter_id <$> chapters db) →
  chapters_post is_active_default request event db = (r, db1) →
  set_chapters db1 (chapters db) = db
  ∧ chapter_id <$> chapters db `prefix_of` chapter_id <$> chapters db1
  ∧ (length (chapters db1) ≤ S (length (chapters db)))%nat
  ∧ NoDup (chapter_id <$> chapters db1)
  ∧ filter (λ c, chapter_event c ≠ event_id event) (chapters db1)
    = filter (λ c, chapter_event c ≠ event_id event) (chapters db).
Proof.
  intros Hnd.
  assert (set_chapters db (chapters db) = db
          ∧ chapter_id <$> chapters db `prefix_of` chapter_id <$> chapters db
          ∧ (length (chapters db) ≤ S (length (chapters db)))%nat
          ∧ NoDup (chapter_id <$> chapters db)
          ∧ filter (λ c, chapter_event c ≠ event_id event) (chapters db)
            = filter (λ c, chapter_event c ≠ event_id event) (chapters db))
    as Hsame.
  { split; [by destruct db|]. split; [done|]. split; [lia|]. done. }
  assert (∀ old new,
            old ∈ chapters db → chapter_event old = event_id event →
            chapter_id new = chapter_id old →
            chapter_event new = chapter_event old →
            set_chapters (chapter_save db new) (chapters db) = db
            ∧ chapter_id <$> chapters db
                `prefix_of` chapter_id <$> chapters (chapter_save db new)
            ∧ (length (chapters (chapter_save db new))
               ≤ S (length (chapters db)))%nat
            ∧ NoDup (chapter_id <$> chapters (chapter_save db new))
            ∧ filter (λ c, chapter_event c ≠ event_id event)
                (chapters (chapter_save db new))
              = filter (λ c, chapter_event c ≠ event_id event) (chapters db))
    as Hsave.
  { intros old new Hold Hev Hid Hnew_ev.
    assert (chapter_id <$> chapters (chapter_save db new)
            = chapter_id <$> chapters db) as Hids.
    { rewrite (chapter_save_rows db old new) by done.
      rewrite <-list_fmap_compose. apply list_fmap_ext.
      intros i c _. cbn. case_bool_decide; [by subst|done]. }
    split; [by destruct db|]. rewrite Hids. split; [done|].
    split.
    { rewrite <-(length_fmap chapter_id), Hids, length_fmap. lia. }
    split; [done|].
    rewrite (chapter_save_rows db old new) by done.
    rewrite (filter_fmap_preserving (λ c, chapter_event c ≠ event_id event)).
    - rewrite <-(list_fmap_id (filter _ (chapters db))) at 2.
      apply list_fmap_ext. intros i c Hc%list_elem_of_lookup_2.
      apply list_elem_of_filter in Hc as [Hne _].
      case_bool_decide; [|done]. by subst c.
    - intros c Hc. case_bool_decide; [|done]. subst c. by rewrite Hnew_ev. }
  unfold chapters_post, atomic, chapters_post_body.
  destruct (negb (creq_can_view request)); [by intros [= <- <-]|].
  destruct (negb (can_edit_chapters request)); [by intros [= <- <-]|].
  destruct (creq_delete request).
  - destruct (creq_timestamp request) as [timestamp|];
      [|by intros [= <- <-]].
    cbn [mbind result_bind]. unfold get_object_or_404.
    destruct (Chapter_filter db event timestamp) as [|old [|? ?]] eqn:Hfilter;
      [by intros [= <- <-]| |by intros [= <- <-]].
    cbn [objects_get mbind result_bind]. intros [= <- <-].
    assert (old ∈ Chapter_filter db event timestamp) as Hold
      by (rewrite Hfilter; by left).
    apply Chapter_filter_elem in Hold as [[Hev Hts] Hold].
    by apply (Hsave old).
  - destruct (creq_cleaned_data request) as [[timestamp text]|];
      [|by intros [= <- <-]].
    destruct (Chapter_filter db event timestamp) as [|old [|? ?]] eqn:Hfilter;
      cbn [objects_get]; [| |by intros [= <- <-]].
    + unfold Chapter_create. cbv [mret result_ret]. intros [= <- <-].
      cbn [chapters set_chapters].
      split; [by destruct db|]. rewrite fmap_app.
      split; [by apply prefix_app_r|].
      split; [rewrite length_app; cbn; lia|].
      split.
      { apply NoDup_app. split; [done|]. split; [|apply NoDup_singleton].
        intros x Hx Hnew. cbn in Hnew. apply list_elem_of_singleton in Hnew.
        subst x. by apply fresh_pk_not_in in Hx. }
      rewrite filter_app, filter_cons_False, filter_nil, app_nil_r; [done|].
      cbn. auto.
    + cbv [mret result_ret]. intros [= <- <-].
      assert (old ∈ Chapter_filter db event timestamp) as Hold
        by (rewrite Hfilter; by left).
      apply Chapter_filter_elem in Hold as [[Hev Hts] Hold].
      by apply (Hsave old).
Qed.

Lemma chapters_post_scope_witness :
  ∃ r db1,
    chapters_post true chapter_update_request talk sample_db = (r, db1)
    ∧ set_chapters db1 (chapters sample_db) = sample_db
    ∧ chapter_id <$> chapters sample_db `prefix_of` chapter_id <$> chapters db1
    ∧ (length (chapters db1) ≤ S (length (chapters sample_db)))%nat
    ∧ NoDup (chapter_id <$> chapters db1)
    ∧ filter (λ c, chapter_event c ≠ event_id talk) (chapters db1)
      = filter (λ c, chapter_event c ≠ event_id talk) (chapters sample_db).
Proof.
  eexists _, _. split; [vm_compute; reflexivity|].
  apply (chapters_post_scope true chapter_update_request talk sample_db _
           (Ok (JsonOk, [1]))).
  - apply (bool_decide_unpack _). vm_compute. exact I.
  - vm_compute. reflexivity.
Defined.


(** ** The differences of a revision *)

Lemma py_eqb_refl (v : pyval) : py_eqb v v = true.
Proof.
  destruct v; cbn; rewrite ?bool_decide_eq_true_2, ?String.eqb_refl; done.
Qed.

Lemma getter_total (db : DB) (key label : string)
    (obj : Event + EventRevision) :
  (key, label) ∈ fields → ∃ v, getter db key obj = Ok v.
Proof.
  unfold fields. rewrite !elem_of_cons, elem_of_nil.
  intros [[= -> _]|[[= -> _]|[[= -> _]|[[= -> _]|[[= -> _]|[[= -> _]|
          [[= -> _]|[[= -> _]|[[= -> _]|[]]]]]]]]]]; eexists; reflexivity.
Qed.

Lemma filter_none {A : Type} (P : A → Prop) `{∀ x, Decision (P x)}
    (l : list A) :
  (∀ x, x ∈ l → ¬ P x) → filter P l = [].
Proof.
  induction l as [|x l IH]; intros Hall; [done|].
  rewrite filter_cons_False by (apply Hall; by left).
  apply IH. intros y Hy. apply Hall. by right.
Qed.

Lemma foldM_cons {A B : Type} (f : A → B → result A) (a : A) (x : B)
    (l : list B) :
  foldM f a (x :: l) = a1 ← f a x; foldM f a1 l.
Proof. reflexivity. Qed.

Lemma compare_field_pair (db : DB) (previous : Event + EventRevision)
    (revision : EventRevision) (differences : list _Difference)
    (key label : string) :
  compare_field db previous revision differences (key, label)
  = before ← getter db key previous;
    after ← getter db key (inr revision);
    if negb (py_eqb before after) then
      mret (differences ++ [mk_Difference key label before after])
    else mret differences.
Proof. reflexivity. Qed.

Section Differences.
Variable db : DB.
Variable previous : Event + EventRevision.
Variable revision : EventRevision.

(** What the loop appends for the fields [l], from any list so far. *)
Lemma differences_loop (l : list (string * string)) (acc : list _Difference) :
  (∀ field, field ∈ l → field ∈ fields) →
  ∃ new,
    foldM (compare_field db previous revision) acc l = Ok (acc ++ new)
    ∧ (λ d, (difference_key d, difference_label d)) <$> new `sublist_of` l
    ∧ (∀ d, d ∈ new →
            getter db (difference_key d) previous = Ok (difference_before d)
            ∧ getter db (difference_key d) (inr revision)
              = Ok (difference_after d)
            ∧ py_eqb (difference_before d) (difference_after d) = false)
    ∧ (∀ key label before after,
         (key, label) ∈ l →
         (key, label) ∉ (λ d, (difference_key d, difference_label d)) <$> new →
         getter db key previous = Ok before →
         getter db key (inr revision) = Ok after →
         py_eqb before after = true).
Proof.
  revert acc. induction l as [|[key label] l IH]; intros acc Hl.
  - exists []. rewrite app_nil_r. split; [done|]. split; [done|].
    split; [by intros d Hd%elem_of_nil|].
    by intros ???? Hin%elem_of_nil.
  - assert ((key, label) ∈ fields) as Hfield by (apply Hl; by left).
    destruct (getter_total db key label previous Hfield) as [before Hb].
    destruct (getter_total db key label (inr revision) Hfield) as [after Ha].
    rewrite foldM_cons, compare_field_pair, Hb, Ha.
    cbn [mbind result_bind].
    destruct (py_eqb before after) eqn:Heq; cbn [negb];
      cbv [mret result_ret]; cbn [mbind result_bind].
    + destruct (IH acc) as (new & -> & Hsub & Hreal & Hrest).
      { intros f Hf. apply Hl. by right. }
      exists new. split; [done|]. split; [by apply sublist_cons|].
      split; [done|].
      intros k lb b a Hin Hnot Hkb Hka.
      apply elem_of_cons in Hin as [[= -> ->]|Hin]; [congruence|eauto].
    + destruct (IH (acc ++ [mk_Difference key label before after]))
        as (new & -> & Hsub & Hreal & Hrest).
      { intros f Hf. apply Hl. by right. }
      exists (mk_Difference key label before after :: new).
      split; [by rewrite <-app_assoc|].
      split; [rewrite fmap_cons; by apply sublist_skip|].
      split.
      { intros d [->|Hd]%elem_of_cons; [done|by apply Hreal]. }
      intros k lb b a Hin Hnot Hkb Hka. rewrite fmap_cons in Hnot.
      apply not_elem_of_cons in Hnot as [Hne Hnot].
      apply elem_of_cons in Hin as [[= -> ->]|Hin]; [done|eauto].
Qed.
End Differences.

(** X14.  The comparison of a revision never raises, and it lists exactly
    the fields that differ: the differences come in the order of the nine
    fields, each with its own label and at most once, every listed one with
    a value before that is not equal to the value after, and every field
    that is not listed with equal values. *)
Theorem differences_are_the_changed_fields (db : DB)
    (previous : Event + EventRevision) (revision : EventRevision) :
  ∃ differences,
    differences_of db previous revision fields = Ok differences
    ∧ (λ d, (difference_key d, difference_label d)) <$> differences
        `sublist_of` fields
    ∧ (∀ d, d ∈ differences →
            getter db (difference_key d) previous = Ok (difference_before d)
            ∧ getter db (difference_key d) (inr revision)
              = Ok (difference_after d)
            ∧ py_eqb (difference_before d) (difference_after d) = false)
    ∧ (∀ key label before after,
         (key, label) ∈ fields →
         (key, label)
           ∉ (λ d, (difference_key d, difference_label d)) <$> differences →
         getter db key previous = Ok before →
         getter db key (inr revision) = Ok after →
         py_eqb before after = true).
Proof.
  destruct (differences_loop db previous revision fields []) as (new & H);
    [done|].
  by exists new.
Qed.

(** ** The revision of a saved edit *)

Lemma find_tag_of_found (db : DB) (id : Z) (t : Tag) :
  find_tag db id = Some t → find_tag db (tag_id t) = Some t.
Proof.
  unfold find_tag. intros H.
  assert (tag_id t = id) as ->; [|done].
  apply head_filter_elem in H. by destruct H.
Qed.

Lemma find_channel_of_found (db : DB) (pk : Z) (c : Channel) :
  find_channel db pk = Some c → find_channel db (channel_pk c) = Some c.
Proof.
  unfold find_channel, Channel_filter_pk. intros H.
  assert (channel_pk c = pk) as ->; [|done].
  apply head_filter_elem in H. by destruct H.
Qed.

Lemma omap_find_back {A : Type} (find : Z → option A) (key : A → Z)
    (rows : list (Z * Z)) (eid : Z) :
  (∀ id x, find id = Some x → find (key x) = Some x) →
  omap find
    (key <$> omap (λ row : Z * Z,
                     if bool_decide (row.1 = eid) then find row.2 else None)
               rows)
  = omap (λ row : Z * Z,
            if bool_decide (row.1 = eid) then find row.2 else None) rows.
Proof.
  intros Hback. induction rows as [|row rows IH]; [done|].
  cbn [omap list_omap]. case_bool_decide; [|done].
  destruct (find row.2) as [x|] eqn:Hx; [|done].
  cbn [fmap list_fmap omap list_omap]. rewrite (Hback _ _ Hx). by f_equal.
Qed.

Lemma snapshot_names (db db1 : DB) (now : Z) (event : Event)
    (user : option User) (r : EventRevision) (key : string) :
  create_from_event db now event user = (db1, r) →
  object_related_names db1 (inr r) key
  = object_related_names db1 (inl event) key.
Proof.
  unfold create_from_event. intros [= <- <-].
  unfold object_related_names, event_tags_all, event_channels_all.
  cbn [revision_tags revision_channels].
  change (find_tag (set_revisions db ?l)) with (find_tag db).
  change (find_channel (set_revisions db ?l)) with (find_channel db).
  cbn [event_tags event_channels set_revisions].
  destruct (String.eqb key "tags"); f_equal.
  - apply (omap_find_back (find_tag db) tag_id), find_tag_of_found.
  - apply (omap_find_back (find_channel db) channel_pk), find_channel_of_found.
Qed.

Lemma differences_of_snapshot (db db1 : DB) (now : Z) (event : Event)
    (user : option User) (r : EventRevision) (l : list (string * string))
    (acc : list _Difference) :
  create_from_event db now event user = (db1, r) →
  (∀ field, field ∈ l → field ∈ fields) →
  foldM (compare_field db1 (inl event) r) acc l = Ok acc.
Proof.
  intros Hcreate. induction l as [|[key label] l IH]; intros Hl; [done|].
  assert ((key, label) ∈ fields) as Hfield by (apply Hl; by left).
  destruct (getter_total db1 key label (inl event) Hfield) as [before Hb].
  assert (getter db1 key (inr r) = getter db1 key (inl event)) as Ha.
  { unfold getter. rewrite (snapshot_names _ _ _ _ _ _ key Hcreate).
    destruct (_ || _); [done|]. unfold object_getattr.
    unfold create_from_event in Hcreate. by injection Hcreate as <- <-. }
  rewrite foldM_cons, compare_field_pair, Ha, Hb.
  cbn [mbind result_bind].
  rewrite py_eqb_refl. cbn [negb]. cbv [mret result_ret].
  cbn [mbind result_bind].
  apply IH. intros f Hf. apply Hl. by right.
Qed.

(** X15.  The revision a saved edit creates is the event as saved: for a
    viewer who may see the event, the page that compares that revision
    with the current event lists no difference. *)
Theorem saved_edit_shows_no_difference (request : EditRequest)
    (viewer : RevisionRequest) (event : Event)
    (cleaned_data : list (string * pyval)) (db db1 : DB)
    (changes : gmap string (pyval * pyval)) :
  can_view_event viewer = true →
  submit_edit request event cleaned_data db = Ok (CHANGED changes, db1) →
  ∃ saved revision,
    find_event db1 (event_id event) = Some saved
    ∧ last (revisions db1) = Some revision
    ∧ revision_get true viewer saved (revision_pk revision) db1
      = Ok (RevisionPage true saved revision []).
Proof.
  intros Hview H. unfold submit_edit, edit_fields in H.
  destruct (if bool_decide _ then _ else _) as [db0 base].
  inv_bind H. rename a into st.
  destruct (negb (bool_decide (st_conflict_errors st = []))); [done|].
  destruct (negb (bool_decide (st_changes st = ∅))); [|by destruct base].
  destruct (create_from_event _ _ _ _) as [db2 r] eqn:Hcreate.
  cbv [mret result_ret] in H. injection H as _ <-.
  assert (event_id (st_event st) = event_id event) as Hid.
  { apply loop_event_id in Ha. exact Ha. }
  exists (st_event st), r.
  pose proof Hcreate as Hrows. unfold create_from_event in Hrows.
  injection Hrows as Hdb2 Hr.
  split.
  { rewrite <-Hdb2, <-Hid.
    change (find_event (set_revisions ?d ?l)) with (find_event d).
    apply find_event_save. }
  split.
  { rewrite <-Hdb2. cbn [revisions set_revisions]. rewrite last_snoc.
    by f_equal. }
  unfold revision_get. rewrite Hview. cbn [negb].
  assert (filter (λ q, revision_event q = event_id (st_event st)
                       ∧ revision_pk q = revision_pk r) (revisions db2)
          = [r]) as ->.
  { rewrite <-Hdb2. cbn [revisions set_revisions].
    rewrite filter_app, filter_cons_True, filter_nil
      by (by rewrite <-Hr).
    rewrite filter_none; [by rewrite <-Hr|]. intros q Hq [_ Hpk].
    apply (fresh_pk_not_in (revision_pk <$> revisions
             (event_save (st_db st) (st_event st)))).
    rewrite <-Hr in Hpk. cbn [revision_pk] in Hpk. rewrite <-Hpk.
    by apply list_elem_of_fmap_2. }
  cbn [get_object_or_404 objects_get mbind result_bind mret result_ret].
  unfold differences_of.
  rewrite (differences_of_snapshot _ _ _ _ _ _ fields [] Hcreate); done.
Qed.

Lemma saved_edit_shows_no_difference_witness :
  ∃ changes db1,
    submit_edit title_request talk [("title", VStr "New")] sample_db
    = Ok (CHANGED changes, db1)
    ∧ ∃ saved revision,
        find_event db1 (event_id talk) = Some saved
        ∧ last (revisions db1) = Some revision
        ∧ revision_get true viewer_request saved (revision_pk revision) db1
          = Ok (RevisionPage true saved revision []).
Proof.
  eexists _, _. split; [vm_compute; reflexivity|].
  eapply (saved_edit_shows_no_difference title_request viewer_request talk
            [("title", VStr "New")] sample_db).
  - reflexivity.
  - vm_compute. reflexivity.
Defined.

(** ** Who is shown a revision *)

(** X16.  A revision page is only rendered for an active user who may view
    the event, and only for a stored revision of that event with the id
    asked for.  Without the permission the answer is the same for every
    id, stored or not; with it, an id that is no revision of the event is
    a 404. *)
Theorem revision_get_answers (difference : bool) (request : RevisionRequest)
    (event : Event) (id : Z) (db : DB) :
  (can_view_event request = false →
   revision_get difference request event id db = Ok RevisionCantView)
  ∧ (can_view_event request = true →
     (∀ r, r ∈ revisions db → revision_event r = event_id event →
           revision_pk r ≠ id) →
     revision_get difference request event id db = Raise Http404)
  ∧ (∀ d e r l,
       revision_get difference request event id db
       = Ok (RevisionPage d e r l) →
       user_is_active (rreq_user request) = true
       ∧ rreq_can_view request = true
       ∧ d = difference ∧ e = event
       ∧ r ∈ revisions db
       ∧ revision_event r = event_id event ∧ revision_pk r = id).
Proof.
  unfold revision_get. split; [by intros ->|]. split.
  - intros -> Hnone. cbn [negb].
    rewrite filter_none; [done|]. intros r Hr [He Hpk]. by apply (Hnone r).
  - intros d e r l. unfold can_view_event.
    destruct (user_is_active (rreq_user request)); [|done].
    destruct (rreq_can_view request); [|done]. cbn [andb negb].
    intros H. inv_bind H. inv_bind H. inv_bind H.
    cbv [mret result_ret] in H. injection H as <- <- Hr <-. subst a.
    unfold get_object_or_404 in Ha.
    destruct (filter _ (revisions db)) as [|q [|? ?]] eqn:Hf; try done.
    cbn in Ha. injection Ha as ->.
    assert (r ∈ filter (λ r, revision_event r = event_id event
                             ∧ revision_pk r = id) (revisions db)) as Hin
      by (rewrite Hf; by left).
    apply list_elem_of_filter in Hin as [[? ?] ?]. done.
Qed.

(** ** Groups of ten *)

Lemma py_range_count (n : nat) :
  (0 < n)%nat →
  ((n - 0 + 10 - 1) / 10 = S ((n - 10 - 0 + 10 - 1) / 10))%nat.
Proof.
  intros Hn. destruct (decide (n < 10)%nat) as [Hlt|Hge].
  - replace (n - 0 + 10 - 1)%nat with ((n - 1) + 1 * 10)%nat by lia.
    rewrite Nat.div_add by lia.
    replace (n - 10 - 0 + 10 - 1)%nat with 9%nat by lia.
    rewrite (Nat.div_small (n - 1) 10), (Nat.div_small 9 10); lia.
  - replace (n - 0 + 10 - 1)%nat with ((n - 10 - 0 + 10 - 1) + 1 * 10)%nat
      by lia.
    rewrite Nat.div_add by lia. lia.
Qed.

Lemma fetches_of_nil : fetches_of [] = [].
Proof. reflexivity. Qed.

Lemma fetches_of_cons (fetch : list Z) :
  fetch ≠ [] →
  fetches_of fetch = take 10 fetch :: fetches_of (drop 10 fetch).
Proof.
  intros Hne. unfold fetches_of, py_range.
  rewrite length_drop, py_range_count
    by (destruct fetch; [done|cbn; lia]).
  rewrite <-cons_seq, <-fmap_S_seq, !fmap_cons, <-!list_fmap_compose.
  apply (f_equal2 cons); [done|].
  apply list_fmap_ext. intros i k _. cbn [compose].
  unfold py_slice. rewrite drop_drop.
  replace (0 + S k * 10 + 10 - (0 + S k * 10))%nat with 10%nat by lia.
  replace (0 + k * 10 + 10 - (0 + k * 10))%nat with 10%nat by lia.
  replace (0 + S k * 10)%nat with (10 + (0 + k * 10))%nat by lia. done.
Qed.

Lemma fetches_of_groups (n : nat) (fetch : list Z) :
  (length fetch ≤ n)%nat →
  concat (fetches_of fetch) = fetch
  ∧ Forall (λ group, (1 ≤ length group ≤ 10)%nat) (fetches_of fetch)
  ∧ (∀ i group, fetches_of fetch !! i = Some group →
                (S i < length (fetches_of fetch))%nat →
                length group = 10%nat).
Proof.
  revert fetch. induction n as [|n IH]; intros fetch Hlen.
  - destruct fetch; [|cbn in Hlen; lia]. rewrite fetches_of_nil.
    split; [done|]. split; [done|]. by intros i group Hi.
  - destruct (decide (fetch = [])) as [->|Hne].
    { rewrite fetches_of_nil. split; [done|]. split; [done|].
      by intros i group Hi. }
    assert (0 < length fetch)%nat as Hpos
      by (destruct fetch; [done|cbn; lia]).
    rewrite fetches_of_cons by done.
    destruct (IH (drop 10 fetch)) as (Hconcat & Hall & Hfull).
    { rewrite length_drop. lia. }
    split; [cbn [concat]; by rewrite Hconcat, take_drop|].
    split.
    { apply Forall_cons. split; [|done]. rewrite length_take.
      destruct (Nat.min_spec 10 (length fetch)) as [[? Hm]|[? Hm]];
        rewrite Hm; lia. }
    intros [|i] group Hi Hlast.
    + injection Hi as <-. cbn [length] in Hlast.
      destruct (decide (drop 10 fetch = [])) as [Hnil|Hmore].
      { rewrite Hnil, fetches_of_nil in Hlast. cbn in Hlast. lia. }
      assert (0 < length (drop 10 fetch))%nat as Hd
        by (destruct (drop 10 fetch); [done|cbn; lia]).
      rewrite length_drop in Hd. rewrite length_take.
      destruct (Nat.min_spec 10 (length fetch)) as [[? Hm]|[? Hm]];
        rewrite Hm; lia.
    + change (fetches_of (drop 10 fetch) !! i = Some group) in Hi.
      cbn [length] in Hlast. apply (Hfull i); [done|lia].
Qed.

(** X17.  The timestamps to fetch are handed over in groups of at most
    ten: the groups, put one after the other, are the timestamps in their
    order; no group is empty, and every group but the last holds exactly
    ten. *)
Theorem fetches_are_groups_of_ten (fetch : list Z) :
  concat (fetches_of fetch) = fetch
  ∧ Forall (λ group, (1 ≤ length group ≤ 10)%nat) (fetches_of fetch)
  ∧ (∀ i group, fetches_of fetch !! i = Some group →
                (S i < length (fetches_of fetch))%nat →
                length group = 10%nat).
Proof. by apply (fetches_of_groups (length fetch)). Qed.

(** ** The thumbnails of the timestamps *)

Lemma filter_sublist_impl {A : Type} (P Q : A → Prop)
    `{∀ x, Decision (P x)} `{∀ x, Decision (Q x)} (l : list A) :
  (∀ x, P x → Q x) → filter P l `sublist_of` filter Q l.
Proof.
  intros Himpl. induction l as [|x l IH]; [done|].
  destruct (decide (P x)) as [HP|HP].
  - rewrite !filter_cons_True by auto. by apply sublist_skip.
  - rewrite (filter_cons_False P) by done.
    destruct (decide (Q x)).
    + rewrite filter_cons_True by done. by apply sublist_cons.
    + by rewrite filter_cons_False by done.
Qed.

Lemma latest_picture_None (l : list PictureRow) :
  latest_picture l = None ↔ l = [].
Proof.
  destruct l as [|q l]; [done|]. split; [|done]. cbn.
  destruct (foldr _ None l); [by case_bool_decide|done].
Qed.

Lemma latest_picture_elem (l : list PictureRow) (p : PictureRow) :
  latest_picture l = Some p → p ∈ l.
Proof.
  revert p. induction l as [|q l IH]; intros p; [done|]. cbn.
  fold (latest_picture l).
  destruct (latest_picture l) as [b|].
  - case_bool_decide; intros [= <-]; [right; by apply IH|by left].
  - intros [= <-]. by left.
Qed.

Section ThumbnailsFacts.
Variable thumbnail : ImageFile → Thumb.
Variable similarity_of : ImageFile → ImageFile → Z.
Variable strftime_f : Z → string.
Variable format_int : Z → string.
Variable event : Event.
Variable pictures : list PictureRow.

Let base_qs := filter (λ p, row_event p = event_id event) pictures.

Let pictured := has_picture event pictures.

Let step :=
  thumbnails_step thumbnail similarity_of strftime_f format_int base_qs event.

Lemma latest_picture_pictured (at_ : Z) :
  is_Some (latest_picture (filter (λ p, row_timestamp p = at_) base_qs))
  ↔ pictured at_.
Proof.
  unfold pictured, has_picture, base_qs. rewrite Exists_exists. split.
  - intros [p Hp]. apply latest_picture_elem in Hp.
    apply list_elem_of_filter in Hp as [Hat Hp].
    apply list_elem_of_filter in Hp as [Hev Hp]. by exists p.
  - intros (p & Hp & Hev & Hat).
    destruct (latest_picture _) as [q|] eqn:Hq; [by eauto|].
    apply latest_picture_None in Hq.
    assert (p ∈ filter (λ p, row_timestamp p = at_)
                  (filter (λ p, row_event p = event_id event) pictures))
      as Hin by (by rewrite !list_elem_of_filter).
    rewrite Hq in Hin. by apply elem_of_nil in Hin.
Qed.

Lemma similarity_key_is_no_lock (p : PictureRow) (prev : option PictureRow)
    (key : string) (at_ : Z) :
  make_similarity_cache_key strftime_f p prev = Some key →
  key ≠ lock_key format_int event at_.
Proof.
  unfold make_similarity_cache_key, lock_key.
  destruct prev; [|done]. intros [= <-]. cbn. discriminate.
Qed.

(** One iteration, by whether the timestamp has a picture. *)
Lemma step_pictured (st : ThumbnailsState) (at_ : Z) :
  pictured at_ →
  ∃ p entry,
    p ∈ pictures ∧ row_event p = event_id event ∧ row_timestamp p = at_
    ∧ pentry_at entry = at_
    ∧ (pentry_similarity entry = None ↔ ts_prev st = None)
    ∧ ts_pictures (step st at_) = ts_pictures st ++ [entry]
    ∧ ts_missing (step st at_) = ts_missing st
    ∧ ts_fetch (step st at_) = ts_fetch st
    ∧ ts_prev (step st at_) = Some p
    ∧ ∀ a, cache_truthy (ts_cache (step st at_) !! lock_key format_int event a)
           = cache_truthy (ts_cache st !! lock_key format_int event a).
Proof.
  intros [p Hp]%latest_picture_pictured.
  pose proof (latest_picture_elem _ _ Hp) as Hin.
  apply list_elem_of_filter in Hin as [Hat Hin].
  apply list_elem_of_filter in Hin as [Hev Hin].
  unfold step, thumbnails_step. fold base_qs. rewrite Hp.
  destruct (ts_prev st) as [prev|] eqn:Hprev.
  - pose proof (similarity_key_is_no_lock p (Some prev)) as Hkey.
    destruct (make_similarity_cache_key strftime_f p (Some prev))
      as [key|] eqn:Hk; [|by unfold make_similarity_cache_key in Hk].
    destruct (is_minus_one _); eexists p, _; cbn; split_and!.
    6, 16: reflexivity.
    all: try done.
    intros a. rewrite lookup_insert_ne; [done|]. by apply Hkey.
  - cbn. eexists p, _. cbn. split_and!.
    6: reflexivity.
    all: done.
Qed.

Lemma step_missing (st : ThumbnailsState) (at_ : Z) :
  ¬ pictured at_ →
  ts_pictures (step st at_) = ts_pictures st
  ∧ ts_missing (step st at_) = ts_missing st ++ [at_]
  ∧ ts_prev (step st at_) = ts_prev st
  ∧ ts_fetch (step st at_)
    = ts_fetch st
      ++ (if cache_truthy (ts_cache st !! lock_key format_int event at_)
          then [] else [at_])
  ∧ cache_truthy (ts_cache (step st at_) !! lock_key format_int event at_)
    = true
  ∧ ∀ a, cache_truthy (ts_cache st !! lock_key format_int event a) = true →
         cache_truthy (ts_cache (step st at_) !! lock_key format_int event a)
         = true.
Proof.
  intros Hno. unfold step, thumbnails_step. fold base_qs.
  destruct (latest_picture _) as [p|] eqn:Hp.
  { exfalso. apply Hno, latest_picture_pictured. by eauto. }
  destruct (cache_truthy (ts_cache st !! lock_key format_int event at_))
    eqn:Hlock; cbn.
  - rewrite app_nil_r. by repeat split.
  - rewrite lookup_insert_eq. repeat split; try done.
    intros a Ha.
    destruct (decide (lock_key format_int event at_
                      = lock_key format_int event a)) as [->|Hne].
    + by rewrite lookup_insert_eq.
    + by rewrite lookup_insert_ne.
Qed.

(** The loop over the timestamps, from any state. *)
Lemma thumbnails_loop (timestamps : list Z) (st0 : ThumbnailsState) :
  let st := foldl step st0 timestamps in
  (∃ new,
     ts_pictures st = ts_pictures st0 ++ new
     ∧ pentry_at <$> new = filter pictured timestamps
     ∧ (∀ i entry, new !! i = Some entry →
                   pentry_similarity entry = None
                   ↔ i = 0%nat ∧ ts_prev st0 = None))
  ∧ ts_missing st = ts_missing st0 ++ filter (λ a, ¬ pictured a) timestamps
  ∧ (∃ fetch,
       ts_fetch st = ts_fetch st0 ++ fetch
       ∧ fetch
           `sublist_of`
           filter (λ a, ¬ pictured a
                        ∧ cache_truthy
                            (ts_cache st0 !! lock_key format_int event a)
                          = false) timestamps)
  ∧ (∀ a, (cache_truthy (ts_cache st0 !! lock_key format_int event a) = true
           ∨ (a ∈ timestamps ∧ ¬ pictured a)) →
          cache_truthy (ts_cache st !! lock_key format_int event a) = true).
Proof.
  revert st0. induction timestamps as [|at_ l IH]; intros st0.
  - cbn. split.
    { exists []. rewrite app_nil_r. split; [done|]. split; [done|].
      by intros i entry Hi. }
    split; [by rewrite app_nil_r|]. split.
    { exists []. by rewrite app_nil_r. }
    intros a [Ha|[Ha _]]; [done|by apply elem_of_nil in Ha].
  - cbn [foldl]. cbn zeta.
    destruct (IH (step st0 at_)) as ((new & Hpics & Hats & Hsim) & Hmiss
                                     & (fetch & Hfetch & Hsub) & Hlocks).
    destruct (decide (pictured at_)) as [Hpic|Hno].
    + destruct (step_pictured st0 at_ Hpic)
        as (p & entry & Hp & Hev & Hat & Heat & Hnone & Hsp & Hsm & Hsf
            & Hprev & Hcache).
      split.
      { exists (entry :: new). rewrite Hpics, Hsp, <-app_assoc.
        split; [done|]. split.
        { rewrite fmap_cons, filter_cons_True by done. by rewrite Heat, Hats. }
        intros [|i] e Hi.
        - injection Hi as <-. rewrite Hnone. by split; [|intros [_ ?]].
        - cbn in Hi. rewrite (Hsim i e Hi), Hprev.
          split; [by intros [_ ?]|by intros [? _]]. }
      split; [by rewrite Hmiss, Hsm, filter_cons_False by tauto|].
      split.
      { exists fetch. rewrite Hfetch, Hsf. split; [done|].
        rewrite filter_cons_False by tauto.
        erewrite list_filter_iff; [exact Hsub|].
        intros a. cbn. by rewrite Hcache. }
      intros a Ha. apply Hlocks. rewrite Hcache.
      destruct Ha as [Ha|[Ha Hna]]; [by left|].
      apply elem_of_cons in Ha as [->|Ha]; [done|by right].
    + destruct (step_missing st0 at_ Hno)
        as (Hsp & Hsm & Hprev & Hsf & Hlocked & Hkeep).
      split.
      { exists new. rewrite Hpics, Hsp. split; [done|].
        rewrite filter_cons_False by done. split; [done|].
        intros i e Hi. by rewrite (Hsim i e Hi), Hprev. }
      split; [by rewrite Hmiss, Hsm, filter_cons_True, <-app_assoc by done|].
      split.
      { eexists. rewrite Hfetch, Hsf, <-app_assoc. split; [done|].
        assert (fetch `sublist_of`
                  filter (λ a, ¬ pictured a
                               ∧ cache_truthy
                                   (ts_cache st0
                                      !! lock_key format_int event a)
                                 = false) l) as Hsub0.
        { etrans; [exact Hsub|]. apply filter_sublist_impl.
          intros a [Hna Ha]. split; [done|].
          destruct (cache_truthy
                      (ts_cache st0 !! lock_key format_int event a))
            eqn:Hlock; [|done].
          by rewrite (Hkeep a Hlock) in Ha. }
        destruct (cache_truthy (ts_cache st0 !! lock_key format_int event at_))
          eqn:Hlock.
        - rewrite filter_cons_False by (intros [_ ?]; congruence). done.
        - rewrite filter_cons_True by done. by apply sublist_skip. }
      intros a Ha. apply Hlocks.
      destruct Ha as [Ha|[Ha Hna]]; [left; by apply Hkeep|].
      apply elem_of_cons in Ha as [->|Ha]; [by left|by right].
Qed.
End ThumbnailsFacts.

Lemma filter_length_split {A : Type} (P : A → Prop) `{∀ x, Decision (P x)}
    (l : list A) :
  (length (filter P l) + length (filter (λ x, ¬ P x) l) = length l)%nat.
Proof.
  induction l as [|x l IH]; [done|].
  destruct (decide (P x)).
  - rewrite filter_cons_True, (filter_cons_False (λ x, ¬ P x)) by tauto.
    cbn. lia.
  - rewrite filter_cons_False, (filter_cons_True (λ x, ¬ P x)) by tauto.
    cbn. lia.
Qed.

(** X18.  For a user who may edit the chapters, the answer lists one
    picture for every timestamp that has a picture of the event, in the
    order of the timestamps, and counts the other timestamps as missing,
    locked or not.  The first picture listed is the only one without a
    similarity.  Every timestamp handed over for fetching is missing and
    was not locked when the request came in. *)
Theorem thumbnails_listing (thumbnail : ImageFile → Thumb)
    (similarity_of : ImageFile → ImageFile → Z) (strftime_f : Z → string)
    (format_int : Z → string) (request : ChapterRequest) (event : Event)
    (timestamps : list Z) (pictures : list PictureRow)
    (cache : gmap string cache_value) :
  creq_can_view request = true →
  can_edit_chapters request = true →
  ∃ entries missing fetches cache1,
    thumbnails_get thumbnail similarity_of strftime_f format_int request
      event timestamps pictures cache
    = (JsonPictures entries missing, fetches, cache1)
    ∧ pentry_at <$> entries = filter (has_picture event pictures) timestamps
    ∧ missing
      = length (filter (λ a, ¬ has_picture event pictures a) timestamps)
    ∧ (length entries + missing = length timestamps)%nat
    ∧ (∀ i entry, entries !! i = Some entry →
                  pentry_similarity entry = None ↔ i = 0%nat)
    ∧ concat fetches
        `sublist_of`
        filter (λ a, ¬ has_picture event pictures a
                     ∧ cache_truthy (cache !! lock_key format_int event a)
                       = false) timestamps.
Proof.
  intros Hview Hedit. unfold thumbnails_get. rewrite Hview, Hedit.
  cbn [negb].
  destruct (thumbnails_loop thumbnail similarity_of strftime_f format_int
              event pictures timestamps (mkThumbnailsState [] [] [] None cache))
    as ((new & Hpics & Hats & Hsim) & Hmiss & (fetch & Hfetch & Hsub) & _).
  cbn [ts_pictures ts_missing ts_fetch ts_prev ts_cache app] in *.
  eexists _, _, _, _. split; [reflexivity|].
  rewrite Hpics, Hmiss, Hfetch.
  split; [done|]. split; [done|]. split.
  { rewrite <-(length_fmap pentry_at), Hats. apply filter_length_split. }
  split.
  { intros i entry Hi. rewrite (Hsim i entry Hi). by split; [intros [? _]|]. }
  case_bool_decide as Hnil; [apply sublist_nil_l|].
  by rewrite (proj1 (fetches_of_groups (length fetch) fetch (le_n _))).
Qed.

Lemma thumbnails_listing_witness :
  ∃ entries missing fetches cache1,
    thumbnails_get sample_thumbnail sample_similarity sample_strftime_f
      sample_format_int chapter_update_request talk [10; 20; 30]
      talk_pictures ∅
    = (JsonPictures entries missing, fetches, cache1)
    ∧ pentry_at <$> entries
      = filter (has_picture talk talk_pictures) [10; 20; 30]
    ∧ missing
      = length (filter (λ a, ¬ has_picture talk talk_pictures a) [10; 20; 30])
    ∧ (length entries + missing = length [10; 20; 30])%nat
    ∧ (∀ i entry, entries !! i = Some entry →
                  pentry_similarity entry = None ↔ i = 0%nat)
    ∧ concat fetches
        `sublist_of`
        filter (λ a, ¬ has_picture talk talk_pictures a
                     ∧ cache_truthy
                         ((∅ : gmap string cache_value)
                            !! lock_key sample_format_int talk a)
                       = false) [10; 20; 30].
Proof.
  apply (thumbnails_listing sample_thumbnail sample_similarity
           sample_strftime_f sample_format_int chapter_update_request talk
           [10; 20; 30] talk_pictures ∅).
  - reflexivity.
  - reflexivity.
Defined.

(** X19.  A timestamp is handed over for fetching once.  After a request
    of a user who may edit the chapters, every timestamp that was missing
    is locked, so no later request fetches it again, whoever asks and
    whatever pictures have arrived; asking again for the same timestamps
    with the same pictures fetches nothing. *)
Theorem missing_timestamps_are_fetched_once (thumbnail : ImageFile → Thumb)
    (similarity_of : ImageFile → ImageFile → Z) (strftime_f : Z → string)
    (format_int : Z → string) (request request2 : ChapterRequest)
    (event : Event) (timestamps timestamps2 : list Z)
    (pictures pictures2 : list PictureRow)
    (cache cache1 cache2 : gmap string cache_value)
    (response response2 : thumbnails_response)
    (fetches fetches2 : list (list Z)) :
  creq_can_view request = true →
  can_edit_chapters request = true →
  thumbnails_get thumbnail similarity_of strftime_f format_int request event
    timestamps pictures cache
  = (response, fetches, cache1) →
  thumbnails_get thumbnail similarity_of strftime_f format_int request2 event
    timestamps2 pictures2 cache1
  = (response2, fetches2, cache2) →
  (∀ a, a ∈ timestamps → ¬ has_picture event pictures a →
        cache_truthy (cache1 !! lock_key format_int event a) = true
        ∧ a ∉ concat fetches2)
  ∧ (timestamps2 = timestamps → pictures2 = pictures → fetches2 = []).
Proof.
  intros Hview Hedit Hrun Hrun2.
  assert (∀ a, a ∈ timestamps → ¬ has_picture event pictures a →
               cache_truthy (cache1 !! lock_key format_int event a) = true)
    as Hlocked.
  { unfold thumbnails_get in Hrun. rewrite Hview, Hedit in Hrun.
    cbn [negb] in Hrun. injection Hrun as _ _ <-.
    intros a Ha Hna.
    destruct (thumbnails_loop thumbnail similarity_of strftime_f format_int
                event pictures timestamps
                (mkThumbnailsState [] [] [] None cache)) as (_ & _ & _ & Hl).
    apply Hl. by right. }
  assert (∃ fetch,
            concat fetches2 = fetch
            ∧ (fetch = [] → fetches2 = [])
            ∧ fetch
                `sublist_of`
                filter (λ a, ¬ has_picture event pictures2 a
                             ∧ cache_truthy
                                 (cache1 !! lock_key format_int event a)
                               = false) timestamps2)
    as (fetch & Hconcat & Hnil & Hsub).
  { unfold thumbnails_get in Hrun2.
    destruct (negb (creq_can_view request2)).
    { injection Hrun2 as _ <- _. exists []. split; [done|]. split; [done|].
      apply sublist_nil_l. }
    destruct (negb (can_edit_chapters request2)).
    { injection Hrun2 as _ <- _. exists []. split; [done|]. split; [done|].
      apply sublist_nil_l. }
    injection Hrun2 as _ <- _.
    destruct (thumbnails_loop thumbnail similarity_of strftime_f format_int
                event pictures2 timestamps2
                (mkThumbnailsState [] [] [] None cache1))
      as (_ & _ & (fetch & Hfetch & Hsub) & _).
    cbn [ts_fetch ts_cache app] in Hfetch, Hsub. rewrite Hfetch.
    exists fetch. split; [|split; [|done]].
    - case_bool_decide as Hnil; [by subst|].
      apply (fetches_of_groups (length fetch) fetch (le_n _)).
    - intros ->. by rewrite bool_decide_eq_true_2. }
  split.
  - intros a Ha Hna. split; [by apply Hlocked|].
    rewrite Hconcat. intros Hin.
    pose proof (elem_of_sublist _ _ _ Hin Hsub) as Hin2.
    apply list_elem_of_filter in Hin2 as [[_ Hun] _].
    by rewrite (Hlocked a Ha Hna) in Hun.
  - intros -> ->. apply Hnil.
    destruct fetch as [|a fetch]; [done|]. exfalso.
    assert (a ∈ a :: fetch) as Hin by (by left).
    pose proof (elem_of_sublist _ _ _ Hin Hsub) as Hin2.
    apply list_elem_of_filter in Hin2 as [[Hna Hun] Ha].
    by rewrite (Hlocked a Ha Hna) in Hun.
Qed.

Lemma triple_eta {A B C : Type} (x : A * B * C) : x = (x.1.1, x.1.2, x.2).
Proof. by destruct x as [[? ?] ?]. Defined.

Lemma missing_timestamps_are_fetched_once_witness :
  ∃ cache1 fetches2,
    (thumbnails_get sample_thumbnail sample_similarity sample_strftime_f
       sample_format_int chapter_update_request talk [10; 20; 30]
       talk_pictures ∅).2
    = cache1
    ∧ (thumbnails_get sample_thumbnail sample_similarity sample_strftime_f
         sample_format_int chapter_update_request talk [10; 20; 30]
         talk_pictures cache1).1.2
      = fetches2
    ∧ (∀ a, a ∈ [10; 20; 30] → ¬ has_picture talk talk_pictures a →
            cache_truthy (cache1 !! lock_key sample_format_int talk a) = true
            ∧ a ∉ concat fetches2)
    ∧ ([10; 20; 30] = [10; 20; 30] → talk_pictures = talk_pictures →
       fetches2 = []).
Proof.
  eexists _, _. split; [reflexivity|]. split; [reflexivity|].
  eapply (missing_timestamps_are_fetched_once sample_thumbnail
            sample_similarity sample_strftime_f sample_format_int
            chapter_update_request chapter_update_request talk [10; 20; 30]
            [10; 20; 30] talk_pictures talk_pictures ∅).
  - reflexivity.
  - reflexivity.
  - apply triple_eta.
  - apply triple_eta.
Defined.


(** ** The tags after the diff *)

Lemma event_tags_all_spec (db : DB) (event : Event) (t : Tag) :
  NoDup (tag_id <$> tags db) →
  t ∈ event_tags_all db event
  ↔ t ∈ tags db ∧ (event_id event, tag_id t) ∈ event_tags db.
Proof.
  intros Hnd. unfold event_tags_all. rewrite list_elem_of_omap. split.
  - intros ([e id] & Hrow & Ht). cbn [fst snd] in Ht.
    case_bool_decide as He; [|done]. subst e.
    apply head_filter_elem in Ht as [Hid Ht]. split; [done|]. by rewrite Hid.
  - intros [Ht Hrow]. exists (event_id event, tag_id t). split; [done|].
    cbn [fst snd]. rewrite bool_decide_eq_true_2 by done.
    unfold find_tag. by rewrite (filter_key_unique tag_id).
Qed.

Lemma py_set_names (l : list string) (n : string) :
  n ∈ py_set String.eqb l ↔ n ∈ l.
Proof.
  pose proof (py_set_keys String.eqb id string_eqb_key l n) as H.
  by rewrite !list_fmap_id in H.
Qed.

Lemma py_diff_names (s t : list string) (n : string) :
  n ∈ py_diff String.eqb s t ↔ n ∈ s ∧ n ∉ t.
Proof.
  rewrite (py_diff_elem String.eqb id s t n string_eqb_key).
  by rewrite list_fmap_id.
Qed.

Lemma remove_tag_by_name_spec (event : Event) (db db1 : DB) (n : string) :
  NoDup (tag_id <$> tags db) →
  remove_tag_by_name event db n = Ok db1 →
  tags db1 = tags db
  ∧ ∀ u, u ∈ event_tags_all db1 event
         ↔ u ∈ event_tags_all db event ∧ tag_name u ≠ n.
Proof.
  intros Hnd H. unfold remove_tag_by_name in H. inv_bind H. rename a into t.
  cbv [mret result_ret] in H. injection H as <-.
  unfold objects_get, Tag_filter_name in Ha.
  destruct (filter _ (tags db)) as [|t' [|? ?]] eqn:Hf; try done.
  injection Ha as ->.
  assert (∀ u, u ∈ tags db ∧ tag_name u = n ↔ u = t) as Huniq.
  { intros u. split.
    - intros [Hu Hn].
      assert (u ∈ filter (λ t, tag_name t = n) (tags db)) as Hin
        by (by apply list_elem_of_filter).
      rewrite Hf in Hin. by apply list_elem_of_singleton in Hin.
    - intros ->.
      assert (t ∈ filter (λ t, tag_name t = n) (tags db)) as Hin
        by (rewrite Hf; by left).
      apply list_elem_of_filter in Hin as [? ?]. done. }
  destruct (proj2 (Huniq t) eq_refl) as [Ht Hname].
  split; [done|]. intros u.
  rewrite (event_tags_all_spec (event_tags_remove event db t)) by done.
  rewrite (event_tags_all_spec db) by done.
  unfold event_tags_remove. cbn [tags event_tags set_event_tags].
  rewrite list_elem_of_filter. split.
  - intros [Hu [Hne Hrow]]. split; [done|]. intros Hn. apply Hne.
    f_equal. f_equal. by apply Huniq.
  - intros [[Hu Hrow] Hn]. split; [done|]. split; [|done].
    intros [= Hid]. apply Hn.
    assert (u = t) as -> by (by eapply (NoDup_fmap_elem_inj tag_id)).
    done.
Qed.

Lemma foldM_remove_tags (event : Event) (l : list string) (db db1 : DB) :
  NoDup (tag_id <$> tags db) →
  foldM (remove_tag_by_name event) db l = Ok db1 →
  tags db1 = tags db
  ∧ ∀ u, u ∈ event_tags_all db1 event
         ↔ u ∈ event_tags_all db event ∧ tag_name u ∉ l.
Proof.
  revert db. induction l as [|n l IH]; intros db Hnd H.
  - cbv [foldM] in H. injection H as <-. split; [done|]. intros u.
    split; [intros ?; split; [done|apply not_elem_of_nil]|by intros [? _]].
  - apply foldM_cons_Ok in H as (db0 & Hstep & H).
    destruct (remove_tag_by_name_spec _ _ _ _ Hnd Hstep) as [Htags Hone].
    destruct (IH db0) as [Htags1 Hrest]; [by rewrite Htags|done|].
    split; [congruence|]. intros u.
    rewrite Hrest, Hone, not_elem_of_cons. tauto.
Qed.

Lemma tag_for_name_spec (db db1 : DB) (v : string) (t : Tag) :
  NoDup (tag_id <$> tags db) →
  tag_for_name db v = Ok (db1, t) →
  lower (tag_name t) = lower v
  ∧ event_tags db1 = event_tags db
  ∧ NoDup (tag_id <$> tags db1)
  ∧ ∀ u, u ∈ tags db1 ↔ u ∈ tags db ∨ u = t.
Proof.
  intros Hnd. unfold tag_for_name.
  assert (∀ u, u ∈ Tag_filter_name_iexact db v →
               lower (tag_name u) = lower v
               ∧ event_tags db = event_tags db
               ∧ NoDup (tag_id <$> tags db)
               ∧ ∀ w, w ∈ tags db ↔ w ∈ tags db ∨ w = u) as Hfound.
  { intros u [Hu Hin]%Tag_filter_name_iexact_elem.
    split; [by apply String.eqb_eq|]. split; [done|]. split; [done|].
    intros w. split; [by left|]. by intros [?| ->]. }
  destruct (Tag_filter_name_iexact db v) as [|x [|y r]] eqn:Hf;
    cbn [objects_get take].
  - unfold Tag_create. intros [= <- <-]. cbn [tags event_tags set_tags tag_name].
    split; [done|]. split; [done|]. split.
    + rewrite fmap_app. apply NoDup_app. split; [done|].
      split; [|apply NoDup_singleton].
      intros x Hx Hnew. cbn in Hnew. apply list_elem_of_singleton in Hnew.
      subst x. by apply fresh_pk_not_in in Hx.
    + intros u. rewrite elem_of_app, list_elem_of_singleton. tauto.
  - intros [= <- <-]. apply Hfound. by left.
  - intros [= <- <-]. apply Hfound. by left.
Qed.

Lemma add_tag_by_name_spec (event : Event) (db db1 : DB) (v : string) :
  NoDup (tag_id <$> tags db) →
  add_tag_by_name event db v = Ok db1 →
  NoDup (tag_id <$> tags db1)
  ∧ ∃ t, lower (tag_name t) = lower v
         ∧ ∀ u, u ∈ event_tags_all db1 event
                ↔ u ∈ event_tags_all db event ∨ u = t.
Proof.
  intros Hnd H. unfold add_tag_by_name in H. inv_bind H.
  destruct a as [db0 t]. cbv [mret result_ret] in H. injection H as <-.
  destruct (tag_for_name_spec _ _ _ _ Hnd Ha) as (Hlow & Hrows & Hnd0 & Htags).
  assert (tags (event_tags_add event db0 t) = tags db0) as Hsame
    by (unfold event_tags_add; by case_bool_decide).
  assert (∀ row, row ∈ event_tags (event_tags_add event db0 t)
                 ↔ row ∈ event_tags db ∨ row = (event_id event, tag_id t))
    as Hadd.
  { intros row. unfold event_tags_add. case_bool_decide as Hin.
    - rewrite Hrows in *. split; [by left|]. by intros [?| ->].
    - cbn [event_tags set_event_tags].
      rewrite elem_of_app, list_elem_of_singleton, Hrows. tauto. }
  split; [by rewrite Hsame|]. exists t. split; [done|]. intros u.
  rewrite (event_tags_all_spec (event_tags_add event db0 t))
    by (by rewrite Hsame).
  rewrite (event_tags_all_spec db) by done.
  rewrite Hsame, Hadd, Htags. split.
  - intros [[Hu| ->] Hrow]; [|by right].
    destruct Hrow as [Hrow|[= Hid]]; [by left|]. right.
    eapply (NoDup_fmap_elem_inj tag_id); [exact Hnd0| | |done];
      apply Htags; [by left|by right].
  - intros [[Hu Hrow]| ->]; [by split; left|]. by split; right.
Qed.

Lemma foldM_add_tags (event : Event) (l : list string) (db db1 : DB) :
  NoDup (tag_id <$> tags db) →
  foldM (add_tag_by_name event) db l = Ok db1 →
  NoDup (tag_id <$> tags db1)
  ∧ (∀ u, u ∈ event_tags_all db1 event →
          u ∈ event_tags_all db event
          ∨ ∃ v, v ∈ l ∧ lower (tag_name u) = lower v)
  ∧ (∀ u, u ∈ event_tags_all db event → u ∈ event_tags_all db1 event)
  ∧ (∀ v, v ∈ l →
          ∃ u, u ∈ event_tags_all db1 event
               ∧ lower (tag_name u) = lower v).
Proof.
  revert db. induction l as [|v l IH]; intros db Hnd H.
  - cbv [foldM] in H. injection H as <-. split; [done|].
    split; [by left|]. split; [done|]. by intros v Hv%elem_of_nil.
  - apply foldM_cons_Ok in H as (db0 & Hstep & H).
    destruct (add_tag_by_name_spec _ _ _ _ Hnd Hstep)
      as (Hnd0 & t & Hlow & Hone).
    destruct (IH db0 Hnd0 H) as (Hnd1 & Hfrom & Hkeep & Hhas).
    split; [done|]. split; [|split].
    + intros u Hu. destruct (Hfrom u Hu) as [Hu0|(w & Hw & Hl)].
      * apply Hone in Hu0 as [?| ->]; [by left|].
        right. exists v. split; [by left|done].
      * right. exists w. split; [by right|done].
    + intros u Hu. apply Hkeep, Hone. by left.
    + intros w [->|Hw]%elem_of_cons; [|by apply Hhas].
      exists t. split; [|done]. apply Hkeep, Hone. by right.
Qed.

(** Lines 181-197 on a baseline that lists the tags the event has: the
    event's tags become the submitted ones, up to the case of the names. *)
Lemma diff_tags_applies (previous : gmap string json) (ts : list Tag)
    (st st1 : EditState) :
  diff_tags previous (VTags ts) st = Ok st1 →
  previous !! "tags"
  = Some (JList (tag_id <$> event_tags_all (st_db st) (st_event st))) →
  NoDup (tag_id <$> tags (st_db st)) →
  NoDup (tag_id <$> tags (st_db st1))
  ∧ ∀ n,
      n ∈ (λ t, lower (tag_name t))
            <$> event_tags_all (st_db st1) (st_event st1)
      ↔ n ∈ (λ t, lower (tag_name t)) <$> ts.
Proof.
  unfold diff_tags, previous_ids, previous_item. intros H Hprev Hnd.
  rewrite Hprev in H. cbn [mbind result_bind] in H.
  inv_bind H. rename a into db1. inv_bind H. rename a into db2.
  cbv [mret result_ret] in H. injection H as <-. cbn [st_db st_event].
  set (value := py_set String.eqb (tag_name <$> ts)) in *.
  set (prev := py_set String.eqb
                 (tag_name
                    <$> Tag_filter_id_in (st_db st)
                          (tag_id
                             <$> event_tags_all (st_db st) (st_event st))))
    in *.
  assert (∀ n, n ∈ value ↔ n ∈ tag_name <$> ts) as Hvalue
    by (intros n; apply py_set_names).
  assert (∀ n, n ∈ prev
               ↔ n ∈ tag_name <$> event_tags_all (st_db st) (st_event st))
    as Hprevn.
  { intros n. unfold prev. rewrite py_set_names, !list_elem_of_fmap.
    split; intros (t & -> & Ht); exists t; split; try done;
      by apply (Tag_filter_id_in_event_tags _ _ _ Hnd). }
  destruct (foldM_remove_tags _ _ _ _ Hnd Ha) as [Htags1 Hremoved].
  destruct (foldM_add_tags _ _ _ _ (eq_ind_r (λ l, NoDup (tag_id <$> l))
                                      Hnd Htags1) Ha0)
    as (Hnd2 & Hfrom & Hkeep & Hhas).
  split; [done|]. intros n. rewrite !list_elem_of_fmap. split.
  - intros (u & -> & Hu). destruct (Hfrom u Hu) as [Hu1|(v & Hv & Hl)].
    + apply Hremoved in Hu1 as [Hu0 Hnot].
      rewrite py_diff_names in Hnot.
      assert (tag_name u ∈ value) as Hin.
      { destruct (decide (tag_name u ∈ value)) as [?|Hout]; [done|].
        exfalso. apply Hnot. split; [|done].
        apply Hprevn. by apply list_elem_of_fmap_2. }
      apply Hvalue, list_elem_of_fmap in Hin as (t & Heq & Ht).
      exists t. by rewrite Heq.
    + apply py_diff_names in Hv as [Hv _].
      apply Hvalue, list_elem_of_fmap in Hv as (t & -> & Ht).
      by exists t.
  - intros (t & -> & Ht).
    assert (tag_name t ∈ value) as Hin
      by (by apply Hvalue, list_elem_of_fmap_2).
    destruct (decide (tag_name t ∈ prev)) as [Hp|Hp].
    + apply Hprevn, list_elem_of_fmap in Hp as (u & Heq & Hu).
      exists u. split; [by rewrite Heq|].
      apply Hkeep, Hremoved. split; [done|].
      rewrite py_diff_names, <-Heq. tauto.
    + destruct (Hhas (tag_name t)) as (u & Hu & Hl).
      { by apply py_diff_names. }
      by exists u.
Qed.

Section TagsLoop.
Variable previous : gmap string json.
Variable has_file : bool.

Lemma process_field_tags_kept (key : string) (value : pyval)
    (st st1 : EditState) :
  process_field previous has_file st (key, value) = Ok st1 →
  key ≠ "tags" →
  tags (st_db st1) = tags (st_db st)
  ∧ event_tags_all (st_db st1) (st_event st1)
    = event_tags_all (st_db st) (st_event st).
Proof.
  intros H Hne.
  apply process_field_step in H as (cur & st' & _ & Hfr & -> & -> & _).
  destruct (frame_tags _ _ _ Hfr Hne) as [Ht Hrows].
  split; [done|]. apply event_tags_all_ext; [done|done|].
  apply (frame_event_id _ _ _ Hfr).
Qed.

Lemma loop_tags_kept (l : list (string * pyval)) (st0 st : EditState) :
  foldM (process_field previous has_file) st0 l = Ok st →
  "tags" ∉ l.*1 →
  event_tags_all (st_db st) (st_event st)
  = event_tags_all (st_db st0) (st_event st0).
Proof.
  revert st0. induction l as [|[key value] l IH]; intros st0 H.
  - by inv_ret H.
  - apply foldM_cons_Ok in H as (st1 & Hst1 & H).
    rewrite fmap_cons, not_elem_of_cons. cbn [fst]. intros [Hne Hl].
    rewrite (IH _ H Hl).
    by apply (process_field_tags_kept _ _ _ _ Hst1).
Qed.

Lemma loop_tags_applied (l : list (string * pyval)) (ts : list Tag)
    (st0 st : EditState) :
  foldM (process_field previous has_file) st0 l = Ok st →
  NoDup l.*1 →
  ("tags", VTags ts) ∈ l →
  previous !! "tags"
  = Some (JList (tag_id <$> event_tags_all (st_db st0) (st_event st0))) →
  NoDup (tag_id <$> tags (st_db st0)) →
  ∀ n,
    n ∈ (λ t, lower (tag_name t)) <$> event_tags_all (st_db st) (st_event st)
    ↔ n ∈ (λ t, lower (tag_name t)) <$> ts.
Proof.
  revert st0.
  induction l as [|[key value] l IH]; intros st0 H Hnd Hin Hprev Hids n.
  - by apply elem_of_nil in Hin.
  - apply foldM_cons_Ok in H as (st1 & Hst1 & H).
    rewrite fmap_cons in Hnd. apply NoDup_cons in Hnd as [Hk Hnd].
    cbn [fst] in Hk.
    apply elem_of_cons in Hin as [[= <- <-]|Hin].
    + rewrite (loop_tags_kept _ _ _ H Hk).
      unfold process_field in Hst1. inv_bind Hst1. inv_bind Hst1.
      unfold compute_diff in Ha0. cbn [String.eqb Ascii.eqb Bool.eqb] in Ha0.
      assert (st_db st1 = st_db a0 ∧ st_event st1 = st_event a0) as [-> ->].
      { unfold detect_conflict in Hst1.
        case_bool_decide; [|by inv_ret Hst1].
        destruct (st_current_value a0); [|done].
        destruct (negb _); by inv_ret Hst1. }
      by apply (diff_tags_applies previous ts _ _ Ha0).
    + assert (key ≠ "tags") as Hne.
      { intros ->. apply Hk. by apply (list_elem_of_fmap_2 fst) in Hin. }
      destruct (process_field_tags_kept _ _ _ _ Hst1 Hne) as [Ht Hall].
      apply (IH st1); try done.
      * by rewrite Hall.
      * by rewrite Ht.
Qed.
End TagsLoop.

(** X20.  When the baseline lists the tags the event has, the per-field
    loop leaves the event with the submitted tags, up to the case of their
    names: a tag that is attached afterwards carries a submitted name, and
    every submitted name is carried by an attached tag.  (Tag ids are
    unique.) *)
Theorem tags_are_submitted (previous : gmap string json) (has_file : bool)
    (event : Event) (db : DB) (cleaned_data : list (string * pyval))
    (ts : list Tag) (st : EditState) :
  edit_fields previous has_file event db cleaned_data = Ok st →
  NoDup cleaned_data.*1 →
  ("tags", VTags ts) ∈ cleaned_data →
  previous !! "tags" = Some (JList (tag_id <$> event_tags_all db event)) →
  NoDup (tag_id <$> tags db) →
  ∀ n,
    n ∈ (λ t, lower (tag_name t)) <$> event_tags_all (st_db st) (st_event st)
    ↔ n ∈ (λ t, lower (tag_name t)) <$> ts.
Proof.
  intros H Hnd Hin Hprev Hids.
  by apply (loop_tags_applied previous has_file cleaned_data ts _ _ H).
Qed.

Lemma tags_are_submitted_witness :
  ∃ st,
    edit_fields add_tag_previous false talk sample_db case_tag_cleaned_data
    = Ok st
    ∧ tag_name <$> event_tags_all (st_db st) (st_event st) = ["foo"; "baz"]
    ∧ ∀ n,
        n ∈ (λ t, lower (tag_name t))
              <$> event_tags_all (st_db st) (st_event st)
        ↔ n ∈ (λ t, lower (tag_name t)) <$> [mkTag 0 "FOO"; mkTag 0 "baz"].
Proof.
  eexists. split; [vm_compute; reflexivity|]. split; [reflexivity|].
  apply (tags_are_submitted add_tag_previous false talk sample_db
           case_tag_cleaned_data [mkTag 0 "FOO"; mkTag 0 "baz"]).
  - vm_compute. reflexivity.
  - apply (bool_decide_unpack _). vm_compute. exact I.
  - by left.
  - reflexivity.
  - apply (bool_decide_unpack _). vm_compute. exact I.
Defined.
